(** * Terminology consistency checker: a shallow embedding

    This development embeds [skill-builder/scripts/check_terminology.py]
    and states the properties of its extraction, candidate generation,
    deduplication, scoring and ranking stages.

    Conventions of the embedding:
    - Python [str] is [string]; the text is taken to be 7-bit ASCII, so
      [str.lower], [str.isspace] and the regex classes [\w], [\s] are the
      ASCII ones.
    - Python [int] is [Z] (counts, line numbers) and [len] is a [nat].
    - Python [float] is the kernel's binary64 [float]; the constants are
      the doubles nearest to the decimal literals, as in CPython.
    - A [dict] or [Counter] that is iterated is an association list in
      insertion order; a [set] that is only tested for membership is a
      list.  The one set that is enumerated ([lowers] in
      [find_stem_variations]) takes its enumeration order as a parameter.
    - Reading the files and loading the configuration are left to the
      caller: [check_terminology] receives the texts of the files and a
      [TerminologyConfig].  The fixed metadata and guidance of the result
      dictionary and the report formatting are not embedded. *)

From Stdlib Require Import String Ascii List ZArith Lia Bool Arith.
From Stdlib Require Import Permutation Sorting.Sorted.
From Stdlib Require Import Floats DecimalString.
Import ListNotations.

Set Warnings "-inexact-float".
Local Open Scope string_scope.
Local Open Scope list_scope.

(** ** Characters and strings *)

Module Str.

Definition code (c : ascii) : nat := nat_of_ascii c.

Definition between (lo hi : nat) (c : ascii) : bool :=
  (lo <=? code c)%nat && (code c <=? hi)%nat.

Definition is_upper (c : ascii) : bool := between 65 90 c.
Definition is_lower (c : ascii) : bool := between 97 122 c.
Definition is_alpha (c : ascii) : bool := is_upper c || is_lower c.
Definition is_digit (c : ascii) : bool := between 48 57 c.
Definition is_alnum (c : ascii) : bool := is_alpha c || is_digit c.

(** [\w]: letters, digits and the underscore. *)
Definition is_word (c : ascii) : bool := is_alnum c || (code c =? 95)%nat.

(** [str.isspace] and [\s]: TAB, LF, VT, FF, CR, FS, GS, RS, US, SPACE. *)
Definition is_space (c : ascii) : bool :=
  between 9 13 c || between 28 32 c.

Definition lower_char (c : ascii) : ascii :=
  if is_upper c then ascii_of_nat (code c + 32) else c.

(** [s.lower()] *)
Fixpoint lower (s : string) : string :=
  match s with
  | EmptyString => EmptyString
  | String c r => String (lower_char c) (lower r)
  end.

Definition len (s : string) : nat := String.length s.

(** [s.replace(c, '')] for a one-character [c]. *)
Fixpoint remove_char (c : ascii) (s : string) : string :=
  match s with
  | EmptyString => EmptyString
  | String d r =>
      if Ascii.eqb d c then remove_char c r else String d (remove_char c r)
  end.

(** [s[:n]] for [0 <= n]. *)
Definition take (n : nat) (s : string) : string := substring 0 n s.

(** [s[n:]] for [0 <= n]. *)
Definition drop (n : nat) (s : string) : string := substring n (len s - n) s.

(** [s[:-k]] for [0 < k]; empty when [len s <= k]. *)
Definition drop_last (k : nat) (s : string) : string := take (len s - k) s.

(** [s[-k]] for [0 < k <= len s]. *)
Definition get_last (k : nat) (s : string) : option ascii :=
  if (k <=? len s)%nat then get (len s - k) s else None.

Definition startswith (s pre : string) : bool := prefix pre s.

Definition endswith (s suf : string) : bool :=
  (len suf <=? len s)%nat && String.eqb (drop (len s - len suf) s) suf.

(** [sub in s] *)
Fixpoint contains (sub s : string) : bool :=
  prefix sub s ||
  match s with
  | EmptyString => false
  | String _ r => contains sub r
  end.

(** [c in s] for a character [c]. *)
Fixpoint has_char (c : ascii) (s : string) : bool :=
  match s with
  | EmptyString => false
  | String d r => Ascii.eqb d c || has_char c r
  end.

Definition opt_ascii_eqb (a b : option ascii) : bool :=
  match a, b with
  | Some x, Some y => Ascii.eqb x y
  | None, None => true
  | _, _ => false
  end.

(** [s.strip()]: whitespace removed at both ends. *)
Fixpoint lstrip (s : string) : string :=
  match s with
  | EmptyString => EmptyString
  | String c r => if is_space c then lstrip r else s
  end.

Fixpoint rstrip (s : string) : string :=
  match s with
  | EmptyString => EmptyString
  | String c r =>
      match rstrip r with
      | EmptyString => if is_space c then EmptyString else String c EmptyString
      | r' => String c r'
      end
  end.

Definition strip (s : string) : string := rstrip (lstrip s).

(** [s.split()]: the maximal runs of non-whitespace characters. *)
Fixpoint split_ws_aux (cur : string) (s : string) : list string :=
  match s with
  | EmptyString => if (len cur =? 0)%nat then [] else [cur]
  | String c r =>
      if is_space c
      then (if (len cur =? 0)%nat then [] else [cur]) ++ split_ws_aux "" r
      else split_ws_aux (cur ++ String c "") r
  end.

Definition split_ws (s : string) : list string := split_ws_aux "" s.

(** [s.split(c)] for a one-character separator: never empty. *)
Fixpoint split_on_aux (sep : ascii) (cur : string) (s : string) : list string :=
  match s with
  | EmptyString => [cur]
  | String c r =>
      if Ascii.eqb c sep
      then cur :: split_on_aux sep "" r
      else split_on_aux sep (cur ++ String c "") r
  end.

Definition split_on (sep : ascii) (s : string) : list string :=
  split_on_aux sep "" s.

(** Membership of a string in a list, as [x in list] or [x in set]. *)
Definition mem (x : string) (l : list string) : bool :=
  existsb (String.eqb x) l.

End Str.

Import Str.

(** ** Stemming and normalisation *)

Definition vowels : string := "aeiou".

(** [simple_stem] (lines 609-632). *)
Definition simple_stem (word : string) : string :=
  let word := lower word in
  if endswith word "ing" && (5 <? len word)%nat then
    let base := drop_last 3 word in
    if (2 <=? len base)%nat
       && opt_ascii_eqb (get_last 1 base) (get_last 2 base)
       && negb (match get_last 1 base with
                | Some c => has_char c vowels
                | None => false
                end)
    then drop_last 1 base
    else base
  else if endswith word "ied" && (4 <? len word)%nat then
    drop_last 3 word ++ "y"
  else if endswith word "ies" && (4 <? len word)%nat then
    drop_last 3 word ++ "y"
  else if endswith word "ed" && (4 <? len word)%nat then
    drop_last 2 word
  else if endswith word "s" && (3 <? len word)%nat && negb (endswith word "ss") then
    drop_last 1 word
  else word.

(** [normalize_compound] (lines 635-641). *)
Definition normalize_compound (term : string) : string :=
  remove_char " " (remove_char "-" (lower term)).

(** ** Edit distance *)

Definition chars (s : string) : list ascii := list_ascii_of_string s.

(** [enumerate(l)] *)
Definition enumerate {A : Type} (l : list A) : list (nat * A) :=
  combine (seq 0 (length l)) l.

(** One pass of the inner loop body of [levenshtein_distance]: the cell for
    column [j + 1] is appended to [current_row]. *)
Definition row_cell (c1 : ascii) (previous_row current_row : list Z)
    (j : nat) (c2 : ascii) : list Z :=
  let insertions := (nth (j + 1) previous_row 0 + 1)%Z in
  let deletions := (nth j current_row 0 + 1)%Z in
  let substitutions :=
    (nth j previous_row 0 + (if Ascii.eqb c1 c2 then 0 else 1))%Z in
  current_row ++ [Z.min insertions (Z.min deletions substitutions)].

(** The inner [for j, c2 in enumerate(s2)] loop, started from [[i + 1]]. *)
Definition next_row (s2 : list ascii) (previous_row : list Z)
    (i : nat) (c1 : ascii) : list Z :=
  fold_left (fun current_row jc => row_cell c1 previous_row current_row (fst jc) (snd jc))
            (enumerate s2) [(Z.of_nat i + 1)%Z].

(** The outer [for i, c1 in enumerate(s1)] loop, started from
    [range(len(s2) + 1)]. *)
Definition levenshtein_rows (s1 s2 : list ascii) : list Z :=
  fold_left (fun previous_row ic => next_row s2 previous_row (fst ic) (snd ic))
            (enumerate s1) (map Z.of_nat (seq 0 (length s2 + 1))).

(** The body of [levenshtein_distance] below its swap guard. *)
Definition levenshtein_body (s1 s2 : string) : Z :=
  if (len s2 =? 0)%nat then Z.of_nat (len s1)
  else last (levenshtein_rows (chars s1) (chars s2)) 0%Z.

(** [levenshtein_distance] (lines 644-662).  The recursive call swaps the
    arguments once; its own guard is then false. *)
Definition levenshtein_distance (s1 s2 : string) : Z :=
  if (len s1 <? len s2)%nat then levenshtein_body s2 s1
  else levenshtein_body s1 s2.

(** ** Data model *)

Record TermOccurrence : Type := mkTermOccurrence {
  line_number : Z;
  sentence : string;
  section : string
}.

Record CandidatePair : Type := mkCandidatePair {
  term1 : string;
  term1_count : Z;
  term2 : string;
  term2_count : Z;
  reason : string;
  term1_occurrences : list TermOccurrence;
  term2_occurrences : list TermOccurrence;
  suggestion : option string;
  base_confidence : float;
  adjusted_confidence : float;
  modifiers_applied : list string
}.

Record TerminologyConfig : Type := mkTerminologyConfig {
  version : string;
  domain_abbreviations : list (string * string);
  compound_equivalents : list (list string);
  ignore_terms : list string;
  severity_overrides : list (string * string)
}.

(** [TerminologyConfig()] *)
Definition default_config : TerminologyConfig :=
  {| version := "1.0";
     domain_abbreviations := [];
     compound_equivalents := [];
     ignore_terms := [];
     severity_overrides := [] |}.

(** A [Counter]: keys in insertion order, each once. *)
Definition Counter : Type := list (string * Z).

(** The occurrence map [dict[str, list[TermOccurrence]]]. *)
Definition OccMap : Type := list (string * list TermOccurrence).

(** [d.get(k, default)] *)
Fixpoint dict_get {V : Type} (d : list (string * V)) (k : string) (default : V) : V :=
  match d with
  | [] => default
  | (k', v) :: r => if String.eqb k' k then v else dict_get r k default
  end.

(** [k in d] *)
Definition dict_mem {V : Type} (d : list (string * V)) (k : string) : bool :=
  existsb (fun kv => String.eqb (fst kv) k) d.

(** [d[k] = v]: an existing key keeps its place, a new one goes last. *)
Fixpoint dict_set {V : Type} (k : string) (v : V) (d : list (string * V))
  : list (string * V) :=
  match d with
  | [] => [(k, v)]
  | (k', v') :: r =>
      if String.eqb k' k then (k', v) :: r else (k', v') :: dict_set k v r
  end.

(** [counts[k] += 1] *)
Fixpoint counter_incr (k : string) (d : Counter) : Counter :=
  match d with
  | [] => [(k, 1%Z)]
  | (k', n) :: r =>
      if String.eqb k' k then (k', (n + 1)%Z) :: r else (k', n) :: counter_incr k r
  end.

(** [if k not in d: d[k] = []] followed by [d[k].append(v)]. *)
Fixpoint group_add {V : Type} (k : string) (v : V) (d : list (string * list V))
  : list (string * list V) :=
  match d with
  | [] => [(k, [v])]
  | (k', vs) :: r =>
      if String.eqb k' k then (k', vs ++ [v]) :: r else (k', vs) :: group_add k v r
  end.

(** [l.sort(key=..., reverse=True)]: the stable descending arrangement.
    [lt x y] says that the key of [x] is below the key of [y]. *)
Fixpoint insert_desc {A : Type} (lt : A -> A -> bool) (x : A) (l : list A) : list A :=
  match l with
  | [] => [x]
  | y :: r => if lt x y then y :: insert_desc lt x r else x :: l
  end.

Definition sort_desc {A : Type} (lt : A -> A -> bool) (l : list A) : list A :=
  fold_right (insert_desc lt) [] l.

(** The key [lambda x: x[1]] on (name, count) pairs. *)
Definition count_lt (x y : string * Z) : bool := (snd x <? snd y)%Z.

(** [tuple(sorted([a, b]))] *)
Definition sorted_pair (a b : string) : string * string :=
  if String.leb a b then (a, b) else (b, a).

Definition pair_eqb (p q : string * string) : bool :=
  String.eqb (fst p) (fst q) && String.eqb (snd p) (snd q).

Definition pair_mem (p : string * string) (seen : list (string * string)) : bool :=
  existsb (pair_eqb p) seen.

(** ** Lookup tables *)

(** [STOPWORDS] (lines 49-103), in source order. *)
Definition STOPWORDS : list string :=
  [
    "a"; "an"; "the"; "and"; "or"; "but"; "nor"; "yet";
    "so"; "in"; "on"; "at"; "to"; "for"; "of"; "with";
    "by"; "from"; "as"; "into"; "onto"; "upon"; "out"; "up";
    "down"; "about"; "over"; "after"; "before"; "between"; "under"; "above";
    "below"; "against"; "through"; "during"; "within"; "without"; "along"; "across";
    "behind"; "beyond"; "toward"; "towards"; "among"; "around"; "beside"; "besides";
    "is"; "was"; "are"; "were"; "been"; "be"; "being"; "am";
    "have"; "has"; "had"; "having"; "do"; "does"; "did"; "doing";
    "done"; "will"; "would"; "could"; "should"; "may"; "might"; "must";
    "shall"; "can"; "need"; "get"; "got"; "getting"; "make"; "made";
    "making"; "let"; "keep"; "put"; "set"; "take"; "took"; "give";
    "gave"; "it"; "its"; "they"; "them"; "their"; "theirs"; "themselves";
    "we"; "our"; "ours"; "ourselves"; "you"; "your"; "yours"; "yourself";
    "he"; "she"; "him"; "her"; "his"; "hers"; "himself"; "herself";
    "i"; "me"; "my"; "mine"; "myself"; "this"; "that"; "these";
    "those"; "all"; "any"; "each"; "every"; "both"; "few"; "more";
    "most"; "other"; "some"; "such"; "many"; "much"; "several"; "enough";
    "either"; "neither"; "another"; "only"; "own"; "same"; "so"; "than";
    "too"; "very"; "just"; "also"; "now"; "here"; "there"; "again";
    "further"; "once"; "always"; "never"; "often"; "still"; "already"; "ever";
    "even"; "quite"; "rather"; "almost"; "perhaps"; "maybe"; "really"; "actually";
    "simply"; "not"; "no"; "yes"; "if"; "then"; "else"; "when";
    "where"; "how"; "what"; "which"; "who"; "whom"; "whose"; "why";
    "whether"; "see"; "use"; "using"; "used"; "uses"; "like"; "want";
    "wanted"; "work"; "works"; "working"; "run"; "runs"; "running"; "call";
    "called"; "true"; "false"; "null"; "none"; "return"; "def"; "class";
    "import"; "elif"; "try"; "except"; "finally"; "raise"; "pass"; "break";
    "continue"; "lambda"; "yield"; "assert"; "global"; "nonlocal"; "async"; "await";
    "del"; "print"; "const"; "var"; "function"; "new"; "typeof"; "instanceof";
    "undefined"; "void"; "interface"; "type"; "enum"; "export"; "default"; "extends";
    "implements"; "private"; "public"; "protected"; "static"; "readonly"; "abstract"; "declare";
    "module"; "namespace"; "require"; "func"; "struct"; "package"; "main"; "defer";
    "chan"; "select"; "case"; "switch"; "fallthrough"; "goto"; "range"; "map";
    "slice"; "mut"; "impl"; "trait"; "self"; "pub"; "mod"; "crate";
    "super"; "unsafe"; "extern"; "ref"; "match"; "loop"; "move"; "box";
    "dyn"; "int"; "str"; "bool"; "float"; "string"; "number"; "boolean";
    "array"; "list"; "dict"; "object"; "any"; "void"
  ].

(** [KNOWN_ABBREVIATIONS] (lines 106-253), in source order. *)
Definition KNOWN_ABBREVIATIONS : list (string * string) :=
  [
    ("config", "configuration"); ("configs", "configurations"); ("dir", "directory");
    ("dirs", "directories"); ("doc", "document"); ("docs", "documents");
    ("src", "source"); ("dest", "destination"); ("tmp", "temporary");
    ("temp", "temporary"); ("bin", "binary"); ("lib", "library");
    ("libs", "libraries"); ("pkg", "package"); ("pkgs", "packages");
    ("mod", "module"); ("mods", "modules"); ("func", "function");
    ("funcs", "functions"); ("fn", "function"); ("arg", "argument");
    ("args", "arguments"); ("param", "parameter"); ("params", "parameters");
    ("attr", "attribute"); ("attrs", "attributes"); ("prop", "property");
    ("props", "properties"); ("var", "variable"); ("vars", "variables");
    ("val", "value"); ("vals", "values"); ("obj", "object");
    ("objs", "objects"); ("str", "string"); ("num", "number");
    ("int", "integer"); ("bool", "boolean"); ("arr", "array");
    ("elem", "element"); ("elems", "elements"); ("idx", "index");
    ("len", "length"); ("ptr", "pointer"); ("ref", "reference");
    ("refs", "references"); ("init", "initialize"); ("exec", "execute");
    ("impl", "implementation"); ("eval", "evaluate"); ("calc", "calculate");
    ("gen", "generate"); ("del", "delete"); ("rm", "remove");
    ("mv", "move"); ("cp", "copy"); ("cmp", "compare");
    ("concat", "concatenate"); ("iter", "iterate"); ("alloc", "allocate");
    ("dealloc", "deallocate"); ("msg", "message"); ("msgs", "messages");
    ("req", "request"); ("reqs", "requests"); ("res", "response");
    ("resp", "response"); ("err", "error"); ("errs", "errors");
    ("warn", "warning"); ("warns", "warnings"); ("info", "information");
    ("desc", "description"); ("cmd", "command"); ("cmds", "commands");
    ("env", "environment"); ("envs", "environments"); ("proc", "process");
    ("procs", "processes"); ("sys", "system"); ("mem", "memory");
    ("cpu", "processor"); ("db", "database"); ("conn", "connection");
    ("conns", "connections"); ("sess", "session"); ("auth", "authentication");
    ("authz", "authorization"); ("perms", "permissions"); ("creds", "credentials");
    ("repo", "repository"); ("repos", "repositories"); ("ver", "version");
    ("rev", "revision"); ("prev", "previous"); ("curr", "current");
    ("orig", "original"); ("max", "maximum"); ("min", "minimum");
    ("avg", "average"); ("cnt", "count"); ("qty", "quantity");
    ("sz", "size"); ("org", "organization"); ("orgs", "organizations");
    ("opt", "option"); ("opts", "options"); ("pref", "preference");
    ("prefs", "preferences"); ("dev", "development"); ("prod", "production");
    ("stg", "staging"); ("qa", "quality"); ("util", "utility");
    ("utils", "utilities"); ("spec", "specification"); ("specs", "specifications");
    ("impls", "implementations"); ("perf", "performance"); ("async", "asynchronous");
    ("sync", "synchronous"); ("addr", "address"); ("addrs", "addresses");
    ("url", "uniform"); ("http", "hypertext"); ("api", "interface");
    ("rpc", "remote"); ("btn", "button"); ("btns", "buttons");
    ("nav", "navigation"); ("img", "image"); ("imgs", "images");
    ("txt", "text"); ("lbl", "label"); ("ctx", "context")
  ].

(** [CONFIDENCE_SCORES] (lines 388-396). *)
Definition CONFIDENCE_SCORES : list (string * float) :=
  [ ("case_variation", 0.68%float);
    ("abbreviation", 0.80%float);
    ("hyphenation_variant", 0.88%float);
    ("compound_variant", 0.76%float);
    ("stem_variation", 0.40%float);
    ("levenshtein_distance_1", 0.48%float);
    ("levenshtein_distance_2", 0.30%float) ].

(** [CONTEXT_MODIFIERS] (lines 403-424). *)
Definition CONTEXT_MODIFIERS : list (string * float) :=
  [ ("same_paragraph", 0.10%float);
    ("same_section", 0.05%float);
    ("distant_sections", (-0.05)%float);
    ("frequency_imbalance_high", 0.10%float);
    ("frequency_imbalance_moderate", 0.05%float);
    ("one_term_in_code", (-0.15)%float);
    ("both_terms_in_code", (-0.05)%float);
    ("one_term_in_heading", (-0.05)%float);
    ("short_term_levenshtein", (-0.10)%float);
    ("first_mention_expansion", (-0.20)%float);
    ("definition_context", (-0.10)%float) ].

(** ** Confidence scoring *)

(** [float(n)] for a length [n]; exact below [2^53]. *)
Definition float_of_nat (n : nat) : float :=
  PrimFloat.of_uint63 (Uint63.of_Z (Z.of_nat n)).

(** [min(a, b)] and [max(a, b)] of Python on two floats: the first argument
    is returned unless the second is strictly better. *)
Definition py_min (a b : float) : float := if PrimFloat.ltb b a then b else a.
Definition py_max (a b : float) : float := if PrimFloat.ltb a b then b else a.

(** [min(...)] over a non-empty sequence of integers. *)
Definition min_of (l : list Z) : Z :=
  match l with
  | [] => 0%Z
  | x :: r => fold_left Z.min r x
  end.

Definition is_empty {A : Type} (l : list A) : bool :=
  match l with [] => true | _ => false end.

(** [modifiers_applied.append(name); total_modifier += CONTEXT_MODIFIERS[name]] *)
Definition apply_modifier (name : string) (st : float * list string)
  : float * list string :=
  ((fst st + dict_get CONTEXT_MODIFIERS name 0%float)%float, snd st ++ [name]).

Definition in_code (occs : list TermOccurrence) : bool :=
  existsb (fun occ => contains "`" (sentence occ) || contains "```" (sentence occ)) occs.

(** [calculate_confidence_modifiers] (lines 427-512).  The occurrences are
    the dictionaries made by [asdict], so every [isinstance(occ, dict)]
    filter keeps all of them and every [occ.get] finds its field. *)
Definition calculate_confidence_modifiers (term1 term2 : string)
    (term1_occurrences term2_occurrences : list TermOccurrence)
    (reason : string) : float * list string :=
  if is_empty term1_occurrences || is_empty term2_occurrences then (0%float, [])
  else
    let t1_sections := map section term1_occurrences in
    let t2_sections := map section term2_occurrences in
    let t1_lines := map line_number term1_occurrences in
    let t2_lines := map line_number term2_occurrences in
    let st := (0%float, @nil string) in
    (* Proximity: same section, then same paragraph *)
    let st :=
      if existsb (fun s => mem s t2_sections
                           && negb (String.eqb s "(no section)")
                           && negb (String.eqb s "")) t1_sections
      then
        let st := apply_modifier "same_section" st in
        if existsb (fun l1 => existsb (fun l2 => (Z.abs (l1 - l2) <=? 5)%Z) t2_lines)
                   t1_lines
        then apply_modifier "same_paragraph" st
        else st
      else st in
    (* Distant sections *)
    let st :=
      if negb (is_empty t1_lines) && negb (is_empty t2_lines) then
        let min_distance :=
          min_of (flat_map (fun l1 => map (fun l2 => Z.abs (l1 - l2)) t2_lines) t1_lines) in
        if (100 <? min_distance)%Z then apply_modifier "distant_sections" st else st
      else st in
    (* Frequency imbalance *)
    let count1 := length term1_occurrences in
    let count2 := length term2_occurrences in
    let st :=
      if (0 <? count1)%nat && (0 <? count2)%nat then
        let ratio :=
          (float_of_nat (Nat.max count1 count2) / float_of_nat (Nat.min count1 count2))%float in
        if PrimFloat.ltb 10%float ratio then apply_modifier "frequency_imbalance_high" st
        else if PrimFloat.ltb 5%float ratio then apply_modifier "frequency_imbalance_moderate" st
        else st
      else st in
    (* Short term check for Levenshtein *)
    let st :=
      if contains "levenshtein" reason then
        if (len term1 <? 5)%nat || (len term2 <? 5)%nat
        then apply_modifier "short_term_levenshtein" st
        else st
      else st in
    (* Code context *)
    let t1_in_code := in_code term1_occurrences in
    let t2_in_code := in_code term2_occurrences in
    if t1_in_code && t2_in_code then apply_modifier "both_terms_in_code" st
    else if t1_in_code || t2_in_code then apply_modifier "one_term_in_code" st
    else st.

(** The bucket of a reason, as [get_adjusted_confidence] computes it. *)
Definition base_reason_of (reason : string) : string :=
  if startswith reason "levenshtein_distance_" then
    if contains "1" reason then "levenshtein_distance_1" else "levenshtein_distance_2"
  else reason.

(** [get_adjusted_confidence] (lines 515-532). *)
Definition get_adjusted_confidence (reason : string) (modifier : float) : float :=
  let base_confidence := dict_get CONFIDENCE_SCORES (base_reason_of reason) 0.50%float in
  let adjusted := (base_confidence + modifier)%float in
  py_max 0%float (py_min 1%float adjusted).

(** ** The regular expressions of the extractor

    A matcher gives, for the character before a position (if any) and the
    text from that position on, the length of the match that starts there,
    or [0] when there is none.  Every pattern below matches non-empty text
    only.  [re.sub(p, '', s)] and [re.findall(p, s)] scan left to right and
    resume after each match. *)

Definition matcher : Type := option ascii -> string -> nat.

(** Length of the longest prefix of [s] all of whose characters satisfy [p]. *)
Fixpoint run (p : ascii -> bool) (s : string) : nat :=
  match s with
  | EmptyString => 0
  | String c r => if p c then S (run p r) else 0
  end.

Fixpoint sub_go (m : matcher) (prev : option ascii) (skip : nat) (s : string) : string :=
  match s with
  | EmptyString => EmptyString
  | String c r =>
      match skip with
      | S k => sub_go m (Some c) k r
      | O =>
          match m prev s with
          | O => String c (sub_go m (Some c) 0 r)
          | S k => sub_go m (Some c) k r
          end
      end
  end.

(** [re.sub(pattern, '', s)] *)
Definition re_sub_delete (m : matcher) (s : string) : string := sub_go m None 0 s.

Fixpoint findall_go (m : matcher) (prev : option ascii) (skip : nat) (s : string)
  : list string :=
  match s with
  | EmptyString => []
  | String c r =>
      match skip with
      | S k => findall_go m (Some c) k r
      | O =>
          match m prev s with
          | O => findall_go m (Some c) 0 r
          | S k => take (S k) s :: findall_go m (Some c) k r
          end
      end
  end.

(** [re.findall(pattern, s)] *)
Definition re_findall (m : matcher) (s : string) : list string := findall_go m None 0 s.

Definition is_backtick (c : ascii) : bool := Ascii.eqb c "`".

(** A backtick, one or more characters other than a backtick, a backtick. *)
Definition m_inline_code : matcher := fun _ s =>
  match s with
  | String c r =>
      if is_backtick c then
        let n := run (fun d => negb (is_backtick d)) r in
        if (0 <? n)%nat && opt_ascii_eqb (get n r) (Some "`"%char) then n + 2 else 0
      else 0
  | EmptyString => 0
  end.

(** [https?://\S+] *)
Definition m_url : matcher := fun _ s =>
  if prefix "https://" s then
    let n := run (fun d => negb (is_space d)) (drop 8 s) in
    if (0 <? n)%nat then 8 + n else 0
  else if prefix "http://" s then
    let n := run (fun d => negb (is_space d)) (drop 7 s) in
    if (0 <? n)%nat then 7 + n else 0
  else 0.

(** [[\w/]+\.\w+] *)
Definition m_path : matcher := fun _ s =>
  let n1 := run (fun d => is_word d || Ascii.eqb d "/") s in
  if (0 <? n1)%nat then
    match drop n1 s with
    | String c r =>
        if Ascii.eqb c "." then
          let n2 := run is_word r in
          if (0 <? n2)%nat then n1 + 1 + n2 else 0
        else 0
    | EmptyString => 0
    end
  else 0.

Definition next_is_word (s : string) : bool :=
  match s with
  | String d _ => is_word d
  | EmptyString => false
  end.

Definition prev_is_word (prev : option ascii) : bool :=
  match prev with
  | Some d => is_word d
  | None => false
  end.

(** The longest continuation of a word: [s] is read while its characters
    are in [cls]; the result is the largest number of characters after
    which the last one read is alphanumeric and a word boundary follows,
    or [best] when there is none. *)
Fixpoint word_body (cls : ascii -> bool) (s : string) (pos best : nat) : nat :=
  match s with
  | EmptyString => best
  | String c r =>
      if cls c then
        word_body cls r (S pos)
                  (if is_alnum c && negb (next_is_word r) then S pos else best)
      else best
  end.

(** A word boundary, a letter, a greedy run of [cls], an alphanumeric
    character and a word boundary; failing that, a boundary, one letter and
    a boundary. *)
Definition m_word (cls : ascii -> bool) : matcher := fun prev s =>
  match s with
  | String c r =>
      if is_alpha c && negb (prev_is_word prev) then
        match word_body cls r 0 0 with
        | S k => S (S k)
        | O => if next_is_word r then 0 else 1
        end
      else 0
  | EmptyString => 0
  end.

(** [\b[a-zA-Z][a-zA-Z0-9-]*[a-zA-Z0-9]\b|\b[a-zA-Z]\b] *)
Definition m_term_word : matcher :=
  m_word (fun d => is_alnum d || Ascii.eqb d "-").

(** [\b[a-zA-Z][a-zA-Z0-9]*\b] *)
Definition m_bigram_word : matcher := m_word is_alnum.

(** ** Context extraction *)

(** [re.sub(r'^#+\s*', '', line)] *)
Definition strip_heading (line : string) : string :=
  let n := run (fun d => Ascii.eqb d "#") line in
  if (0 <? n)%nat then
    let r := drop n line in drop (run is_space r) r
  else line.

(** [get_current_section] (lines 665-672): the lines before [line_idx] are
    searched from the nearest one upward. *)
Definition get_current_section (lines : list string) (line_idx : nat) : string :=
  match find (fun l => startswith (strip l) "#") (rev (firstn line_idx lines)) with
  | Some l => strip_heading (strip l)
  | None => "(no section)"
  end.

(** First index at which [term] occurs in [line]. *)
Fixpoint find_from (term line : string) (i : nat) : option nat :=
  if prefix term line then Some i
  else match line with
       | EmptyString => None
       | String _ r => find_from term r (S i)
       end.

(** [get_sentence_context] (lines 675-697); the search ignores case. *)
Definition get_sentence_context (line term : string) (max_chars : nat) : string :=
  match find_from (lower term) (lower line) 0 with
  | None => strip (take max_chars line)
  | Some start =>
      let end_ := start + len term in
      let context_start := start - 30 in
      let context_end := Nat.min (len line) (end_ + 30) in
      let context := strip (substring context_start (context_end - context_start) line) in
      let context :=
        if (0 <? context_start)%nat then ("..." ++ context)%string else context in
      if (context_end <? len line)%nat then (context ++ "...")%string else context
  end.

(** The three substitutions applied to a line outside a code block. *)
Definition clean_line (line : string) : string :=
  re_sub_delete m_path (re_sub_delete m_url (re_sub_delete m_inline_code line)).

(** The first loop of both extractors: fenced blocks are blanked. *)
Fixpoint process_lines (in_code_block : bool) (lines : list string) : list string :=
  match lines with
  | [] => []
  | line :: r =>
      if startswith (strip line) "```" then "" :: process_lines (negb in_code_block) r
      else if in_code_block then "" :: process_lines in_code_block r
      else clean_line line :: process_lines in_code_block r
  end.

(** Counting one occurrence of [key] found on line [line_idx]. *)
Definition record_occurrence (lines : list string) (line_idx : nat) (key : string)
    (st : Counter * OccMap) : Counter * OccMap :=
  (counter_incr key (fst st),
   group_add key
     {| line_number := (Z.of_nat line_idx + 1)%Z;
        sentence := get_sentence_context (nth line_idx lines "") key 80;
        section := get_current_section lines line_idx |}
     (snd st)).

Definition newline : ascii := "010"%char.

(** [extract_terms_with_context] (lines 700-752). *)
Definition extract_terms_with_context (content : string) : Counter * OccMap :=
  let lines := split_on newline content in
  let processed_lines := process_lines false lines in
  fold_left
    (fun st il =>
       if (len (strip (snd il)) =? 0)%nat then st
       else
         fold_left
           (fun st word =>
              if negb (mem (lower word) STOPWORDS) && (2 <? len (lower word))%nat
              then record_occurrence lines (fst il) word st
              else st)
           (re_findall m_term_word (snd il)) st)
    (enumerate processed_lines) ([], []).

(** [extract_bigrams_with_context] (lines 755-801). *)
Definition extract_bigrams_with_context (content : string) : Counter * OccMap :=
  let lines := split_on newline content in
  let processed_lines := process_lines false lines in
  fold_left
    (fun st il =>
       if (len (strip (snd il)) =? 0)%nat then st
       else
         let words :=
           filter (fun w => negb (mem (lower w) STOPWORDS) && (2 <? len w)%nat)
                  (re_findall m_bigram_word (snd il)) in
         fold_left
           (fun st ww => record_occurrence lines (fst il) (fst ww ++ " " ++ snd ww)%string st)
           (combine words (tl words)) st)
    (enumerate processed_lines) ([], []).

(** ** Candidate generators *)

(** [[asdict(o) for o in occurrences.get(term, [])[:3]]] *)
Definition occurrences_of (occurrences : OccMap) (term : string) : list TermOccurrence :=
  firstn 3 (dict_get occurrences term []).

(** A [CandidatePair] as the generators build it: the three scoring fields
    keep their dataclass defaults. *)
Definition candidate (t1 : string) (c1 : Z) (o1 : list TermOccurrence)
    (t2 : string) (c2 : Z) (o2 : list TermOccurrence)
    (why : string) (sugg : option string) : CandidatePair :=
  {| term1 := t1; term1_count := c1; term2 := t2; term2_count := c2;
     reason := why; term1_occurrences := o1; term2_occurrences := o2;
     suggestion := sugg;
     base_confidence := 0%float; adjusted_confidence := 0%float;
     modifiers_applied := [] |}.

(** [find_case_variations] (lines 804-838). *)
Definition find_case_variations (term_counts : Counter) (term_occurrences : OccMap)
    (ignore_terms : list string) : list CandidatePair :=
  let by_lower :=
    fold_left
      (fun d tc =>
         if mem (lower (fst tc)) ignore_terms then d
         else group_add (lower (fst tc)) tc d)
      term_counts [] in
  flat_map
    (fun kv =>
       if (1 <? length (snd kv))%nat then
         match sort_desc count_lt (snd kv) with
         | [] => []
         | most_common :: rest =>
             map (fun tc =>
                    candidate (fst most_common) (snd most_common)
                              (occurrences_of term_occurrences (fst most_common))
                              (fst tc) (snd tc)
                              (occurrences_of term_occurrences (fst tc))
                              "case_variation" (Some (fst most_common)))
                 rest
         end
       else [])
    by_lower.

(** [d[k]] when [k in d]. *)
Fixpoint dict_find {V : Type} (d : list (string * V)) (k : string) : option V :=
  match d with
  | [] => None
  | (k', v) :: r => if String.eqb k' k then Some v else dict_find r k
  end.

(** [{**KNOWN_ABBREVIATIONS, **config.domain_abbreviations}] *)
Definition all_abbreviations (config : TerminologyConfig) : list (string * string) :=
  fold_left (fun d kv => dict_set (fst kv) (snd kv) d)
            (domain_abbreviations config) KNOWN_ABBREVIATIONS.

(** [find_abbreviations] (lines 841-874). *)
Definition find_abbreviations (term_counts : Counter) (term_occurrences : OccMap)
    (config : TerminologyConfig) : list CandidatePair :=
  let terms :=
    fold_left (fun d tc => dict_set (lower (fst tc)) tc d) term_counts [] in
  flat_map
    (fun ae =>
       match dict_find terms (lower (fst ae)), dict_find terms (lower (snd ae)) with
       | Some (abbrev_term, abbrev_count), Some (exp_term, exp_count) =>
           let suggestion :=
             if (exp_count <? abbrev_count)%Z then abbrev_term else exp_term in
           [candidate abbrev_term abbrev_count
                      (occurrences_of term_occurrences abbrev_term)
                      exp_term exp_count
                      (occurrences_of term_occurrences exp_term)
                      "abbreviation" (Some suggestion)]
       | _, _ => []
       end)
    (all_abbreviations config).

(** The distinct elements of a list: the contents of [set(l)]. *)
Definition distinct (l : list string) : list string := nodup string_dec l.

Section SetIteration.

(** [list(s)] for a set [s]: CPython enumerates a set of strings in an
    order that depends on the per-process hash seed.  [set_list] is that
    enumeration, applied to the distinct elements of the set. *)
Variable set_list : list string -> list string.

(** [find_stem_variations] (lines 877-923). *)
Definition find_stem_variations_with (term_counts : Counter)
    (term_occurrences : OccMap) (ignore_terms : list string) : list CandidatePair :=
  let by_stem :=
    fold_left
      (fun d tc =>
         if mem (lower (fst tc)) ignore_terms then d
         else
           let stem := simple_stem (lower (fst tc)) in
           if (3 <=? len stem)%nat then group_add stem tc d else d)
      term_counts [] in
  flat_map
    (fun kv =>
       if (1 <? length (snd kv))%nat then
         let variants := sort_desc count_lt (snd kv) in
         let lowers := distinct (map (fun v => lower (fst v)) variants) in
         let l := set_list lowers in
         if (length lowers =? 2)%nat
            && (String.eqb (nth 0 l "" ++ "s") (nth 1 l "")
                || String.eqb (nth 1 l "" ++ "s") (nth 0 l ""))
         then []
         else
           match variants with
           | [] => []
           | most_common :: rest =>
               flat_map
                 (fun tc =>
                    if String.eqb (lower (fst tc)) (lower (fst most_common) ++ "s")
                    then []
                    else if String.eqb (lower (fst most_common)) (lower (fst tc) ++ "s")
                    then []
                    else
                      [candidate (fst most_common) (snd most_common)
                                 (occurrences_of term_occurrences (fst most_common))
                                 (fst tc) (snd tc)
                                 (occurrences_of term_occurrences (fst tc))
                                 "stem_variation" None])
                 rest
           end
       else [])
    by_stem.

End SetIteration.

(** The generator with sets enumerated in insertion order. *)
Definition find_stem_variations : Counter -> OccMap -> list string -> list CandidatePair :=
  find_stem_variations_with (fun l => l).

(** [find_hyphenation_variants] (lines 926-976). *)
Definition find_hyphenation_variants (term_counts : Counter) (term_occurrences : OccMap)
    (ignore_terms : list string) : list CandidatePair :=
  let by_normalized :=
    fold_left
      (fun d tc =>
         if mem (lower (fst tc)) ignore_terms then d
         else if has_char "-" (fst tc) || (6 <? len (fst tc))%nat
         then group_add (normalize_compound (fst tc)) tc d
         else d)
      term_counts [] in
  flat_map
    (fun kv =>
       let hyphenated := filter (fun tc => has_char "-" (fst tc)) (snd kv) in
       let non_hyphenated := filter (fun tc => negb (has_char "-" (fst tc))) (snd kv) in
       if negb (is_empty hyphenated) && negb (is_empty non_hyphenated) then
         match sort_desc count_lt (hyphenated ++ non_hyphenated) with
         | [] => []
         | most_common :: rest =>
             flat_map
               (fun tc =>
                  if String.eqb (lower (fst tc)) (lower (fst most_common)) then []
                  else
                    [candidate (fst most_common) (snd most_common)
                               (occurrences_of term_occurrences (fst most_common))
                               (fst tc) (snd tc)
                               (occurrences_of term_occurrences (fst tc))
                               "hyphenation_variant" (Some (fst most_common))])
               rest
         end
       else [])
    by_normalized.

(** A resolved form of an equivalence set: (surface form, count, kind). *)
Definition FoundForm : Type := string * Z * string.

Definition form_name (f : FoundForm) : string := fst (fst f).
Definition form_count (f : FoundForm) : Z := snd (fst f).
Definition form_type (f : FoundForm) : string := snd f.

Definition form_lt (x y : FoundForm) : bool := (form_count x <? form_count y)%Z.

(** The first key of [counts] equal to [form] up to case, with its count. *)
Definition resolve_form (counts : Counter) (form kind : string) : list FoundForm :=
  match find (fun kc => String.eqb (lower (fst kc)) (lower form)) counts with
  | Some kc => [(fst kc, dict_get counts (fst kc) 0%Z, kind)]
  | None => []
  end.

(** The generator's accumulator: [candidates] and the [seen] set. *)
Definition GenState : Type := list CandidatePair * list (string * string).

(** The first loop of [find_compound_variants] (lines 994-1044), for one
    configured equivalence set. *)
Definition compound_equivalents_step (term_counts : Counter) (term_occurrences : OccMap)
    (bigram_counts : Counter) (bigram_occurrences : OccMap)
    (st : GenState) (equivalents : list string) : GenState :=
  let found_forms :=
    flat_map
      (fun form =>
         if has_char " " form then resolve_form bigram_counts form "bigram"
         else resolve_form term_counts form "term")
      equivalents in
  if (2 <=? length found_forms)%nat then
    match sort_desc form_lt found_forms with
    | [] => st
    | most_common :: rest =>
        fold_left
          (fun st f =>
             let pair_key :=
               sorted_pair (lower (form_name most_common)) (lower (form_name f)) in
             if pair_mem pair_key (snd st) then st
             else
               let occ1 :=
                 if String.eqb (form_type most_common) "bigram"
                 then dict_get bigram_occurrences (form_name most_common) []
                 else dict_get term_occurrences (form_name most_common) [] in
               let occ2 :=
                 if String.eqb (form_type f) "bigram"
                 then dict_get bigram_occurrences (form_name f) []
                 else dict_get term_occurrences (form_name f) [] in
               (fst st ++
                  [candidate (form_name most_common) (form_count most_common)
                             (firstn 3 occ1)
                             (form_name f) (form_count f) (firstn 3 occ2)
                             "compound_variant" (Some (form_name most_common))],
                snd st ++ [pair_key]))
          rest st
    end
  else st.

(** The body of the second loop of [find_compound_variants]
    (lines 1052-1074), for one bigram and one term. *)
Definition compound_bigram_term_step (term_occurrences bigram_occurrences : OccMap)
    (bigram : string) (bigram_count : Z) (normalized : string)
    (st : GenState) (tc : string * Z) : GenState :=
  let term := fst tc in
  let term_count := snd tc in
  if String.eqb (normalize_compound term) normalized
     && negb (String.eqb (lower term) (remove_char " " (lower bigram)))
  then
    let pair_key := sorted_pair (lower bigram) (lower term) in
    if pair_mem pair_key (snd st) then st
    else
      let bigram_parts := split_ws (lower bigram) in
      if (length bigram_parts =? 2)%nat
         && String.eqb (nth 0 bigram_parts "" ++ nth 1 bigram_parts "") (lower term)
      then
        let suggestion := if (term_count <? bigram_count)%Z then bigram else term in
        (fst st ++
           [candidate bigram bigram_count (occurrences_of bigram_occurrences bigram)
                      term term_count (occurrences_of term_occurrences term)
                      "compound_variant" (Some suggestion)],
         snd st ++ [pair_key])
      else st
  else st.

(** The second loop of [find_compound_variants] (lines 1047-1074). *)
Definition compound_bigram_step (term_counts : Counter) (term_occurrences : OccMap)
    (bigram_occurrences : OccMap) (st : GenState) (bc : string * Z) : GenState :=
  let normalized := normalize_compound (fst bc) in
  if (len normalized <? 6)%nat then st
  else
    fold_left
      (compound_bigram_term_step term_occurrences bigram_occurrences
                                 (fst bc) (snd bc) normalized)
      term_counts st.

(** [find_compound_variants] (lines 979-1076). *)
Definition find_compound_variants (term_counts : Counter) (term_occurrences : OccMap)
    (bigram_counts : Counter) (bigram_occurrences : OccMap)
    (config : TerminologyConfig) : list CandidatePair :=
  let st : GenState := ([], []) in
  let st :=
    fold_left
      (compound_equivalents_step term_counts term_occurrences
                                 bigram_counts bigram_occurrences)
      (compound_equivalents config) st in
  let st :=
    fold_left (compound_bigram_step term_counts term_occurrences bigram_occurrences)
              bigram_counts st in
  fst st.

(** [str(n)] for an integer. *)
Definition str_of_Z (n : Z) : string := NilZero.string_of_int (Z.to_int n).

(** The body of the inner loop of [find_levenshtein_similar]
    (lines 1094-1117). *)
Definition levenshtein_pair_step (term_occurrences : OccMap) (ignore_terms : list string)
    (max_distance : Z) (term1 : string) (count1 : Z)
    (st : GenState) (tc : string * Z) : GenState :=
  let term2 := fst tc in
  let count2 := snd tc in
  if mem (lower term2) ignore_terms then st
  else if String.eqb (lower term1) (lower term2) then st
  else if (max_distance <? Z.abs (Z.of_nat (len term1) - Z.of_nat (len term2)))%Z then st
  else if (len term1 <? 4)%nat || (len term2 <? 4)%nat then st
  else
    let distance := levenshtein_distance (lower term1) (lower term2) in
    if (0 <? distance)%Z && (distance <=? max_distance)%Z then
      let pair_key := sorted_pair (lower term1) (lower term2) in
      if pair_mem pair_key (snd st) then st
      else
        (fst st ++
           [candidate term1 count1 (occurrences_of term_occurrences term1)
                      term2 count2 (occurrences_of term_occurrences term2)
                      ("levenshtein_distance_" ++ str_of_Z distance) None],
         snd st ++ [pair_key])
    else st.

(** The outer loop: [terms[i+1:]] is the rest of the list. *)
Fixpoint levenshtein_scan (term_occurrences : OccMap) (ignore_terms : list string)
    (max_distance : Z) (terms : list (string * Z)) (st : GenState) : GenState :=
  match terms with
  | [] => st
  | tc :: rest =>
      if mem (lower (fst tc)) ignore_terms
      then levenshtein_scan term_occurrences ignore_terms max_distance rest st
      else
        levenshtein_scan term_occurrences ignore_terms max_distance rest
          (fold_left
             (levenshtein_pair_step term_occurrences ignore_terms max_distance
                                    (fst tc) (snd tc))
             rest st)
  end.

(** [find_levenshtein_similar] (lines 1079-1119). *)
Definition find_levenshtein_similar (term_counts : Counter) (term_occurrences : OccMap)
    (ignore_terms : list string) (max_distance : Z) : list CandidatePair :=
  fst (levenshtein_scan term_occurrences ignore_terms max_distance term_counts ([], [])).

(** ** Deduplication, scoring and ranking *)

(** [tuple(sorted([c.term1.lower(), c.term2.lower()]))] *)
Definition pair_key_of (c : CandidatePair) : string * string :=
  sorted_pair (lower (term1 c)) (lower (term2 c)).

(** The deduplication loop of [check_terminology] (lines 1163-1169). *)
Definition dedup_step (st : list (string * string) * list CandidatePair)
    (c : CandidatePair) : list (string * string) * list CandidatePair :=
  if pair_mem (pair_key_of c) (fst st) then st
  else (fst st ++ [pair_key_of c], snd st ++ [c]).

Definition deduplicate (all_candidates : list CandidatePair) : list CandidatePair :=
  snd (fold_left dedup_step all_candidates ([], [])).

(** The scoring loop body (lines 1172-1186). *)
Definition score (c : CandidatePair) : CandidatePair :=
  let mods :=
    calculate_confidence_modifiers (term1 c) (term2 c)
      (term1_occurrences c) (term2_occurrences c) (reason c) in
  {| term1 := term1 c; term1_count := term1_count c;
     term2 := term2 c; term2_count := term2_count c;
     reason := reason c;
     term1_occurrences := term1_occurrences c;
     term2_occurrences := term2_occurrences c;
     suggestion := suggestion c;
     base_confidence := get_adjusted_confidence (reason c) 0%float;
     adjusted_confidence := get_adjusted_confidence (reason c) (fst mods);
     modifiers_applied := snd mods |}.

(** The sort key [(c.adjusted_confidence, c.term1_count + c.term2_count)]. *)
Definition rank_key (c : CandidatePair) : float * Z :=
  (adjusted_confidence c, (term1_count c + term2_count c)%Z).

(** The order of Python on such tuples: the first components decide unless
    they are equal. *)
Definition key_lt (k1 k2 : float * Z) : bool :=
  if PrimFloat.eqb (fst k1) (fst k2) then (snd k1 <? snd k2)%Z
  else PrimFloat.ltb (fst k1) (fst k2).

Definition rank_lt (x y : CandidatePair) : bool := key_lt (rank_key x) (rank_key y).

(** [unique_candidates.sort(key=..., reverse=True)] (lines 1189-1192). *)
Definition rank (l : list CandidatePair) : list CandidatePair := sort_desc rank_lt l.

(** The part of the result dictionary that is computed from the text. *)
Record Result : Type := mkResult {
  total_unique_terms : nat;
  total_bigrams_extracted : nat;
  candidates_for_review : list CandidatePair;
  term_counts_top : list (string * Z)
}.

Section Pipeline.

Variable set_list : list string -> list string.

(** The six generators in the order of lines 1150-1160. *)
Definition all_candidates_with (term_counts : Counter) (term_occurrences : OccMap)
    (bigram_counts : Counter) (bigram_occurrences : OccMap)
    (config : TerminologyConfig) : list CandidatePair :=
  find_case_variations term_counts term_occurrences (ignore_terms config)
  ++ find_abbreviations term_counts term_occurrences config
  ++ find_stem_variations_with set_list term_counts term_occurrences (ignore_terms config)
  ++ find_hyphenation_variants term_counts term_occurrences (ignore_terms config)
  ++ find_compound_variants term_counts term_occurrences
                            bigram_counts bigram_occurrences config
  ++ find_levenshtein_similar term_counts term_occurrences (ignore_terms config) 2.

(** [check_terminology] from the extracted tables on (lines 1149-1216). *)
Definition check_tables_with (term_counts : Counter) (term_occurrences : OccMap)
    (bigram_counts : Counter) (bigram_occurrences : OccMap)
    (config : TerminologyConfig) : Result :=
  let all_candidates :=
    all_candidates_with term_counts term_occurrences
                        bigram_counts bigram_occurrences config in
  let unique_candidates := deduplicate all_candidates in
  {| total_unique_terms := length term_counts;
     total_bigrams_extracted := length bigram_counts;
     candidates_for_review := rank (map score unique_candidates);
     term_counts_top := firstn 50 (sort_desc count_lt term_counts) |}.

(** [check_terminology] on the combined text of the files
    (lines 1143-1216). *)
Definition check_content_with (all_content : string) (config : TerminologyConfig)
  : Result :=
  let terms := extract_terms_with_context all_content in
  let bigrams := extract_bigrams_with_context all_content in
  check_tables_with (fst terms) (snd terms) (fst bigrams) (snd bigrams) config.

(** [check_terminology] (lines 1122-1216) on the texts of the markdown
    files found and a loaded configuration: [None] is the error result
    returned when no file is found. *)
Definition check_terminology_with (md_files : list string) (config : TerminologyConfig)
  : option Result :=
  if is_empty md_files then None
  else
    let all_content :=
      fold_left (fun acc f => (acc ++ f ++ String newline "")%string) md_files "" in
    Some (check_content_with all_content config).

End Pipeline.

Definition all_candidates := all_candidates_with (fun l => l).
Definition check_tables := check_tables_with (fun l => l).
Definition check_content := check_content_with (fun l => l).
Definition check_terminology := check_terminology_with (fun l => l).

(** * Specifications *)

(** ** Edit distance, as the specification words it *)

(** One single-character edit: an insertion, a deletion or a substitution
    at any position. *)
Inductive edit_step : list ascii -> list ascii -> Prop :=
| edit_insert : forall p c q, edit_step (p ++ q) (p ++ c :: q)
| edit_delete : forall p c q, edit_step (p ++ c :: q) (p ++ q)
| edit_subst : forall p c d q, edit_step (p ++ c :: q) (p ++ d :: q).

(** [edits n s t]: [n] single-character edits transform [s] into [t]. *)
Inductive edits : nat -> list ascii -> list ascii -> Prop :=
| edits_refl : forall s, edits 0 s s
| edits_step : forall n s t u, edit_step s t -> edits n t u -> edits (S n) s u.

(** [d] is the minimum number of edits that transform [s] into [t]. *)
Definition is_edit_distance (d : nat) (s t : list ascii) : Prop :=
  edits d s t /\ forall n, edits n s t -> d <= n.

(** The cost of aligning two characters. *)
Definition delta (a b : ascii) : nat := if Ascii.eqb a b then 0 else 1.

(** The textbook recurrence on the first characters. *)
Fixpoint lev_rec (s t : list ascii) {struct s} : nat :=
  match s with
  | [] => length t
  | a :: s' =>
      (fix against (t : list ascii) : nat :=
         match t with
         | [] => length s
         | b :: t' =>
             Nat.min (lev_rec s' t + 1)
                     (Nat.min (against t' + 1)
                              (lev_rec s' t' + delta a b))
         end) t
  end.

(** Row [s] of the dynamic-programming table against [t]: column [j] holds
    the distance between [s] and the first [j] characters of [t], both read
    from their last character backwards. *)
Definition table_row (s t : list ascii) : list Z :=
  map (fun j => Z.of_nat (lev_rec (rev s) (rev (firstn j t))))
      (seq 0 (S (length t))).

(** ** Strings *)

(** Every character of [s] satisfies [p]. *)
Fixpoint all_chars (p : ascii -> bool) (s : string) : bool :=
  match s with
  | EmptyString => true
  | String c r => p c && all_chars p r
  end.

(** [s] without its whitespace characters. *)
Fixpoint remove_space (s : string) : string :=
  match s with
  | EmptyString => EmptyString
  | String c r => if is_space c then remove_space r else String c (remove_space r)
  end.

(** [''.join(parts)] *)
Definition join (parts : list string) : string :=
  fold_right String.append EmptyString parts.

(** ** Extracted tables *)

(** A count beside its occurrence list: same key, the count is the number
    of occurrences and there is at least one. *)
Definition counted (kc : string * Z) (ko : string * list TermOccurrence) : Prop :=
  fst kc = fst ko /\ snd kc = Z.of_nat (length (snd ko)) /\ (1 <= snd kc)%Z.

(** What both extractors keep true of their two tables. *)
Definition tables_ok (st : Counter * OccMap) : Prop :=
  Forall2 counted (fst st) (snd st) /\ NoDup (map fst (fst st)).

(** Every recorded occurrence lies on a line of the document. *)
Definition on_a_line (n : nat) (o : TermOccurrence) : Prop :=
  (1 <= line_number o <= Z.of_nat n)%Z.

(** ** Grouping *)

(** The loop shared by three generators: an entry of the table joins the
    group of its key, when it has one. *)
Definition group_step (sel : string * Z -> option string)
    (d : list (string * list (string * Z))) (tc : string * Z)
  : list (string * list (string * Z)) :=
  match sel tc with
  | Some k => group_add k tc d
  | None => d
  end.

(** The entry [tc] has the key [k]. *)
Definition has_key (sel : string * Z -> option string) (k : string)
    (tc : string * Z) : bool :=
  match sel tc with
  | Some k' => String.eqb k' k
  | None => false
  end.

(** The grouping keys of the three generators. *)
Definition case_key (ignore_terms : list string) (tc : string * Z) : option string :=
  if mem (lower (fst tc)) ignore_terms then None else Some (lower (fst tc)).

Definition stem_key (ignore_terms : list string) (tc : string * Z) : option string :=
  if mem (lower (fst tc)) ignore_terms then None
  else if (3 <=? len (simple_stem (lower (fst tc))))%nat
       then Some (simple_stem (lower (fst tc)))
       else None.

Definition hyphen_key (ignore_terms : list string) (tc : string * Z) : option string :=
  if mem (lower (fst tc)) ignore_terms then None
  else if has_char "-" (fst tc) || (6 <? len (fst tc))%nat
       then Some (normalize_compound (fst tc))
       else None.

(** Counts in non-increasing order. *)
Definition count_ge (x y : string * Z) : Prop := (snd y <= snd x)%Z.

(** [e] is the last entry of [table] among those whose term has the
    lowercase form of the term of [e]. *)
Definition last_of_its_case (table : Counter) (e : string * Z) : Prop :=
  exists l1 l2,
    table = l1 ++ e :: l2
    /\ Forall (fun x => lower (fst x) <> lower (fst e)) l2.

(** ** Fenced code blocks *)

(** A line that opens or closes a fenced code block. *)
Definition is_fence (line : string) : bool := startswith (strip line) "```".

(** Line [i] of [lines] is outside every fenced block: it is no fence line
    and an even number of fence lines come before it. *)
Definition outside_fences (lines : list string) (i : nat) : bool :=
  negb (is_fence (nth i lines ""))
  && Nat.even (length (filter is_fence (firstn i lines))).

(** ** Candidate pairs *)

(** Two candidates have the same unordered, case-insensitive pair of terms. *)
Definition same_pair (c d : CandidatePair) : Prop :=
  (lower (term1 c) = lower (term1 d) /\ lower (term2 c) = lower (term2 d))
  \/ (lower (term1 c) = lower (term2 d) /\ lower (term2 c) = lower (term1 d)).

(** The first candidate of [l] that has the key [k]. *)
Definition first_with_key (k : string * string) (l : list CandidatePair)
  : option CandidatePair :=
  find (fun c => pair_eqb (pair_key_of c) k) l.

(** The three kinds of candidates by what they suggest: the first term,
    either term, or nothing. *)
Definition classified (c : CandidatePair) : Prop :=
  (In (reason c) ["case_variation"; "hyphenation_variant"; "compound_variant"]
   /\ suggestion c = Some (term1 c))
  \/ (reason c = "abbreviation"
      /\ (suggestion c = Some (term1 c) \/ suggestion c = Some (term2 c)))
  \/ (In (reason c)
          ["stem_variation"; "levenshtein_distance_1"; "levenshtein_distance_2"]
      /\ suggestion c = None).

(** Both stored occurrence lists hold at most three entries. *)
Definition capped (c : CandidatePair) : Prop :=
  length (term1_occurrences c) <= 3 /\ length (term2_occurrences c) <= 3.

(** The sum of the weights of the named modifiers, added left to right
    from [0.0]. *)
Definition sum_modifiers (names : list string) : float :=
  fold_left (fun acc name => (acc + dict_get CONTEXT_MODIFIERS name 0%float)%float)
            names 0%float.

(** [0.0 <= x <= 1.0] *)
Definition in_unit_interval (x : float) : bool :=
  PrimFloat.leb 0%float x && PrimFloat.leb x 1%float.

(** [clamp(x, 0.0, 1.0)] as [get_adjusted_confidence] writes it. *)
Definition clamp01 (x : float) : float := py_max 0%float (py_min 1%float x).

(** The base confidences: the table and the default. *)
Definition base_values : list float := map snd CONFIDENCE_SCORES ++ [0.50%float].

(** The base confidence of a reason, as [get_adjusted_confidence] looks it
    up. *)
Definition base_of (why : string) : float :=
  dict_get CONFIDENCE_SCORES (base_reason_of why) 0.50%float.

(** The clamped sum lies in the unit interval whatever the base. *)
Definition bounded_for_all_bases (modifier : float) : bool :=
  forallb (fun b => in_unit_interval (clamp01 (b + modifier)%float)) base_values.

(** Neither frequency modifier is among [names]. *)
Definition frequency_free (names : list string) : bool :=
  negb (mem "frequency_imbalance_high" names)
  && negb (mem "frequency_imbalance_moderate" names).

(** The clamped sum is a number, equal to itself, whatever the base. *)
Definition number_for_all_bases (modifier : float) : bool :=
  forallb (fun b => PrimFloat.eqb (clamp01 (b + modifier)%float)
                                  (clamp01 (b + modifier)%float))
          base_values.

(** The scored candidates in merge order: the list that the final sort of
    [check_terminology] receives. *)
Definition scored_candidates_with (set_list : list string -> list string)
    (term_counts : Counter) (term_occurrences : OccMap)
    (bigram_counts : Counter) (bigram_occurrences : OccMap)
    (config : TerminologyConfig) : list CandidatePair :=
  map score
      (deduplicate
         (all_candidates_with set_list term_counts term_occurrences
                              bigram_counts bigram_occurrences config)).

(** The result of [calculate_confidence_modifiers] as a function of the
    outcomes of its tests, in the order in which the source makes them. *)
Definition modifiers_of (no_data sec par lines dist counts high moderate
                         lev short both one : bool) : float * list string :=
  if no_data then (0%float, [])
  else
    let st := (0%float, @nil string) in
    let st :=
      if sec then
        let st := apply_modifier "same_section" st in
        if par then apply_modifier "same_paragraph" st else st
      else st in
    let st :=
      if lines then
        if dist then apply_modifier "distant_sections" st else st
      else st in
    let st :=
      if counts then
        if high then apply_modifier "frequency_imbalance_high" st
        else if moderate then apply_modifier "frequency_imbalance_moderate" st
        else st
      else st in
    let st :=
      if lev then
        if short then apply_modifier "short_term_levenshtein" st else st
      else st in
    if both then apply_modifier "both_terms_in_code" st
    else if one then apply_modifier "one_term_in_code" st
    else st.

(** [x] occurs at an earlier position than [y] in [l]. *)
Definition before {A : Type} (l : list A) (x y : A) : Prop :=
  exists l1 l2 l3, l = l1 ++ x :: l2 ++ y :: l3.

(** An enumeration order for sets: it lists the given distinct elements,
    each once, in some order. *)
Definition enumerates (set_list : list string -> list string) : Prop :=
  forall l, Permutation (set_list l) l.

(** * Properties *)

(** ** Scenarios *)

(** C4: the term table {"sub-agent": 3, "subagent": 2} with an empty bigram
    table and the default configuration gives exactly one candidate, the
    hyphenation variant with suggestion "sub-agent"; the Levenshtein
    generator flags the same pair at distance 1 and loses at the merge. *)
Theorem scenario_hyphenation_wins :
  forall term_occurrences : OccMap,
    let term_counts := [("sub-agent", 3%Z); ("subagent", 2%Z)] in
    let o1 := occurrences_of term_occurrences "sub-agent" in
    let o2 := occurrences_of term_occurrences "subagent" in
    let h := candidate "sub-agent" 3 o1 "subagent" 2 o2
                       "hyphenation_variant" (Some "sub-agent") in
    let v := candidate "sub-agent" 3 o1 "subagent" 2 o2
                       "levenshtein_distance_1" None in
    all_candidates term_counts term_occurrences [] [] default_config = [h; v]
    /\ pair_key_of h = pair_key_of v
    /\ candidates_for_review
         (check_tables term_counts term_occurrences [] [] default_config) = [score h]
    /\ reason (score h) = "hyphenation_variant"
    /\ suggestion (score h) = Some "sub-agent".
Proof.
  intros occ tc o1 o2 h v.
  assert (Hall : all_candidates tc occ [] [] default_config = [h; v])
    by (vm_compute; reflexivity).
  split; [ exact Hall | ].
  split; [ reflexivity | ].
  split; [ | split; reflexivity ].
  unfold check_tables, check_tables_with. cbn [candidates_for_review].
  fold (all_candidates tc occ [] [] default_config). rewrite Hall.
  reflexivity.
Qed.
(** C8: a term table holding exactly "file" (5) and "files" (3) gives no
    stem-variation candidate, in either insertion order: both terms have
    the stem "file" and differ by a final "s". *)
Theorem scenario_plural_excluded :
  forall term_occurrences : OccMap,
    find_stem_variations [("file", 5%Z); ("files", 3%Z)] term_occurrences [] = []
    /\ find_stem_variations [("files", 3%Z); ("file", 5%Z)] term_occurrences [] = []
    /\ simple_stem "file" = "file" /\ simple_stem "files" = "file".
Proof.
  intros occ. repeat split; vm_compute; reflexivity.
Qed.

(** C10: on the empty document both extractors return empty tables, and
    every generator applied to empty tables with the default configuration
    returns no candidate; the run on one empty file returns a result with
    no candidate. *)
Theorem empty_document :
  extract_terms_with_context "" = ([], [])
  /\ extract_bigrams_with_context "" = ([], [])
  /\ find_case_variations [] [] (ignore_terms default_config) = []
  /\ find_abbreviations [] [] default_config = []
  /\ find_stem_variations [] [] (ignore_terms default_config) = []
  /\ find_hyphenation_variants [] [] (ignore_terms default_config) = []
  /\ find_compound_variants [] [] [] [] default_config = []
  /\ find_levenshtein_similar [] [] (ignore_terms default_config) 2 = []
  /\ candidates_for_review (check_content "" default_config) = []
  /\ check_terminology [""] default_config
     = Some {| total_unique_terms := 0; total_bigrams_extracted := 0;
               candidates_for_review := []; term_counts_top := [] |}.
Proof.
  repeat split; vm_compute; reflexivity.
Qed.

(** C1 at the input of its example: for the bigram "file path" and the
    term "filepath", whatever their counts and occurrences,
    [find_compound_variants] returns no candidate, although the bigram
    passes the length test, has the normal form of the term and splits
    into two words that concatenate to it.  A document that contains both
    forms gives such tables. *)
Theorem compound_file_path_not_emitted :
  forall (bigram_count term_count : Z) (term_occurrences bigram_occurrences : OccMap),
    len (normalize_compound "file path") = 8
    /\ normalize_compound "file path" = normalize_compound "filepath"
    /\ split_ws (lower "file path") = ["file"; "path"]
    /\ find_compound_variants [("filepath", term_count)] term_occurrences
                              [("file path", bigram_count)] bigram_occurrences
                              default_config = []
    /\ (let content := "Open the file path here. The filepath is there." in
        let terms := extract_terms_with_context content in
        let bigrams := extract_bigrams_with_context content in
        dict_find (fst terms) "filepath" = Some 1%Z
        /\ dict_find (fst bigrams) "file path" = Some 1%Z
        /\ find_compound_variants (fst terms) (snd terms) (fst bigrams) (snd bigrams)
                                  default_config = []).
Proof.
  intros. repeat split; vm_compute; reflexivity.
Qed.

(** ** The stemmer *)

Lemma len_app : forall p q, len (p ++ q) = len p + len q.
Proof. unfold len. induction p; simpl; intros; auto. Qed.

Lemma len_lower : forall s, len (lower s) = len s.
Proof. unfold len. induction s; simpl; auto. Qed.

Lemma substring_app_left : forall p q, substring 0 (len p) (p ++ q) = p.
Proof. unfold len. induction p; simpl; intros. - destruct q; reflexivity. - now rewrite IHp. Qed.

Lemma substring_app_right : forall p q, substring (len p) (len q) (p ++ q) = q.
Proof.
  unfold len. induction p; simpl; intros.
  - induction q; simpl; auto. now rewrite IHq.
  - apply IHp.
Qed.

Lemma drop_last_app : forall p suf, drop_last (len suf) (p ++ suf) = p.
Proof.
  intros. unfold drop_last, take. rewrite len_app.
  replace (len p + len suf - len suf) with (len p) by lia.
  apply substring_app_left.
Qed.

Lemma endswith_app : forall p suf suf',
    len suf' = len suf -> endswith (p ++ suf) suf' = String.eqb suf suf'.
Proof.
  intros. unfold endswith, drop. rewrite len_app, H.
  replace (len p + len suf - len suf) with (len p) by lia.
  replace (len p + len suf - len p) with (len suf) by lia.
  rewrite substring_app_right.
  replace (len suf <=? len p + len suf)%nat with true by (symmetry; apply Nat.leb_le; lia).
  reflexivity.
Qed.

(** C6, amended: for every word of more than four characters whose
    lowercased form ends in "ied" or in "ies", [simple_stem] returns the
    lowercased word with that ending replaced by "y". *)
Theorem stem_ied_ies : forall word p,
    lower word = (p ++ "ied")%string \/ lower word = (p ++ "ies")%string ->
    4 < len word ->
    simple_stem word = (p ++ "y")%string.
Proof.
  intros word p H Hlen.
  assert (Hl : (4 <? len (lower word))%nat = true)
    by (rewrite len_lower; now apply Nat.ltb_lt).
  unfold simple_stem; cbv zeta.
  destruct H as [H | H]; rewrite H in *.
  - rewrite (endswith_app p "ied" "ing") by reflexivity.
    rewrite (endswith_app p "ied" "ied") by reflexivity.
    rewrite Hl.
    change (drop_last 3 (p ++ "ied")) with (drop_last (len "ied") (p ++ "ied")).
    now rewrite drop_last_app.
  - rewrite (endswith_app p "ies" "ing") by reflexivity.
    rewrite (endswith_app p "ies" "ied") by reflexivity.
    rewrite (endswith_app p "ies" "ies") by reflexivity.
    rewrite Hl.
    change (drop_last 3 (p ++ "ies")) with (drop_last (len "ies") (p ++ "ies")).
    now rewrite drop_last_app.
Qed.

Lemma stem_ied_ies_witness :
  (lower "Modified" = ("modif" ++ "ied")%string \/ lower "Modified" = ("modif" ++ "ies")%string)
  /\ 4 < len "Modified"
  /\ simple_stem "Modified" = ("modif" ++ "y")%string.
Proof.
  split; [ left; reflexivity | ].
  split; [ vm_compute; lia | ].
  apply (stem_ied_ies "Modified" "modif"); [ left; reflexivity | vm_compute; lia ].
Defined.

(** C6 as stated fails on four-letter words: "died" is returned unchanged
    and "ties" loses only its final "s". *)
Lemma stem_ied_ies_short_counterexample :
  (lower "died" = ("d" ++ "ied")%string /\ simple_stem "died" <> ("d" ++ "y")%string)
  /\ (lower "ties" = ("t" ++ "ies")%string /\ simple_stem "ties" <> ("t" ++ "y")%string).
Proof.
  repeat split; try reflexivity; vm_compute; discriminate.
Qed.

(** ** The bigram loop of the compound generator *)

Lemma append_assoc : forall a b c : string, ((a ++ b) ++ c = a ++ (b ++ c))%string.
Proof. induction a; simpl; intros; [ reflexivity | now rewrite IHa ]. Qed.

Lemma append_nil_r : forall a : string, (a ++ "")%string = a.
Proof. induction a; simpl; [ reflexivity | now rewrite IHa ]. Qed.

Lemma len_zero : forall s, (len s =? 0)%nat = true -> s = "".
Proof. intros [|c s] H; [ reflexivity | discriminate ]. Qed.

(** The words of [s.split()] put together are [s] without its whitespace. *)
Lemma split_ws_aux_join : forall s cur,
    join (split_ws_aux cur s) = (cur ++ remove_space s)%string.
Proof.
  induction s as [|c s IH]; intros cur; simpl.
  - destruct (len cur =? 0)%nat eqn:E; simpl.
    + now rewrite (len_zero _ E).
    + reflexivity.
  - destruct (is_space c).
    + unfold join in *. rewrite fold_right_app. fold (join (split_ws_aux "" s)).
      unfold join in IH. rewrite IH. simpl.
      destruct (len cur =? 0)%nat eqn:E; simpl.
      * now rewrite (len_zero _ E).
      * reflexivity.
    + rewrite IH, append_assoc. reflexivity.
Qed.

Lemma split_ws_join : forall s, join (split_ws s) = remove_space s.
Proof. intros s. unfold split_ws. now rewrite split_ws_aux_join. Qed.

Lemma remove_space_clean : forall s,
    all_chars (fun c => negb (is_space c)) (remove_space s) = true.
Proof.
  induction s as [|c s IH]; simpl; [ reflexivity | ].
  destruct (is_space c) eqn:E; simpl; [ exact IH | now rewrite E ].
Qed.

Lemma remove_char_clean : forall p c s,
    all_chars p s = true -> all_chars p (remove_char c s) = true.
Proof.
  intros p c s. induction s as [|d s IH]; simpl; [ reflexivity | ].
  intros H. apply andb_true_iff in H. destruct H as [H1 H2].
  destruct (Ascii.eqb d c); simpl; [ now apply IH | ].
  now rewrite H1, IH.
Qed.

(** When the text left by [normalize_compound] holds no whitespace, the
    only whitespace of the original is the blank. *)
Lemma remove_space_is_remove_blank : forall s,
    all_chars (fun c => negb (is_space c)) (remove_char " " (remove_char "-" s)) = true ->
    remove_space s = remove_char " " s.
Proof.
  induction s as [|d s IH]; simpl; [ reflexivity | ].
  destruct (Ascii.eqb d "-") eqn:Ed.
  - apply Ascii.eqb_eq in Ed. subst d. simpl. intros H. now rewrite IH.
  - simpl. destruct (Ascii.eqb d " ") eqn:Es.
    + apply Ascii.eqb_eq in Es. subst d. simpl. exact IH.
    + simpl. intros H. apply andb_true_iff in H. destruct H as [H1 H2].
      apply negb_true_iff in H1. rewrite H1. now rewrite IH.
Qed.

(** The two tests of lines 1053 and 1060 exclude each other. *)
Lemma compound_tests_exclusive : forall bigram term,
    normalize_compound term = normalize_compound bigram ->
    length (split_ws (lower bigram)) = 2 ->
    (nth 0 (split_ws (lower bigram)) "" ++ nth 1 (split_ws (lower bigram)) "")%string
    = lower term ->
    lower term = remove_char " " (lower bigram).
Proof.
  intros bigram term Hn Hlen Hcat.
  assert (Hj : join (split_ws (lower bigram)) = lower term).
  { destruct (split_ws (lower bigram)) as [|p0 [|p1 [|p2 parts]]]; try discriminate.
    simpl in *. now rewrite append_nil_r. }
  rewrite split_ws_join in Hj.
  rewrite <- Hj. apply remove_space_is_remove_blank.
  unfold normalize_compound in Hn. rewrite <- Hn, <- Hj.
  apply remove_char_clean, remove_char_clean, remove_space_clean.
Qed.

Lemma compound_bigram_term_step_idle : forall tocc bocc bigram count st tc,
    compound_bigram_term_step tocc bocc bigram count (normalize_compound bigram) st tc
    = st.
Proof.
  intros tocc bocc bigram count st [term term_count].
  unfold compound_bigram_term_step. cbv zeta. cbn [fst snd].
  destruct (String.eqb (normalize_compound term) (normalize_compound bigram)) eqn:En;
    [ | reflexivity ].
  destruct (String.eqb (lower term) (remove_char " " (lower bigram))) eqn:Ed;
    [ reflexivity | ].
  cbn [andb negb].
  destruct (pair_mem _ (snd st)); [ reflexivity | ].
  destruct (length (split_ws (lower bigram)) =? 2)%nat eqn:El; [ | reflexivity ].
  destruct (String.eqb _ (lower term)) eqn:Ec; [ | reflexivity ].
  exfalso. apply String.eqb_eq in En, Ec. apply Nat.eqb_eq in El.
  apply String.eqb_neq in Ed. apply Ed.
  now apply compound_tests_exclusive.
Qed.

Lemma fold_left_idle : forall (S X : Type) (f : S -> X -> S) (l : list X) (st : S),
    (forall st x, f st x = st) -> fold_left f l st = st.
Proof.
  intros S X f l. induction l as [|x l IH]; intros st H; simpl; [ reflexivity | ].
  now rewrite H, IH.
Qed.

Lemma compound_bigram_step_idle : forall tc tocc bocc st bc,
    compound_bigram_step tc tocc bocc st bc = st.
Proof.
  intros tc tocc bocc st bc. unfold compound_bigram_step. cbv zeta.
  destruct (len (normalize_compound (fst bc)) <? 6)%nat; [ reflexivity | ].
  apply fold_left_idle. intros. apply compound_bigram_term_step_idle.
Qed.

(** The loop over the bigrams (lines 1047-1074) adds no candidate: the
    generator returns what the configured equivalence sets give, and
    nothing under a configuration without such sets. *)
Lemma compound_bigram_loop_idle : forall tc tocc bc bocc cfg,
    find_compound_variants tc tocc bc bocc cfg
    = fst (fold_left (compound_equivalents_step tc tocc bc bocc)
                     (compound_equivalents cfg) ([], []))
    /\ (compound_equivalents cfg = [] ->
        find_compound_variants tc tocc bc bocc cfg = []).
Proof.
  intros tc tocc bc bocc cfg.
  assert (E : find_compound_variants tc tocc bc bocc cfg
              = fst (fold_left (compound_equivalents_step tc tocc bc bocc)
                               (compound_equivalents cfg) ([], []))).
  { unfold find_compound_variants. cbv zeta.
    rewrite fold_left_idle; [ reflexivity | ].
    intros. apply compound_bigram_step_idle. }
  split; [ exact E | ].
  intros H. rewrite E, H. reflexivity.
Qed.

(** ** Edit distance *)

(** *** The recurrence *)

Lemma lev_rec_nil_r : forall s, lev_rec s [] = length s.
Proof. destruct s; reflexivity. Qed.

Lemma lev_rec_cons : forall a s b t,
    lev_rec (a :: s) (b :: t)
    = Nat.min (lev_rec s (b :: t) + 1)
              (Nat.min (lev_rec (a :: s) t + 1) (lev_rec s t + delta a b)).
Proof. reflexivity. Qed.

Lemma lev_rec_refl : forall s, lev_rec s s = 0.
Proof.
  induction s as [|a s IH]; [ reflexivity | ].
  rewrite lev_rec_cons, IH. unfold delta. rewrite Ascii.eqb_refl. lia.
Qed.

Lemma lev_rec_drop_left : forall a s t, lev_rec (a :: s) t <= lev_rec s t + 1.
Proof.
  intros a s [|b t].
  - rewrite !lev_rec_nil_r. simpl. lia.
  - rewrite lev_rec_cons. lia.
Qed.

Lemma lev_rec_drop_right : forall s b t, lev_rec s (b :: t) <= lev_rec s t + 1.
Proof.
  intros [|a s] b t.
  - simpl. lia.
  - rewrite lev_rec_cons. lia.
Qed.

Lemma lev_rec_sym : forall s t, lev_rec s t = lev_rec t s.
Proof.
  induction s as [|a s IHs]; intros t.
  - now rewrite lev_rec_nil_r.
  - induction t as [|b t IHt].
    + now rewrite lev_rec_nil_r.
    + rewrite !lev_rec_cons, IHt, (IHs (b :: t)), (IHs t).
      unfold delta. rewrite (Ascii.eqb_sym a b). lia.
Qed.

(** One edit of the first string moves the recurrence by at most one. *)
Lemma lev_rec_edit_left : forall p c d q t,
    lev_rec (p ++ q) t <= lev_rec (p ++ c :: q) t + 1
    /\ lev_rec (p ++ c :: q) t <= lev_rec (p ++ q) t + 1
    /\ lev_rec (p ++ d :: q) t <= lev_rec (p ++ c :: q) t + 1.
Proof.
  induction p as [|a p IHp]; intros c d q t; simpl app.
  - induction t as [|b t IHt].
    + rewrite !lev_rec_nil_r. simpl. lia.
    + rewrite !lev_rec_cons.
      pose proof (lev_rec_drop_right q b t).
      unfold delta. destruct (Ascii.eqb c b), (Ascii.eqb d b); lia.
  - induction t as [|b t IHt].
    + rewrite !lev_rec_nil_r. simpl. rewrite !length_app. simpl. lia.
    + rewrite !lev_rec_cons.
      pose proof (IHp c d q (b :: t)).
      pose proof (IHp c d q t).
      lia.
Qed.

(** *** Edit scripts *)

Lemma edit_step_lev : forall s t u,
    edit_step s t -> lev_rec s u <= lev_rec t u + 1.
Proof.
  intros s t u H. destruct H as [p c q | p c q | p c d q].
  - pose proof (lev_rec_edit_left p c c q u). lia.
  - pose proof (lev_rec_edit_left p c c q u). lia.
  - pose proof (lev_rec_edit_left p d c q u). lia.
Qed.

Lemma edits_lower_bound : forall n s t, edits n s t -> lev_rec s t <= n.
Proof.
  induction 1 as [s | n s t u Hst _ IH].
  - rewrite lev_rec_refl. lia.
  - pose proof (edit_step_lev s t u Hst). lia.
Qed.

Lemma edit_step_cons : forall a s t, edit_step s t -> edit_step (a :: s) (a :: t).
Proof.
  intros a s t H. destruct H as [p c q | p c q | p c d q].
  - apply (edit_insert (a :: p)).
  - apply (edit_delete (a :: p)).
  - apply (edit_subst (a :: p)).
Qed.

Lemma edits_cons : forall a n s t, edits n s t -> edits n (a :: s) (a :: t).
Proof.
  induction 1; econstructor; eauto using edit_step_cons.
Qed.

Lemma edits_from_nil : forall t, edits (length t) [] t.
Proof.
  induction t as [|b t IH]; simpl.
  - constructor.
  - apply edits_step with (t := [b]).
    + apply (edit_insert [] b []).
    + now apply edits_cons.
Qed.

Lemma edits_to_nil : forall s, edits (length s) s [].
Proof.
  induction s as [|a s IH]; simpl.
  - constructor.
  - apply edits_step with (t := s); [ apply (edit_delete [] a s) | exact IH ].
Qed.

(** The recurrence is reached by an edit script. *)
Lemma edits_lev_rec : forall s t, edits (lev_rec s t) s t.
Proof.
  induction s as [|a s IHs]; intros t.
  - apply edits_from_nil.
  - induction t as [|b t IHt].
    + rewrite lev_rec_nil_r. apply edits_to_nil.
    + rewrite lev_rec_cons.
      destruct (Nat.min_dec (lev_rec s (b :: t) + 1)
                  (Nat.min (lev_rec (a :: s) t + 1) (lev_rec s t + delta a b)))
        as [E | E]; rewrite E; clear E.
      * rewrite Nat.add_1_r.
        apply edits_step with (t := s); [ apply (edit_delete [] a s) | apply IHs ].
      * destruct (Nat.min_dec (lev_rec (a :: s) t + 1) (lev_rec s t + delta a b))
          as [E | E]; rewrite E; clear E.
        -- rewrite Nat.add_1_r.
           apply edits_step with (t := b :: a :: s).
           ++ apply (edit_insert [] b (a :: s)).
           ++ now apply edits_cons.
        -- unfold delta. destruct (Ascii.eqb a b) eqn:Eab.
           ++ apply Ascii.eqb_eq in Eab. subst b.
              rewrite Nat.add_0_r. apply edits_cons, IHs.
           ++ rewrite Nat.add_1_r.
              apply edits_step with (t := b :: s).
              ** apply (edit_subst [] a b s).
              ** apply edits_cons, IHs.
Qed.

(** The recurrence is the minimum number of edits. *)
Lemma lev_rec_is_edit_distance : forall s t, is_edit_distance (lev_rec s t) s t.
Proof.
  intros s t. split.
  - apply edits_lev_rec.
  - intros n H. now apply edits_lower_bound.
Qed.

Lemma edit_step_rev : forall s t, edit_step s t -> edit_step (rev s) (rev t).
Proof.
  intros s t H. destruct H as [p c q | p c q | p c d q];
    rewrite ?rev_app_distr; simpl rev; rewrite ?rev_app_distr;
    rewrite <- ?app_assoc; simpl app; constructor.
Qed.

Lemma edits_rev : forall n s t, edits n s t -> edits n (rev s) (rev t).
Proof.
  induction 1; econstructor; eauto using edit_step_rev.
Qed.

Lemma lev_rec_rev : forall s t, lev_rec (rev s) (rev t) = lev_rec s t.
Proof.
  intros s t. apply Nat.le_antisymm.
  - apply edits_lower_bound, edits_rev, edits_lev_rec.
  - rewrite <- (rev_involutive s), <- (rev_involutive t) at 1.
    apply edits_lower_bound, edits_rev, edits_lev_rec.
Qed.

(** *** The rolling row *)

Lemma table_row_length : forall s t, length (table_row s t) = S (length t).
Proof. intros. unfold table_row. now rewrite length_map, length_seq. Qed.

Lemma table_row_nth : forall s t j,
    j <= length t ->
    nth j (table_row s t) 0%Z = Z.of_nat (lev_rec (rev s) (rev (firstn j t))).
Proof.
  intros s t j Hj. unfold table_row.
  rewrite (nth_indep _ 0%Z (Z.of_nat (lev_rec (rev s) (rev (firstn 0 t)))))
    by (rewrite length_map, length_seq; lia).
  rewrite (map_nth (fun j => Z.of_nat (lev_rec (rev s) (rev (firstn j t))))).
  rewrite seq_nth by lia. reflexivity.
Qed.

Lemma table_row_snoc : forall s t c,
    table_row s (t ++ [c])
    = table_row s t ++ [Z.of_nat (lev_rec (rev s) (rev (t ++ [c])))].
Proof.
  intros s t c. unfold table_row.
  rewrite length_app. simpl length. rewrite Nat.add_1_r.
  rewrite (seq_S (S (length t))), map_app. cbn [map]. f_equal.
  - apply map_ext_in. intros j Hj. apply in_seq in Hj.
    rewrite firstn_app. replace (j - length t) with 0 by lia.
    simpl firstn. now rewrite app_nil_r.
  - simpl plus. rewrite <- (Nat.add_1_r (length t)).
    replace (length t + 1) with (length (t ++ [c])) by (rewrite length_app; reflexivity).
    now rewrite firstn_all.
Qed.

Lemma table_row_first : forall t,
    table_row [] t = map Z.of_nat (seq 0 (length t + 1)).
Proof.
  intros t. unfold table_row. rewrite Nat.add_1_r.
  apply map_ext_in. intros j Hj. apply in_seq in Hj.
  simpl rev. simpl lev_rec. rewrite length_rev, firstn_length_le by lia.
  reflexivity.
Qed.

(** The cell computed by the loop body is the next cell of the table. *)
Lemma row_cell_table : forall c1 s pre c2 l,
    row_cell c1 (table_row s (pre ++ c2 :: l)) (table_row (s ++ [c1]) pre)
             (length pre) c2
    = table_row (s ++ [c1]) (pre ++ [c2]).
Proof.
  intros c1 s pre c2 l. unfold row_cell.
  rewrite table_row_snoc. f_equal. f_equal.
  rewrite !table_row_nth by (rewrite ?length_app; simpl; lia).
  rewrite !firstn_app, firstn_all.
  replace (length pre + 1 - length pre) with 1 by lia.
  replace (length pre - length pre) with 0 by lia.
  rewrite (firstn_all2 (n := length pre + 1)) by lia.
  simpl firstn. rewrite app_nil_r.
  rewrite !rev_unit, lev_rec_cons.
  unfold delta. destruct (Ascii.eqb c1 c2); lia.
Qed.

(** The inner loop, from any column on. *)
Lemma inner_loop_table : forall c1 s l pre,
    fold_left
      (fun current_row jc =>
         row_cell c1 (table_row s (pre ++ l)) current_row (fst jc) (snd jc))
      (combine (seq (length pre) (length l)) l)
      (table_row (s ++ [c1]) pre)
    = table_row (s ++ [c1]) (pre ++ l).
Proof.
  intros c1 s l. induction l as [|c2 l IH]; intros pre.
  - now rewrite app_nil_r.
  - simpl. rewrite row_cell_table.
    replace (pre ++ c2 :: l) with ((pre ++ [c2]) ++ l)
      by (rewrite <- app_assoc; reflexivity).
    replace (S (length pre)) with (length (pre ++ [c2]))
      by (rewrite length_app; simpl; lia).
    apply IH.
Qed.

Lemma next_row_table : forall s t c1,
    next_row t (table_row s t) (length s) c1 = table_row (s ++ [c1]) t.
Proof.
  intros s t c1. unfold next_row, enumerate.
  replace [(Z.of_nat (length s) + 1)%Z] with (table_row (s ++ [c1]) []).
  - exact (inner_loop_table c1 s t []).
  - unfold table_row. simpl. rewrite lev_rec_nil_r, length_rev, length_app.
    simpl. f_equal. lia.
Qed.

(** The outer loop, from any row on. *)
Lemma outer_loop_table : forall t l pre,
    fold_left (fun previous_row ic => next_row t previous_row (fst ic) (snd ic))
              (combine (seq (length pre) (length l)) l)
              (table_row pre t)
    = table_row (pre ++ l) t.
Proof.
  intros t l. induction l as [|c1 l IH]; intros pre.
  - now rewrite app_nil_r.
  - simpl. rewrite next_row_table.
    replace (pre ++ c1 :: l) with ((pre ++ [c1]) ++ l)
      by (rewrite <- app_assoc; reflexivity).
    replace (S (length pre)) with (length (pre ++ [c1]))
      by (rewrite length_app; simpl; lia).
    apply IH.
Qed.

Lemma levenshtein_rows_table : forall s1 s2,
    levenshtein_rows s1 s2 = table_row s1 s2.
Proof.
  intros s1 s2. unfold levenshtein_rows, enumerate.
  rewrite <- table_row_first. exact (outer_loop_table s2 s1 []).
Qed.

Lemma table_row_last : forall s t,
    last (table_row s t) 0%Z = Z.of_nat (lev_rec s t).
Proof.
  intros s t. unfold table_row. rewrite seq_S, map_app. cbn [map].
  rewrite last_last. simpl plus. now rewrite firstn_all, lev_rec_rev.
Qed.

Lemma length_chars : forall s, length (chars s) = len s.
Proof. unfold chars, len. induction s; simpl; auto. Qed.

Lemma levenshtein_body_rec : forall s1 s2,
    levenshtein_body s1 s2 = Z.of_nat (lev_rec (chars s1) (chars s2)).
Proof.
  intros s1 s2. unfold levenshtein_body.
  destruct (len s2 =? 0)%nat eqn:E.
  - apply Nat.eqb_eq in E. destruct s2; [ | discriminate ].
    simpl chars. now rewrite lev_rec_nil_r, length_chars.
  - now rewrite levenshtein_rows_table, table_row_last.
Qed.

Lemma levenshtein_distance_rec : forall s1 s2,
    levenshtein_distance s1 s2 = Z.of_nat (lev_rec (chars s1) (chars s2)).
Proof.
  intros s1 s2. unfold levenshtein_distance.
  destruct (len s1 <? len s2)%nat.
  - now rewrite levenshtein_body_rec, lev_rec_sym.
  - apply levenshtein_body_rec.
Qed.

(** C9: the rolling-row [levenshtein_distance] is the textbook edit
    distance, the minimum number of single-character insertions, deletions
    and substitutions that transform the first string into the second; it
    is symmetric and returns the length of the other string when one string
    is empty. *)
Theorem levenshtein_distance_is_edit_distance :
  forall s1 s2 : string,
    levenshtein_distance s1 s2 = Z.of_nat (lev_rec (chars s1) (chars s2))
    /\ is_edit_distance (Z.to_nat (levenshtein_distance s1 s2)) (chars s1) (chars s2)
    /\ levenshtein_distance s1 s2 = levenshtein_distance s2 s1
    /\ levenshtein_distance s1 "" = Z.of_nat (len s1)
    /\ levenshtein_distance "" s2 = Z.of_nat (len s2).
Proof.
  intros s1 s2. rewrite !levenshtein_distance_rec. repeat split.
  - rewrite Nat2Z.id. apply edits_lev_rec.
  - intros n H. rewrite Nat2Z.id. now apply edits_lower_bound.
  - now rewrite lev_rec_sym.
  - simpl chars. now rewrite lev_rec_nil_r, length_chars.
  - simpl chars. simpl lev_rec. now rewrite length_chars.
Qed.

(** ** Sorting *)

Section SortDesc.

Context {A : Type} (lt : A -> A -> bool).

Lemma insert_desc_perm : forall x l, Permutation (insert_desc lt x l) (x :: l).
Proof.
  intros x l. induction l as [|y l IH]; simpl.
  - apply Permutation_refl.
  - destruct (lt x y).
    + eapply perm_trans; [ apply perm_skip, IH | apply perm_swap ].
    + apply Permutation_refl.
Qed.

Lemma sort_desc_perm : forall l, Permutation (sort_desc lt l) l.
Proof.
  induction l as [|x l IH]; simpl.
  - apply perm_nil.
  - eapply perm_trans; [ apply insert_desc_perm | now apply perm_skip ].
Qed.

(** The inserted element goes behind a prefix of elements above it. *)
Lemma insert_desc_split : forall x l,
    exists l1 l2,
      l = l1 ++ l2 /\ insert_desc lt x l = l1 ++ x :: l2
      /\ Forall (fun y => lt x y = true) l1.
Proof.
  intros x l. induction l as [|y l [l1 [l2 [E1 [E2 F]]]]]; simpl.
  - exists [], []. repeat split. constructor.
  - destruct (lt x y) eqn:Hy.
    + exists (y :: l1), l2. rewrite E2, E1. repeat split. now constructor.
    + exists [], (y :: l). repeat split. constructor.
Qed.

Lemma before_cons : forall (l : list A) z x y, before l x y -> before (z :: l) x y.
Proof.
  intros l z x y [l1 [l2 [l3 E]]]. exists (z :: l1), l2, l3. now rewrite E.
Qed.

Lemma before_head : forall (l : list A) x y, In y l -> before (x :: l) x y.
Proof.
  intros l x y H. destruct (in_split _ _ H) as [m1 [m2 E]].
  exists [], m1, m2. now rewrite E.
Qed.

Lemma before_cons_inv : forall (l : list A) a x y,
    before (a :: l) x y -> (x = a /\ In y l) \/ before l x y.
Proof.
  intros l a x y [l1 [l2 [l3 E]]]. destruct l1 as [|w l1]; simpl in E.
  - injection E as E1 E2. left. split; [ now symmetry | ].
    rewrite E2. apply in_or_app. right. now left.
  - injection E as E1 E2. right. now exists l1, l2, l3.
Qed.

(** Order in a list with one element put in the middle. *)
Lemma before_app_mid : forall (l1 l2 : list A) a x y,
    before (l1 ++ a :: l2) x y ->
    before (l1 ++ l2) x y \/ (x = a /\ In y l2) \/ (y = a /\ In x l1).
Proof.
  induction l1 as [|w l1 IH]; intros l2 a x y H; simpl in *.
  - destruct (before_cons_inv _ _ _ _ H) as [[E Hy] | Hb]; auto.
  - destruct (before_cons_inv _ _ _ _ H) as [[E Hy] | Hb].
    + subst x. apply in_app_or in Hy. destruct Hy as [Hy | [Hy | Hy]].
      * left. apply before_head. apply in_or_app. now left.
      * right. right. split; [ now symmetry | now left ].
      * left. apply before_head. apply in_or_app. now right.
    + destruct (IH _ _ _ _ Hb) as [H1 | [[H1 H2] | [H1 H2]]].
      * left. now apply before_cons.
      * right. left. now split.
      * right. right. split; [ exact H1 | now right ].
Qed.

(** Stability: when [x] precedes [y] in the sorted list although the key
    of [y] is not below the key of [x], [x] preceded [y] in the input. *)
Lemma sort_desc_stable : forall l x y,
    before (sort_desc lt l) x y -> lt y x = false -> before l x y.
Proof.
  induction l as [|a l IH]; intros x y Hb Hyx; simpl in Hb.
  - destruct Hb as [l1 [l2 [l3 E]]]. destruct l1; discriminate.
  - destruct (insert_desc_split a (sort_desc lt l)) as [l1 [l2 [E1 [E2 F]]]].
    rewrite E2 in Hb.
    destruct (before_app_mid _ _ _ _ _ Hb) as [H | [[H1 H2] | [H1 H2]]].
    + apply before_cons, IH; [ now rewrite E1 | exact Hyx ].
    + subst x. apply before_head.
      apply (Permutation_in _ (sort_desc_perm l)).
      rewrite E1. apply in_or_app. now right.
    + subst y. rewrite Forall_forall in F. rewrite (F x H2) in Hyx. discriminate.
Qed.

End SortDesc.

(** ** Deduplication *)

Lemma pair_eqb_eq : forall p q, pair_eqb p q = true <-> p = q.
Proof.
  intros [a b] [c d]. unfold pair_eqb. simpl.
  rewrite andb_true_iff, !String.eqb_eq. split.
  - intros [-> ->]. reflexivity.
  - intros E. injection E as -> ->. now split.
Qed.

Lemma pair_mem_in : forall p seen, pair_mem p seen = true <-> In p seen.
Proof.
  intros p seen. unfold pair_mem. rewrite existsb_exists. split.
  - intros [q [Hq E]]. apply pair_eqb_eq in E. now subst q.
  - intros H. exists p. split; [ exact H | now apply pair_eqb_eq ].
Qed.

Lemma sorted_pair_sym : forall a b, sorted_pair a b = sorted_pair b a.
Proof.
  intros a b. unfold sorted_pair.
  destruct (String.leb a b) eqn:Hab, (String.leb b a) eqn:Hba; try reflexivity.
  - now rewrite (String.leb_antisym _ _ Hab Hba).
  - destruct (String.leb_total a b); congruence.
Qed.

Lemma sorted_pair_inv : forall a b c d,
    sorted_pair a b = sorted_pair c d -> (a = c /\ b = d) \/ (a = d /\ b = c).
Proof.
  intros a b c d. unfold sorted_pair.
  destruct (String.leb a b), (String.leb c d); intros E; injection E as -> ->; auto.
Qed.

(** The key of the source identifies the unordered, case-insensitive pair. *)
Lemma pair_key_same_pair : forall c d,
    pair_key_of c = pair_key_of d <-> same_pair c d.
Proof.
  intros c d. unfold pair_key_of, same_pair. split.
  - apply sorted_pair_inv.
  - intros [[-> ->] | [-> ->]]; [ reflexivity | apply sorted_pair_sym ].
Qed.

Lemma pair_key_score : forall c, pair_key_of (score c) = pair_key_of c.
Proof. reflexivity. Qed.

Lemma first_with_key_skip : forall k c l,
    pair_key_of c <> k -> first_with_key k (c :: l) = first_with_key k l.
Proof.
  intros k c l H. unfold first_with_key. simpl.
  destruct (pair_eqb (pair_key_of c) k) eqn:E; [ | reflexivity ].
  apply pair_eqb_eq in E. contradiction.
Qed.

Lemma first_with_key_here : forall c l,
    first_with_key (pair_key_of c) (c :: l) = Some c.
Proof.
  intros c l. unfold first_with_key. simpl.
  now rewrite (proj2 (pair_eqb_eq _ _) eq_refl).
Qed.

(** The invariant of the deduplication loop, from any state in which
    [seen] holds the keys of the candidates kept so far. *)
Lemma dedup_loop : forall l seen uniq,
    seen = map pair_key_of uniq ->
    NoDup seen ->
    let r := fold_left dedup_step l (seen, uniq) in
    fst r = map pair_key_of (snd r)
    /\ NoDup (fst r)
    /\ (forall k, In k seen -> In k (fst r))
    /\ (forall c, In c l -> In (pair_key_of c) (fst r))
    /\ exists added,
        snd r = uniq ++ added
        /\ forall c, In c added ->
                     first_with_key (pair_key_of c) l = Some c
                     /\ ~ In (pair_key_of c) seen.
Proof.
  induction l as [|c l IH]; intros seen uniq Hseen Hnd; cbv zeta in *;
    cbn [fold_left].
  - refine (conj Hseen (conj Hnd (conj (fun k H => H) (conj _ _)))).
    + intros c [].
    + exists []. split; [ now rewrite app_nil_r | intros c [] ].
  - destruct (pair_mem (pair_key_of c) seen) eqn:Hmem.
    + assert (Hstep : dedup_step (seen, uniq) c = (seen, uniq))
        by (unfold dedup_step; cbn [fst snd]; now rewrite Hmem).
      rewrite Hstep. apply pair_mem_in in Hmem.
      destruct (IH seen uniq Hseen Hnd) as [H1 [H2 [H3 [H4 [added [H5 H6]]]]]].
      refine (conj H1 (conj H2 (conj H3 (conj _ _)))).
      * intros d [<- | Hd]; auto.
      * exists added. split; [ exact H5 | ].
        intros d Hd. destruct (H6 d Hd) as [Hf Hn]. split; [ | exact Hn ].
        rewrite first_with_key_skip; [ exact Hf | ].
        intros E. apply Hn. now rewrite <- E.
    + assert (Hstep : dedup_step (seen, uniq) c
                      = (seen ++ [pair_key_of c], uniq ++ [c]))
        by (unfold dedup_step; cbn [fst snd]; now rewrite Hmem).
      rewrite Hstep.
      assert (Hnot : ~ In (pair_key_of c) seen).
      { intros H. apply pair_mem_in in H. congruence. }
      destruct (IH (seen ++ [pair_key_of c]) (uniq ++ [c]))
        as [H1 [H2 [H3 [H4 [added [H5 H6]]]]]].
      { rewrite map_app, Hseen. reflexivity. }
      { apply NoDup_app; [ exact Hnd | repeat constructor; intros [] | ].
        intros k Hk [<- | []]. contradiction. }
      refine (conj H1 (conj H2 (conj _ (conj _ _)))).
      * intros k Hk. apply H3, in_or_app. now left.
      * intros d [<- | Hd]; auto.
        apply H3, in_or_app. right. now left.
      * exists (c :: added). split; [ rewrite H5, <- app_assoc; reflexivity | ].
        intros d [<- | Hd].
        -- split; [ apply first_with_key_here | exact Hnot ].
        -- destruct (H6 d Hd) as [Hf Hn]. split.
           ++ rewrite first_with_key_skip; [ exact Hf | ].
              intros E. apply Hn, in_or_app. right. left. exact E.
           ++ intros H. apply Hn, in_or_app. now left.
Qed.

Lemma deduplicate_keys_nodup : forall l, NoDup (map pair_key_of (deduplicate l)).
Proof.
  intros l. unfold deduplicate.
  destruct (dedup_loop l [] [] eq_refl (NoDup_nil _)) as [H1 [H2 _]].
  now rewrite <- H1.
Qed.

Lemma deduplicate_first : forall l c,
    In c (deduplicate l) -> first_with_key (pair_key_of c) l = Some c.
Proof.
  intros l c Hc. unfold deduplicate in Hc.
  destruct (dedup_loop l [] [] eq_refl (NoDup_nil _))
    as [_ [_ [_ [_ [added [H5 H6]]]]]].
  rewrite H5 in Hc. simpl in Hc. now apply H6.
Qed.

Lemma deduplicate_complete : forall l c,
    In c l -> exists d, In d (deduplicate l) /\ pair_key_of d = pair_key_of c.
Proof.
  intros l c Hc. unfold deduplicate.
  destruct (dedup_loop l [] [] eq_refl (NoDup_nil _)) as [H1 [_ [_ [H4 _]]]].
  specialize (H4 c Hc). rewrite H1 in H4. apply in_map_iff in H4.
  destruct H4 as [d [E Hd]]. now exists d.
Qed.

Lemma nodup_keys_pairs : forall l,
    NoDup (map pair_key_of l) ->
    ForallOrdPairs (fun c d => ~ same_pair c d) l.
Proof.
  induction l as [|c l IH]; intros H; simpl in H.
  - constructor.
  - inversion H as [|? ? Hn Hnd]; subst. constructor; [ | now apply IH ].
    apply Forall_forall. intros d Hd Hs. apply Hn.
    apply pair_key_same_pair in Hs. rewrite Hs. now apply in_map.
Qed.

Lemma ranked_keys_nodup : forall l,
    NoDup (map pair_key_of (rank (map score (deduplicate l)))).
Proof.
  intros l.
  apply (Permutation_NoDup (l := map pair_key_of (deduplicate l))).
  - apply Permutation_sym.
    replace (map pair_key_of (deduplicate l))
      with (map pair_key_of (map score (deduplicate l)))
      by (rewrite map_map; reflexivity).
    apply Permutation_map. apply sort_desc_perm.
  - apply deduplicate_keys_nodup.
Qed.

(** C2: in the final candidate list no two candidates share the unordered,
    case-insensitive pair of terms; every candidate of the list is the
    scored form of the first candidate with its key in the concatenation
    of the generator outputs (case, abbreviation, stem, hyphenation,
    compound, levenshtein, in that order), and every generated pair is
    represented.  The tables of a document are an instance. *)
Theorem final_candidates_unique :
  forall (set_list : list string -> list string)
         (term_counts : Counter) (term_occurrences : OccMap)
         (bigram_counts : Counter) (bigram_occurrences : OccMap)
         (config : TerminologyConfig) (content : string),
    let generated :=
      find_case_variations term_counts term_occurrences (ignore_terms config)
      ++ find_abbreviations term_counts term_occurrences config
      ++ find_stem_variations_with set_list term_counts term_occurrences
                                   (ignore_terms config)
      ++ find_hyphenation_variants term_counts term_occurrences (ignore_terms config)
      ++ find_compound_variants term_counts term_occurrences
                                bigram_counts bigram_occurrences config
      ++ find_levenshtein_similar term_counts term_occurrences
                                  (ignore_terms config) 2 in
    let final :=
      candidates_for_review
        (check_tables_with set_list term_counts term_occurrences
                           bigram_counts bigram_occurrences config) in
    ForallOrdPairs (fun c d => ~ same_pair c d) final
    /\ Forall (fun c => exists c0,
                   first_with_key (pair_key_of c) generated = Some c0
                   /\ c = score c0) final
    /\ Forall (fun c0 => exists c, In c final /\ same_pair c c0) generated
    /\ ForallOrdPairs (fun c d => ~ same_pair c d)
         (candidates_for_review (check_content_with set_list content config)).
Proof.
  intros sl tc tocc bc bocc cfg content generated final.
  assert (Hfinal : final = rank (map score (deduplicate generated))) by reflexivity.
  repeat split.
  - rewrite Hfinal. apply nodup_keys_pairs, ranked_keys_nodup.
  - apply Forall_forall. intros c Hc. rewrite Hfinal in Hc.
    apply (Permutation_in _ (sort_desc_perm rank_lt _)) in Hc.
    apply in_map_iff in Hc. destruct Hc as [c0 [E Hc0]].
    exists c0. split; [ | now symmetry ].
    rewrite <- E, pair_key_score. now apply deduplicate_first.
  - apply Forall_forall. intros c0 Hc0.
    destruct (deduplicate_complete generated c0 Hc0) as [d [Hd E]].
    exists (score d). split.
    + rewrite Hfinal.
      apply (Permutation_in _ (Permutation_sym (sort_desc_perm rank_lt _))).
      now apply in_map.
    + apply pair_key_same_pair. now rewrite pair_key_score.
  - unfold check_content_with, check_tables_with. cbn [candidates_for_review].
    apply nodup_keys_pairs, ranked_keys_nodup.
Qed.

(** ** Confidence scoring *)

(** Case analysis on every test of a conditional in the goal. *)
Ltac split_ifs :=
  repeat match goal with
         | |- context [if ?b then _ else _] => destruct b
         end.

Lemma is_empty_false_length : forall (A : Type) (l : list A),
    is_empty l = false -> 1 <= length l.
Proof. intros A [|x l] H; [ discriminate | simpl; lia ]. Qed.

(** With at most three occurrences a side, the frequency ratio is at most
    three. *)
Lemma ratio_capped : forall n m,
    1 <= n <= 3 -> 1 <= m <= 3 ->
    let ratio := (float_of_nat (Nat.max n m) / float_of_nat (Nat.min n m))%float in
    PrimFloat.leb ratio 3%float = true
    /\ PrimFloat.ltb 10%float ratio = false
    /\ PrimFloat.ltb 5%float ratio = false.
Proof.
  intros n m Hn Hm.
  assert (En : n = 1 \/ n = 2 \/ n = 3) by lia.
  assert (Em : m = 1 \/ m = 2 \/ m = 3) by lia.
  destruct En as [-> | [-> | ->]], Em as [-> | [-> | ->]];
    vm_compute; repeat split; reflexivity.
Qed.

Lemma modifiers_frequency_free : forall t1 t2 o1 o2 why,
    length o1 <= 3 -> length o2 <= 3 ->
    frequency_free (snd (calculate_confidence_modifiers t1 t2 o1 o2 why)) = true.
Proof.
  intros t1 t2 o1 o2 why H1 H2. unfold calculate_confidence_modifiers.
  destruct (is_empty o1) eqn:E1; [ reflexivity | ].
  destruct (is_empty o2) eqn:E2; [ reflexivity | ].
  apply is_empty_false_length in E1, E2.
  destruct (ratio_capped (length o1) (length o2)) as [_ [Hhigh Hmod]]; [ lia | lia | ].
  cbv zeta in *. cbn [orb]. rewrite Hhigh, Hmod.
  split_ifs; reflexivity.
Qed.

Lemma modifiers_sum : forall t1 t2 o1 o2 why,
    fst (calculate_confidence_modifiers t1 t2 o1 o2 why)
    = sum_modifiers (snd (calculate_confidence_modifiers t1 t2 o1 o2 why)).
Proof.
  intros t1 t2 o1 o2 why. unfold calculate_confidence_modifiers.
  cbv zeta. split_ifs; reflexivity.
Qed.

Lemma modifiers_bounded : forall t1 t2 o1 o2 why,
    bounded_for_all_bases (fst (calculate_confidence_modifiers t1 t2 o1 o2 why)) = true.
Proof.
  intros t1 t2 o1 o2 why. unfold calculate_confidence_modifiers.
  cbv zeta. split_ifs; vm_compute; reflexivity.
Qed.

Lemma base_of_values : forall why, In (base_of why) base_values.
Proof.
  intros why. unfold base_of. generalize (base_reason_of why). intros r.
  unfold CONFIDENCE_SCORES, base_values. cbn [dict_get map snd app].
  split_ifs; cbn [In]; repeat first [ left; reflexivity | right ].
Qed.

Lemma base_confidence_exact : forall why,
    get_adjusted_confidence why 0%float = base_of why.
Proof.
  intros why. unfold get_adjusted_confidence. fold (base_of why).
  pose proof (base_of_values why) as H. revert H.
  generalize (base_of why). intros b H.
  unfold base_values, CONFIDENCE_SCORES in H. cbn [map snd app In] in H.
  repeat (destruct H as [<- | H]; [ vm_compute; reflexivity | ]).
  destruct H.
Qed.

Lemma score_bounded : forall c,
    in_unit_interval (adjusted_confidence (score c)) = true
    /\ in_unit_interval (base_confidence (score c)) = true
    /\ adjusted_confidence (score c)
       = clamp01 (base_confidence (score c)
                  + sum_modifiers (modifiers_applied (score c)))%float
    /\ base_confidence (score c) = base_of (reason (score c)).
Proof.
  intros c. cbn [adjusted_confidence base_confidence modifiers_applied reason score].
  rewrite base_confidence_exact, <- modifiers_sum.
  pose proof (modifiers_bounded (term1 c) (term2 c) (term1_occurrences c)
                                (term2_occurrences c) (reason c)) as Hb.
  unfold bounded_for_all_bases in Hb. rewrite forallb_forall in Hb.
  pose proof (base_of_values (reason c)) as Hv.
  repeat split.
  - exact (Hb _ Hv).
  - revert Hv. generalize (base_of (reason c)). intros b Hv.
    unfold base_values, CONFIDENCE_SCORES in Hv. cbn [map snd app In] in Hv.
    repeat (destruct Hv as [<- | Hv]; [ vm_compute; reflexivity | ]).
    destruct Hv.
Qed.

(** ** The cap on stored occurrences *)

Lemma occurrences_of_length : forall occ t, length (occurrences_of occ t) <= 3.
Proof. intros. unfold occurrences_of. apply firstn_le_length. Qed.

Lemma capped_candidate : forall t1 c1 o1 t2 c2 o2 why sugg,
    length o1 <= 3 -> length o2 <= 3 ->
    capped (candidate t1 c1 o1 t2 c2 o2 why sugg).
Proof. intros. split; assumption. Qed.

Lemma fold_left_invariant :
  forall (S X : Type) (P : S -> Prop) (f : S -> X -> S) (l : list X) (st : S),
    (forall st x, P st -> P (f st x)) -> P st -> P (fold_left f l st).
Proof.
  intros S X P f l. induction l as [|x l IH]; intros st Hf H; simpl; auto.
Qed.

(** One step of the proof that a generator emits capped candidates only. *)
Ltac capped_step :=
  match goal with
  | |- Forall capped [] => constructor
  | |- Forall capped (_ :: _) => constructor
  | |- Forall capped (_ ++ _) => apply Forall_app; split
  | |- Forall capped (flat_map _ _) =>
      apply Forall_flat_map, Forall_forall; intros ? _
  | |- Forall capped (map _ _) => apply Forall_map, Forall_forall; intros ? _
  | |- Forall capped (fst (fold_left _ _ _)) =>
      apply (fold_left_invariant _ _ (fun st => Forall capped (fst st)));
      [ intros ? ? ? | ]
  | |- Forall capped (fst (if ?b then _ else _)) => destruct b
  | |- Forall capped (if ?b then _ else _) => destruct b
  | |- Forall capped (fst (match ?x with _ => _ end)) => destruct x
  | |- Forall capped (match ?x with _ => _ end) => destruct x
  | |- Forall capped (fst (_, _)) => cbn [fst]
  | |- capped (candidate _ _ _ _ _ _ _ _) => apply capped_candidate
  | |- length (occurrences_of _ _) <= 3 => apply occurrences_of_length
  | |- length (firstn 3 _) <= 3 => apply firstn_le_length
  | H : ?P |- ?P => exact H
  end.

Ltac capped_tac := repeat capped_step.

Lemma find_case_variations_capped : forall tc occ ign,
    Forall capped (find_case_variations tc occ ign).
Proof. intros. unfold find_case_variations. capped_tac. Qed.

Lemma find_abbreviations_capped : forall tc occ cfg,
    Forall capped (find_abbreviations tc occ cfg).
Proof. intros. unfold find_abbreviations. capped_tac. Qed.

Lemma find_stem_variations_capped : forall sl tc occ ign,
    Forall capped (find_stem_variations_with sl tc occ ign).
Proof. intros. unfold find_stem_variations_with. capped_tac. Qed.

Lemma find_hyphenation_variants_capped : forall tc occ ign,
    Forall capped (find_hyphenation_variants tc occ ign).
Proof. intros. unfold find_hyphenation_variants. capped_tac. Qed.

Lemma find_compound_variants_capped : forall tc occ bc bocc cfg,
    Forall capped (find_compound_variants tc occ bc bocc cfg).
Proof.
  intros. unfold find_compound_variants. cbv zeta.
  apply (fold_left_invariant _ _ (fun st => Forall capped (fst st))).
  - intros st x H. unfold compound_bigram_step. cbv zeta.
    destruct (len (normalize_compound (fst x)) <? 6)%nat; [ exact H | ].
    apply (fold_left_invariant _ _ (fun st => Forall capped (fst st))); [ | exact H ].
    clear. intros st y H. unfold compound_bigram_term_step. cbv zeta. capped_tac.
  - apply (fold_left_invariant _ _ (fun st => Forall capped (fst st))).
    + intros st x H. unfold compound_equivalents_step. cbv zeta.
      match goal with |- context [if ?b then _ else _] => destruct b end;
        [ | exact H ].
      match goal with |- context [match ?x with _ => _ end] => destruct x end;
        [ exact H | ].
      apply (fold_left_invariant _ _ (fun st => Forall capped (fst st))); [ | exact H ].
      clear. intros st y H. capped_tac.
    + constructor.
Qed.

Lemma levenshtein_scan_capped : forall occ ign d terms st,
    Forall capped (fst st) ->
    Forall capped (fst (levenshtein_scan occ ign d terms st)).
Proof.
  intros occ ign d terms. induction terms as [|tc terms IH]; intros st H; simpl.
  - exact H.
  - destruct (mem (lower (fst tc)) ign); apply IH; [ exact H | ].
    apply (fold_left_invariant _ _ (fun st => Forall capped (fst st))); [ | exact H ].
    clear. intros st y H. unfold levenshtein_pair_step. cbv zeta. capped_tac.
Qed.

Lemma find_levenshtein_similar_capped : forall tc occ ign d,
    Forall capped (find_levenshtein_similar tc occ ign d).
Proof.
  intros. unfold find_levenshtein_similar. apply levenshtein_scan_capped. constructor.
Qed.

Lemma all_candidates_capped : forall sl tc occ bc bocc cfg,
    Forall capped (all_candidates_with sl tc occ bc bocc cfg).
Proof.
  intros. unfold all_candidates_with.
  repeat (apply Forall_app; split);
    auto using find_case_variations_capped, find_abbreviations_capped,
      find_stem_variations_capped, find_hyphenation_variants_capped,
      find_compound_variants_capped, find_levenshtein_similar_capped.
Qed.

Lemma deduplicate_incl : forall l c, In c (deduplicate l) -> In c l.
Proof.
  intros l c H. apply deduplicate_first in H. unfold first_with_key in H.
  now apply find_some in H.
Qed.

(** Every final candidate is the scored form of a capped candidate. *)
Lemma final_candidates_scored : forall sl tc occ bc bocc cfg c,
    In c (candidates_for_review (check_tables_with sl tc occ bc bocc cfg)) ->
    exists c0, c = score c0 /\ capped c0.
Proof.
  intros sl tc occ bc bocc cfg c H.
  unfold check_tables_with in H. cbn [candidates_for_review] in H.
  apply (Permutation_in _ (sort_desc_perm rank_lt _)) in H.
  apply in_map_iff in H. destruct H as [c0 [E H]].
  exists c0. split; [ now symmetry | ].
  apply deduplicate_incl in H.
  pose proof (all_candidates_capped sl tc occ bc bocc cfg) as Hc.
  rewrite Forall_forall in Hc. now apply Hc.
Qed.

(** C5: in every result of the pipeline no candidate carries
    "frequency_imbalance_high" or "frequency_imbalance_moderate": each
    stored occurrence list holds at most three entries, and the modifiers
    are computed from the lengths of these lists. *)
Theorem no_frequency_imbalance :
  forall (set_list : list string -> list string)
         (term_counts : Counter) (term_occurrences : OccMap)
         (bigram_counts : Counter) (bigram_occurrences : OccMap)
         (config : TerminologyConfig) (content : string),
    Forall (fun c =>
              mem "frequency_imbalance_high" (modifiers_applied c) = false
              /\ mem "frequency_imbalance_moderate" (modifiers_applied c) = false
              /\ capped c)
           (candidates_for_review
              (check_tables_with set_list term_counts term_occurrences
                                 bigram_counts bigram_occurrences config))
    /\ Forall (fun c =>
                 mem "frequency_imbalance_high" (modifiers_applied c) = false
                 /\ mem "frequency_imbalance_moderate" (modifiers_applied c) = false
                 /\ capped c)
              (candidates_for_review (check_content_with set_list content config)).
Proof.
  assert (H : forall sl tc occ bc bocc cfg,
             Forall (fun c =>
                       mem "frequency_imbalance_high" (modifiers_applied c) = false
                       /\ mem "frequency_imbalance_moderate" (modifiers_applied c) = false
                       /\ capped c)
                    (candidates_for_review (check_tables_with sl tc occ bc bocc cfg))).
  { intros. apply Forall_forall. intros c Hc.
    destruct (final_candidates_scored _ _ _ _ _ _ _ Hc) as [c0 [-> [H1 H2]]].
    pose proof (modifiers_frequency_free (term1 c0) (term2 c0) _ _ (reason c0) H1 H2)
      as Hf.
    unfold frequency_free in Hf. apply andb_true_iff in Hf. destruct Hf as [Ha Hb].
    apply negb_true_iff in Ha, Hb.
    cbn [modifiers_applied score]. repeat split; assumption. }
  intros. split; [ apply H | apply H ].
Qed.

(** C7: every candidate of the final result has an adjusted confidence
    between 0.0 and 1.0, equal to the base confidence of its reason plus
    the sum of the weights of its applied modifiers, clamped to that
    interval. *)
Theorem adjusted_confidence_bounds :
  forall (set_list : list string -> list string)
         (term_counts : Counter) (term_occurrences : OccMap)
         (bigram_counts : Counter) (bigram_occurrences : OccMap)
         (config : TerminologyConfig) (content : string),
    Forall (fun c =>
              in_unit_interval (adjusted_confidence c) = true
              /\ adjusted_confidence c
                 = clamp01 (base_of (reason c)
                            + sum_modifiers (modifiers_applied c))%float
              /\ base_confidence c = base_of (reason c))
           (candidates_for_review
              (check_tables_with set_list term_counts term_occurrences
                                 bigram_counts bigram_occurrences config))
    /\ Forall (fun c =>
                 in_unit_interval (adjusted_confidence c) = true
                 /\ adjusted_confidence c
                    = clamp01 (base_of (reason c)
                               + sum_modifiers (modifiers_applied c))%float
                 /\ base_confidence c = base_of (reason c))
              (candidates_for_review (check_content_with set_list content config)).
Proof.
  assert (H : forall sl tc occ bc bocc cfg,
             Forall (fun c =>
                       in_unit_interval (adjusted_confidence c) = true
                       /\ adjusted_confidence c
                          = clamp01 (base_of (reason c)
                                     + sum_modifiers (modifiers_applied c))%float
                       /\ base_confidence c = base_of (reason c))
                    (candidates_for_review (check_tables_with sl tc occ bc bocc cfg))).
  { intros. apply Forall_forall. intros c Hc.
    destruct (final_candidates_scored _ _ _ _ _ _ _ Hc) as [c0 [-> _]].
    destruct (score_bounded c0) as [H1 [_ [H3 H4]]].
    rewrite <- H4. repeat split; assumption. }
  intros. split; [ apply H | apply H ].
Qed.

(** ** Determinism *)

(** The plural test of [find_stem_variations] reads the two elements of a
    set; it does not depend on the order in which the set lists them. *)
Lemma plural_test_order : forall set_list lowers,
    enumerates set_list ->
    ((length lowers =? 2)%nat
     && (String.eqb (nth 0 (set_list lowers) "" ++ "s") (nth 1 (set_list lowers) "")
         || String.eqb (nth 1 (set_list lowers) "" ++ "s") (nth 0 (set_list lowers) "")))
    = ((length lowers =? 2)%nat
       && (String.eqb (nth 0 lowers "" ++ "s") (nth 1 lowers "")
           || String.eqb (nth 1 lowers "" ++ "s") (nth 0 lowers ""))).
Proof.
  intros sl lowers Hsl.
  destruct (length lowers =? 2)%nat eqn:E; [ | reflexivity ].
  apply Nat.eqb_eq in E.
  destruct lowers as [|a [|b [|c lowers]]]; try discriminate.
  cbn [andb].
  destruct (Permutation_length_2_inv (Permutation_sym (Hsl [a; b]))) as [-> | ->].
  - reflexivity.
  - cbn [nth]. apply orb_comm.
Qed.

Lemma find_stem_variations_order : forall set_list tc occ ign,
    enumerates set_list ->
    find_stem_variations_with set_list tc occ ign = find_stem_variations tc occ ign.
Proof.
  intros sl tc occ ign Hsl.
  unfold find_stem_variations, find_stem_variations_with. cbv zeta.
  apply flat_map_ext. intros kv.
  destruct (1 <? length (snd kv))%nat; [ | reflexivity ].
  now rewrite (plural_test_order sl _ Hsl).
Qed.

Lemma check_tables_order : forall set_list tc occ bc bocc cfg,
    enumerates set_list ->
    check_tables_with set_list tc occ bc bocc cfg = check_tables tc occ bc bocc cfg.
Proof.
  intros sl tc occ bc bocc cfg Hsl.
  unfold check_tables, check_tables_with, all_candidates_with.
  now rewrite (find_stem_variations_order sl _ _ _ Hsl).
Qed.

Lemma check_terminology_order : forall set_list md_files cfg,
    enumerates set_list ->
    check_terminology_with set_list md_files cfg = check_terminology md_files cfg.
Proof.
  intros sl files cfg Hsl.
  unfold check_terminology, check_terminology_with, check_content_with.
  destruct (is_empty files); [ reflexivity | ].
  now rewrite (check_tables_order sl _ _ _ _ _ Hsl).
Qed.

Lemma modifiers_number : forall t1 t2 o1 o2 why,
    number_for_all_bases (fst (calculate_confidence_modifiers t1 t2 o1 o2 why)) = true.
Proof.
  intros t1 t2 o1 o2 why. unfold calculate_confidence_modifiers.
  cbv zeta. split_ifs; vm_compute; reflexivity.
Qed.

(** A scored candidate does not rank below a candidate with the same key. *)
Lemma equal_keys_tie : forall c x,
    rank_key x = rank_key (score c) -> rank_lt (score c) x = false.
Proof.
  intros c x E. unfold rank_lt. rewrite E. unfold key_lt.
  assert (H : PrimFloat.eqb (fst (rank_key (score c))) (fst (rank_key (score c))) = true).
  { cbn [rank_key fst adjusted_confidence score]. unfold get_adjusted_confidence.
    fold (base_of (reason c)). cbv zeta.
    pose proof (modifiers_number (term1 c) (term2 c) (term1_occurrences c)
                                 (term2_occurrences c) (reason c)) as Hn.
    unfold number_for_all_bases in Hn. rewrite forallb_forall in Hn.
    exact (Hn _ (base_of_values (reason c))). }
  rewrite H. apply Z.ltb_irrefl.
Qed.

(** C3: the result does not depend on the order in which a run enumerates
    its sets, so two runs on the same texts with the same configuration
    return the same result; the final sort keeps candidates with equal
    keys in merge order. *)
Theorem pipeline_deterministic :
  forall set_list1 set_list2 : list string -> list string,
    enumerates set_list1 -> enumerates set_list2 ->
    forall (md_files : list string) (config : TerminologyConfig)
           (term_counts : Counter) (term_occurrences : OccMap)
           (bigram_counts : Counter) (bigram_occurrences : OccMap),
      check_terminology_with set_list1 md_files config
      = check_terminology_with set_list2 md_files config
      /\ check_tables_with set_list1 term_counts term_occurrences
                           bigram_counts bigram_occurrences config
         = check_tables_with set_list2 term_counts term_occurrences
                             bigram_counts bigram_occurrences config
      /\ forall x y,
          before (candidates_for_review
                    (check_tables_with set_list1 term_counts term_occurrences
                                       bigram_counts bigram_occurrences config)) x y ->
          rank_key x = rank_key y ->
          before (scored_candidates_with set_list1 term_counts term_occurrences
                                         bigram_counts bigram_occurrences config) x y.
Proof.
  intros sl1 sl2 H1 H2 files cfg tc occ bc bocc. split; [ | split ].
  - now rewrite !check_terminology_order.
  - now rewrite !check_tables_order.
  - intros x y Hb E.
    unfold check_tables_with in Hb. cbn [candidates_for_review] in Hb.
    fold (scored_candidates_with sl1 tc occ bc bocc cfg) in Hb.
    apply (sort_desc_stable rank_lt _ _ _ Hb).
    assert (Hy : In y (scored_candidates_with sl1 tc occ bc bocc cfg)).
    { apply (Permutation_in _ (sort_desc_perm rank_lt _)).
      destruct Hb as [l1 [l2 [l3 Hb]]]. unfold rank in Hb. rewrite Hb.
      apply in_or_app. right. right. apply in_or_app. right. now left. }
    unfold scored_candidates_with in Hy. apply in_map_iff in Hy.
    destruct Hy as [c [<- _]]. now apply equal_keys_tie.
Qed.

Lemma pipeline_deterministic_witness :
  enumerates (fun l => l)
  /\ enumerates (@rev string)
  /\ check_terminology_with (fun l => l) ["The file lists files."] default_config
     = check_terminology_with (@rev string) ["The file lists files."] default_config.
Proof.
  assert (Hid : enumerates (fun l => l)) by (intros l; apply Permutation_refl).
  assert (Hrev : enumerates (@rev string))
    by (intros l; apply Permutation_sym, Permutation_rev).
  split; [ exact Hid | ]. split; [ exact Hrev | ].
  exact (proj1 (pipeline_deterministic (fun l => l) (@rev string) Hid Hrev
                  ["The file lists files."] default_config [] [] [] [])).
Defined.

(** * Further properties *)

(** ** The edit distance as a metric *)

Lemma edits_trans : forall n s t, edits n s t ->
    forall m u, edits m t u -> edits (n + m) s u.
Proof.
  induction 1 as [s | n s t u Hst _ IH]; intros m v Hv; simpl.
  - exact Hv.
  - apply edits_step with (t := t); [ exact Hst | now apply IH ].
Qed.

Lemma edit_step_length : forall s t,
    edit_step s t -> length s <= length t + 1 /\ length t <= length s + 1.
Proof.
  intros s t H. destruct H; rewrite !length_app; simpl; lia.
Qed.

Lemma edits_length : forall n s t,
    edits n s t -> length s <= length t + n /\ length t <= length s + n.
Proof.
  induction 1 as [s | n s t u Hst _ IH].
  - lia.
  - apply edit_step_length in Hst. lia.
Qed.

Lemma lev_rec_triangle : forall s t u, lev_rec s u <= lev_rec s t + lev_rec t u.
Proof.
  intros s t u. apply edits_lower_bound.
  apply (edits_trans _ _ _ (edits_lev_rec s t) _ _ (edits_lev_rec t u)).
Qed.

Lemma lev_rec_zero : forall s t, lev_rec s t = 0 <-> s = t.
Proof.
  intros s t. split.
  - intros H. pose proof (edits_lev_rec s t) as E. rewrite H in E.
    now inversion E.
  - intros ->. apply lev_rec_refl.
Qed.

Lemma lev_rec_upper : forall s t, lev_rec s t <= Nat.max (length s) (length t).
Proof.
  induction s as [|a s IH]; intros t.
  - simpl. lia.
  - destruct t as [|b t].
    + rewrite lev_rec_nil_r. simpl. lia.
    + rewrite lev_rec_cons. specialize (IH t). unfold delta.
      destruct (Ascii.eqb a b); simpl length; lia.
Qed.

Lemma chars_inj : forall s t, chars s = chars t -> s = t.
Proof.
  intros s t H. unfold chars in H.
  rewrite <- (string_of_list_ascii_of_string s), <- (string_of_list_ascii_of_string t).
  now rewrite H.
Qed.

(** X1: the distance is zero exactly between equal strings (the
    comparison is case-sensitive). *)
Theorem levenshtein_distance_zero_iff : forall s1 s2 : string,
    levenshtein_distance s1 s2 = 0%Z <-> s1 = s2.
Proof.
  intros s1 s2. rewrite levenshtein_distance_rec. split.
  - intros H. apply chars_inj, lev_rec_zero. lia.
  - intros ->. rewrite lev_rec_refl. reflexivity.
Qed.

(** X2: the distance satisfies the triangle inequality. *)
Theorem levenshtein_distance_triangle : forall s1 s2 s3 : string,
    (levenshtein_distance s1 s3
     <= levenshtein_distance s1 s2 + levenshtein_distance s2 s3)%Z.
Proof.
  intros s1 s2 s3. rewrite !levenshtein_distance_rec.
  pose proof (lev_rec_triangle (chars s1) (chars s2) (chars s3)). lia.
Qed.

(** X3: the distance is at least the difference of the lengths and at
    most the larger length. *)
Theorem levenshtein_distance_bounds : forall s1 s2 : string,
    (Z.abs (Z.of_nat (len s1) - Z.of_nat (len s2)) <= levenshtein_distance s1 s2)%Z
    /\ (levenshtein_distance s1 s2 <= Z.max (Z.of_nat (len s1)) (Z.of_nat (len s2)))%Z.
Proof.
  intros s1 s2. rewrite levenshtein_distance_rec, <- !length_chars.
  pose proof (edits_length _ _ _ (edits_lev_rec (chars s1) (chars s2))).
  pose proof (lev_rec_upper (chars s1) (chars s2)). lia.
Qed.

(** ** The stemmer and the normal form *)

Lemma lower_char_idem : forall c, lower_char (lower_char c) = lower_char c.
Proof.
  intros [[] [] [] [] [] [] [] []]; vm_compute; reflexivity.
Qed.

Lemma lower_idem : forall s, lower (lower s) = lower s.
Proof.
  induction s as [|c s IH]; simpl; [ reflexivity | ].
  now rewrite lower_char_idem, IH.
Qed.

Lemma lower_char_not_upper : forall c, is_upper (lower_char c) = false.
Proof.
  intros [[] [] [] [] [] [] [] []]; vm_compute; reflexivity.
Qed.

Lemma lower_no_upper : forall s, all_chars (fun c => negb (is_upper c)) (lower s) = true.
Proof.
  induction s as [|c s IH]; simpl; [ reflexivity | ].
  now rewrite lower_char_not_upper, IH.
Qed.



Lemma len_take : forall n s, len (take n s) <= n /\ len (take n s) <= len s.
Proof.
  unfold take, len. intros n s. revert n.
  induction s as [|c s IH]; intros n; simpl.
  - destruct n; simpl; lia.
  - destruct n as [|n]; simpl; [ lia | ]. specialize (IH n). lia.
Qed.





Lemma substring_all : forall s, substring 0 (String.length s) s = s.
Proof. induction s as [|c s IH]; simpl; [ reflexivity | now rewrite IH ]. Qed.

Lemma substring_split : forall s n,
    n <= String.length s ->
    (substring 0 n s ++ substring n (String.length s - n) s)%string = s.
Proof.
  induction s as [|c s IH]; intros n H; simpl in *.
  - destruct n; [ reflexivity | lia ].
  - destruct n as [|n]; simpl.
    + now rewrite substring_all.
    + rewrite IH by lia. reflexivity.
Qed.

(** [s.endswith(suf)] holds exactly when [s] is some text followed by
    [suf]. *)
Lemma endswith_iff : forall s suf,
    endswith s suf = true <-> exists p, s = (p ++ suf)%string.
Proof.
  intros s suf. split.
  - unfold endswith, drop. intros H. apply andb_true_iff in H.
    destruct H as [H1 H2]. apply Nat.leb_le in H1. apply String.eqb_eq in H2.
    exists (substring 0 (len s - len suf) s).
    unfold len in *. symmetry.
    etransitivity; [ | apply (substring_split s (String.length s - String.length suf)); lia ].
    f_equal. now symmetry.
  - intros [p ->]. rewrite endswith_app by reflexivity. apply String.eqb_refl.
Qed.

Lemma append_inj_tail : forall p p' q q' : string,
    (p ++ q)%string = (p' ++ q')%string -> len q = len q' -> q = q'.
Proof.
  induction p as [|c p IH]; intros p' q q' E L.
  - destruct p' as [|c' p']; simpl in E; [ exact E | ].
    exfalso. apply (f_equal len) in E.
    pose proof (len_app p' q') as A. unfold len in *. simpl in E. lia.
  - destruct p' as [|c' p']; simpl in E.
    + exfalso. apply (f_equal len) in E.
      pose proof (len_app p q) as A. unfold len in *. simpl in E. lia.
    + injection E as _ E. now apply (IH p').
Qed.

Lemma endswith_tail : forall p q a b,
    endswith (p ++ q) (a ++ b) = true -> len q = len b -> q = b.
Proof.
  intros p q a b H L. apply endswith_iff in H. destruct H as [p' E].
  rewrite <- append_assoc in E. now apply (append_inj_tail _ _ _ _ E).
Qed.

(** X6: a word whose lowercased form ends in "ss" is only lowercased: no
    suffix rule applies to it. *)
Theorem stem_double_s_kept : forall word p : string,
    lower word = (p ++ "ss")%string -> simple_stem word = lower word.
Proof.
  intros word p H. unfold simple_stem. cbv zeta. rewrite H.
  destruct (endswith (p ++ "ss") "ing") eqn:E1.
  { apply (endswith_tail p "ss" "i" "ng") in E1; [ discriminate | reflexivity ]. }
  destruct (endswith (p ++ "ss") "ied") eqn:E2.
  { apply (endswith_tail p "ss" "i" "ed") in E2; [ discriminate | reflexivity ]. }
  destruct (endswith (p ++ "ss") "ies") eqn:E3.
  { apply (endswith_tail p "ss" "i" "es") in E3; [ discriminate | reflexivity ]. }
  destruct (endswith (p ++ "ss") "ed") eqn:E4.
  { apply (endswith_tail p "ss" "" "ed") in E4; [ discriminate | reflexivity ]. }
  rewrite (endswith_app p "ss" "ss") by reflexivity.
  cbn [andb negb String.eqb]. rewrite !andb_false_r. reflexivity.
Qed.

Lemma stem_double_s_kept_witness :
  lower "Class" = ("cla" ++ "ss")%string /\ simple_stem "Class" = lower "Class".
Proof.
  split; [ reflexivity | apply (stem_double_s_kept "Class" "cla"); reflexivity ].
Defined.

Lemma remove_char_idem : forall c s, remove_char c (remove_char c s) = remove_char c s.
Proof.
  intros c s. induction s as [|d s IH]; simpl; [ reflexivity | ].
  destruct (Ascii.eqb d c) eqn:E; simpl; [ exact IH | now rewrite E, IH ].
Qed.

Lemma remove_char_has_char : forall c s, has_char c (remove_char c s) = false.
Proof.
  intros c s. induction s as [|d s IH]; simpl; [ reflexivity | ].
  destruct (Ascii.eqb d c) eqn:E; simpl; [ exact IH | now rewrite E, IH ].
Qed.

Lemma remove_char_comm : forall c d s,
    remove_char c (remove_char d s) = remove_char d (remove_char c s).
Proof.
  intros c d s. induction s as [|e s IH]; simpl; [ reflexivity | ].
  destruct (Ascii.eqb e d) eqn:Ed, (Ascii.eqb e c) eqn:Ec; simpl;
    rewrite ?Ed, ?Ec, IH; reflexivity.
Qed.

Lemma has_char_remove_other : forall c d s,
    has_char c s = false -> has_char c (remove_char d s) = false.
Proof.
  intros c d s. induction s as [|e s IH]; simpl; [ reflexivity | ].
  intros H. apply orb_false_iff in H. destruct H as [H1 H2].
  destruct (Ascii.eqb e d); simpl; [ now apply IH | now rewrite H1, IH ].
Qed.

Lemma lower_char_eqb_hyphen : forall d,
    Ascii.eqb (lower_char d) "-" = Ascii.eqb d "-".
Proof. intros [[] [] [] [] [] [] [] []]; vm_compute; reflexivity. Qed.

Lemma lower_char_eqb_blank : forall d,
    Ascii.eqb (lower_char d) " " = Ascii.eqb d " ".
Proof. intros [[] [] [] [] [] [] [] []]; vm_compute; reflexivity. Qed.

Lemma lower_remove_hyphen : forall s,
    lower (remove_char "-" s) = remove_char "-" (lower s).
Proof.
  induction s as [|d s IH]; simpl; [ reflexivity | ].
  rewrite lower_char_eqb_hyphen. destruct (Ascii.eqb d "-"); simpl; now rewrite IH.
Qed.

Lemma lower_remove_blank : forall s,
    lower (remove_char " " s) = remove_char " " (lower s).
Proof.
  induction s as [|d s IH]; simpl; [ reflexivity | ].
  rewrite lower_char_eqb_blank. destruct (Ascii.eqb d " "); simpl; now rewrite IH.
Qed.

Lemma all_chars_remove : forall p c s,
    all_chars p s = true -> all_chars p (remove_char c s) = true.
Proof. intros. now apply remove_char_clean. Qed.

(** X7: [normalize_compound] is idempotent, ignores case, and its result
    holds no hyphen, no blank and no uppercase letter. *)
Theorem normalize_compound_normal : forall term : string,
    normalize_compound (normalize_compound term) = normalize_compound term
    /\ normalize_compound (lower term) = normalize_compound term
    /\ has_char "-" (normalize_compound term) = false
    /\ has_char " " (normalize_compound term) = false
    /\ all_chars (fun c => negb (is_upper c)) (normalize_compound term) = true.
Proof.
  intros term. unfold normalize_compound. repeat split.
  - rewrite lower_remove_blank, lower_remove_hyphen, lower_idem.
    rewrite (remove_char_comm "-" " " (remove_char "-" (lower term))).
    now rewrite (remove_char_idem "-"), (remove_char_idem " ").
  - now rewrite lower_idem.
  - apply has_char_remove_other, remove_char_has_char.
  - apply remove_char_has_char.
  - apply all_chars_remove, all_chars_remove, lower_no_upper.
Qed.

(** ** The extracted tables *)

Lemma fold_left_invariant_in :
  forall (S X : Type) (P : S -> Prop) (f : S -> X -> S) (l : list X) (st : S),
    (forall st x, In x l -> P st -> P (f st x)) -> P st -> P (fold_left f l st).
Proof.
  intros S X P f l. induction l as [|x l IH]; intros st Hf H; simpl; [ exact H | ].
  apply IH.
  - intros st' y Hy. apply Hf. now right.
  - apply Hf; [ now left | exact H ].
Qed.

Lemma enumerate_in : forall (A : Type) (l : list A) i x,
    In (i, x) (enumerate l) -> i < length l.
Proof.
  intros A l i x H. unfold enumerate in H.
  apply in_combine_l in H. apply in_seq in H. lia.
Qed.

Lemma process_lines_length : forall lines b,
    length (process_lines b lines) = length lines.
Proof.
  induction lines as [|l lines IH]; intros b; simpl; [ reflexivity | ].
  destruct (startswith (strip l) "```"); [ | destruct b ]; simpl; now rewrite IH.
Qed.

Lemma counter_incr_keys : forall k d,
    map fst (counter_incr k d)
    = if dict_mem d k then map fst d else map fst d ++ [k].
Proof.
  intros k d. unfold dict_mem. induction d as [|[k' n] d IH]; simpl; [ reflexivity | ].
  destruct (String.eqb k' k) eqn:E; simpl; [ reflexivity | ].
  rewrite IH. now destruct (existsb _ d).
Qed.

Lemma dict_mem_in : forall (V : Type) (d : list (string * V)) k,
    dict_mem d k = true <-> In k (map fst d).
Proof.
  intros V d k. unfold dict_mem. rewrite existsb_exists, in_map_iff. split.
  - intros [kv [H E]]. apply String.eqb_eq in E. now exists kv.
  - intros [kv [E H]]. exists kv. split; [ exact H | now apply String.eqb_eq ].
Qed.

Lemma counter_incr_nodup : forall k d,
    NoDup (map fst d) -> NoDup (map fst (counter_incr k d)).
Proof.
  intros k d H. rewrite counter_incr_keys.
  destruct (dict_mem d k) eqn:E; [ exact H | ].
  apply NoDup_app; [ exact H | repeat constructor; intros [] | ].
  intros x Hx [<- | []]. apply dict_mem_in in Hx. congruence.
Qed.

Lemma record_counted : forall k v c o,
    Forall2 counted c o -> Forall2 counted (counter_incr k c) (group_add k v o).
Proof.
  intros k v c o H. induction H as [|[k1 n] [k2 vs] c o [E1 [E2 E3]] Ht IH]; simpl in *.
  - constructor; [ | constructor ]. repeat split; simpl; lia.
  - subst k2. destruct (String.eqb k1 k).
    + constructor; [ | assumption ].
      repeat split; simpl; rewrite ?length_app; simpl; lia.
    + constructor; [ | exact IH ]. now repeat split.
Qed.

Lemma record_occurrence_ok : forall lines i key st,
    tables_ok st -> tables_ok (record_occurrence lines i key st).
Proof.
  intros lines i key st [H1 H2]. unfold record_occurrence. split; simpl.
  - now apply record_counted.
  - now apply counter_incr_nodup.
Qed.

Lemma tables_ok_empty : tables_ok ([], []).
Proof. split; constructor. Qed.

(** X8: the two tables of each extractor are parallel: same keys in the
    same order, each key once, and the count of a key is the number of
    its recorded occurrences, which is at least one. *)
Theorem extracted_tables_parallel : forall content : string,
    (Forall2 counted (fst (extract_terms_with_context content))
                     (snd (extract_terms_with_context content))
     /\ NoDup (map fst (fst (extract_terms_with_context content))))
    /\ (Forall2 counted (fst (extract_bigrams_with_context content))
                        (snd (extract_bigrams_with_context content))
        /\ NoDup (map fst (fst (extract_bigrams_with_context content)))).
Proof.
  intros content. split.
  - unfold extract_terms_with_context. cbv zeta.
    apply (fold_left_invariant _ _ tables_ok); [ | apply tables_ok_empty ].
    intros st il H. destruct (len (strip (snd il)) =? 0)%nat; [ exact H | ].
    apply (fold_left_invariant _ _ tables_ok); [ | exact H ].
    intros st' w H'. destruct (_ && _); [ | exact H' ].
    now apply record_occurrence_ok.
  - unfold extract_bigrams_with_context. cbv zeta.
    apply (fold_left_invariant _ _ tables_ok); [ | apply tables_ok_empty ].
    intros st il H. destruct (len (strip (snd il)) =? 0)%nat; [ exact H | ].
    apply (fold_left_invariant _ _ tables_ok); [ | exact H ].
    intros st' w H'. now apply record_occurrence_ok.
Qed.

Lemma counter_incr_forall : forall (P : string -> Prop) k d,
    P k -> Forall (fun kc => P (fst kc)) d ->
    Forall (fun kc => P (fst kc)) (counter_incr k d).
Proof.
  intros P k d Hk H. induction H as [|[k' n] d Hx Ht IH]; simpl.
  - constructor; [ exact Hk | constructor ].
  - destruct (String.eqb k' k); constructor; assumption.
Qed.

(** X9: no key of the term table is a stopword (compared in lowercase) or
    has fewer than three characters. *)
Theorem extracted_terms_filtered : forall content : string,
    Forall (fun kc => mem (lower (fst kc)) STOPWORDS = false /\ 3 <= len (fst kc))
           (fst (extract_terms_with_context content)).
Proof.
  intros content. unfold extract_terms_with_context. cbv zeta.
  apply (fold_left_invariant _ _
           (fun st => Forall (fun kc => mem (lower (fst kc)) STOPWORDS = false
                                        /\ 3 <= len (fst kc)) (fst st)));
    [ | constructor ].
  intros st il H. destruct (len (strip (snd il)) =? 0)%nat; [ exact H | ].
  apply (fold_left_invariant _ _
           (fun st => Forall (fun kc => mem (lower (fst kc)) STOPWORDS = false
                                        /\ 3 <= len (fst kc)) (fst st)));
    [ | exact H ].
  intros st' w H'. destruct (negb (mem (lower w) STOPWORDS)) eqn:E1; [ | exact H' ].
  destruct (2 <? len (lower w))%nat eqn:E2; [ | exact H' ].
  cbn [andb]. unfold record_occurrence. cbn [fst].
  apply (counter_incr_forall
           (fun k => mem (lower k) STOPWORDS = false /\ 3 <= len k)); [ | exact H' ].
  apply negb_true_iff in E1. apply Nat.ltb_lt in E2. rewrite len_lower in E2.
  split; [ exact E1 | lia ].
Qed.

Lemma group_add_forall : forall (V : Type) (P : V -> Prop) k v (d : list (string * list V)),
    P v -> Forall (fun kv => Forall P (snd kv)) d ->
    Forall (fun kv => Forall P (snd kv)) (group_add k v d).
Proof.
  intros V P k v d Hv H. induction H as [|[k' vs] d Hx Ht IH]; simpl.
  - repeat constructor. exact Hv.
  - destruct (String.eqb k' k); constructor; try assumption.
    simpl in *. apply Forall_app. split; [ exact Hx | now repeat constructor ].
Qed.

(** X10: every recorded occurrence, of a term or of a bigram, carries a
    line number between 1 and the number of lines of the text. *)
Theorem extracted_line_numbers : forall content : string,
    let n := length (split_on newline content) in
    Forall (fun ko => Forall (on_a_line n) (snd ko))
           (snd (extract_terms_with_context content))
    /\ Forall (fun ko => Forall (on_a_line n) (snd ko))
              (snd (extract_bigrams_with_context content)).
Proof.
  intros content n.
  assert (Hrec : forall i key st,
             i < n ->
             Forall (fun ko => Forall (on_a_line n) (snd ko)) (snd st) ->
             Forall (fun ko => Forall (on_a_line n) (snd ko))
                    (snd (record_occurrence (split_on newline content) i key st))).
  { intros i key st Hi H. unfold record_occurrence. cbn [snd].
    apply group_add_forall; [ | exact H ]. unfold on_a_line. simpl. lia. }
  split.
  - unfold extract_terms_with_context. cbv zeta.
    apply (fold_left_invariant_in _ _
             (fun st => Forall (fun ko => Forall (on_a_line n) (snd ko)) (snd st)));
      [ | constructor ].
    intros st [i line] Hin H. apply enumerate_in in Hin.
    rewrite process_lines_length in Hin. cbn [fst snd].
    destruct (len (strip line) =? 0)%nat; [ exact H | ].
    apply (fold_left_invariant _ _
             (fun st => Forall (fun ko => Forall (on_a_line n) (snd ko)) (snd st)));
      [ | exact H ].
    intros st' w H'. destruct (_ && _); [ | exact H' ]. now apply Hrec.
  - unfold extract_bigrams_with_context. cbv zeta.
    apply (fold_left_invariant_in _ _
             (fun st => Forall (fun ko => Forall (on_a_line n) (snd ko)) (snd st)));
      [ | constructor ].
    intros st [i line] Hin H. apply enumerate_in in Hin.
    rewrite process_lines_length in Hin. cbn [fst snd].
    destruct (len (strip line) =? 0)%nat; [ exact H | ].
    apply (fold_left_invariant _ _
             (fun st => Forall (fun ko => Forall (on_a_line n) (snd ko)) (snd st)));
      [ | exact H ].
    intros st' w H'. now apply Hrec.
Qed.

(** ** The scorer on arbitrary inputs *)

Lemma float_ltb_leb : forall x y : float,
    PrimFloat.ltb x y = true -> PrimFloat.leb x y = true.
Proof.
  intros x y. rewrite ltb_spec, leb_spec. unfold SFltb, SFleb.
  destruct (SFcompare (Prim2SF x) (Prim2SF y)) as [[] | ]; intros H;
    first [ reflexivity | discriminate ].
Qed.

Lemma clamp01_unit : forall x : float, in_unit_interval (clamp01 x) = true.
Proof.
  intros x. unfold clamp01, py_min, py_max, in_unit_interval.
  destruct (PrimFloat.ltb x 1) eqn:E1.
  - destruct (PrimFloat.ltb 0 x) eqn:E0.
    + now rewrite (float_ltb_leb _ _ E0), (float_ltb_leb _ _ E1).
    + reflexivity.
  - reflexivity.
Qed.

(** X11: for every reason and every float modifier, not-a-number and the
    infinities included, [get_adjusted_confidence] returns a value between
    0.0 and 1.0. *)
Theorem get_adjusted_confidence_unit : forall (why : string) (modifier : float),
    in_unit_interval (get_adjusted_confidence why modifier) = true
    /\ get_adjusted_confidence why nan = 1%float
    /\ get_adjusted_confidence why infinity = 1%float
    /\ get_adjusted_confidence why neg_infinity = 0%float.
Proof.
  intros why modifier. split; [ apply clamp01_unit | ].
  unfold get_adjusted_confidence. fold (base_of why). cbv zeta.
  pose proof (base_of_values why) as H. revert H.
  generalize (base_of why). intros b H.
  unfold base_values, CONFIDENCE_SCORES in H. cbn [map snd app In] in H.
  repeat (destruct H as [<- | H]; [ vm_compute; repeat split; reflexivity | ]).
  destruct H.
Qed.

Lemma min_of_le : forall l x, In x l -> (min_of l <= x)%Z.
Proof.
  intros [|a l] x H; [ destruct H | ]. simpl.
  assert (G : forall l b, (fold_left Z.min l b <= b)%Z
                          /\ forall y, In y l -> (fold_left Z.min l b <= y)%Z).
  { clear. induction l as [|c l IH]; intros b; simpl.
    - split; [ lia | intros y [] ].
    - destruct (IH (Z.min b c)) as [H1 H2]. split; [ lia | ].
      intros y [<- | Hy]; [ lia | now apply H2 ]. }
  destruct (G l a) as [H1 H2]. destruct H as [<- | H]; [ exact H1 | now apply H2 ].
Qed.

(** Lines within five of each other are not more than a hundred apart. *)
Lemma near_not_distant : forall l1s l2s : list Z,
    existsb (fun l1 => existsb (fun l2 => (Z.abs (l1 - l2) <=? 5)%Z) l2s) l1s = true ->
    (100 <? min_of (flat_map (fun l1 => map (fun l2 => Z.abs (l1 - l2)) l2s) l1s))%Z
    = false.
Proof.
  intros l1s l2s H. apply existsb_exists in H. destruct H as [l1 [H1 H]].
  apply existsb_exists in H. destruct H as [l2 [H2 H]]. apply Z.leb_le in H.
  apply Z.ltb_ge.
  assert (Hin : In (Z.abs (l1 - l2))
                   (flat_map (fun l1 => map (fun l2 => Z.abs (l1 - l2)) l2s) l1s)).
  { apply in_flat_map. exists l1. split; [ exact H1 | ].
    apply in_map_iff. now exists l2. }
  pose proof (min_of_le _ _ Hin). lia.
Qed.

(** Closes a goal [NoDup l] for a list of distinct string literals. *)
Ltac nodup_literals :=
  repeat (constructor; [ cbn [In]; intuition discriminate | ]); constructor.

(** X12: whatever the occurrences, the applied modifiers are pairwise
    distinct and drawn from eight of the eleven entries of
    [CONTEXT_MODIFIERS]; "same_paragraph" comes only with "same_section"
    and never with "distant_sections"; the two frequency modifiers exclude
    each other, as do the two code modifiers; "short_term_levenshtein"
    needs a reason that contains "levenshtein". *)
Theorem modifiers_consistent :
  forall (t1 t2 : string) (o1 o2 : list TermOccurrence) (why : string),
    let names := snd (calculate_confidence_modifiers t1 t2 o1 o2 why) in
    NoDup names
    /\ Forall (fun n => mem n ["same_section"; "same_paragraph"; "distant_sections";
                               "frequency_imbalance_high";
                               "frequency_imbalance_moderate";
                               "short_term_levenshtein";
                               "both_terms_in_code"; "one_term_in_code"] = true) names
    /\ (mem "same_paragraph" names = true -> mem "same_section" names = true)
    /\ mem "same_paragraph" names && mem "distant_sections" names = false
    /\ mem "frequency_imbalance_high" names
       && mem "frequency_imbalance_moderate" names = false
    /\ mem "both_terms_in_code" names && mem "one_term_in_code" names = false
    /\ (mem "short_term_levenshtein" names = true -> contains "levenshtein" why = true).
Proof.
  intros t1 t2 o1 o2 why. unfold calculate_confidence_modifiers. cbv zeta.
  destruct (is_empty o1 || is_empty o2).
  { cbn. repeat split; try constructor; intros; discriminate. }
  pose proof (near_not_distant (map line_number o1) (map line_number o2)) as Hnear.
  destruct (contains "levenshtein" why);
    destruct (existsb _ (map line_number o1));
    [ rewrite (Hnear eq_refl) | | rewrite (Hnear eq_refl) | ]; clear Hnear;
    split_ifs; cbn [snd apply_modifier app];
    (split; [ nodup_literals | ]);
    (split; [ repeat constructor | ]);
    repeat split; intros; first [ reflexivity | discriminate ].
Qed.

(** ** The scorer does not depend on the order of the two terms *)

Lemma mem_in : forall x l, mem x l = true <-> In x l.
Proof.
  intros x l. unfold mem. rewrite existsb_exists. split.
  - intros [y [H E]]. apply String.eqb_eq in E. now subst y.
  - intros H. exists x. split; [ exact H | apply String.eqb_refl ].
Qed.

Lemma bool_eq_iff : forall a b : bool, (a = true <-> b = true) -> a = b.
Proof.
  intros [] [] [H1 H2]; try reflexivity;
    [ symmetry; apply H1 | apply H2 ]; reflexivity.
Qed.

Lemma shared_section_sym : forall (ok : string -> bool) s1 s2,
    existsb (fun s => mem s s2 && ok s) s1 = existsb (fun s => mem s s1 && ok s) s2.
Proof.
  intros ok s1 s2. apply bool_eq_iff. rewrite !existsb_exists.
  split; intros [s [H1 H2]]; apply andb_true_iff in H2; destruct H2 as [H2 H3];
    apply mem_in in H2; exists s; (split; [ exact H2 | ]);
    apply andb_true_iff; (split; [ now apply mem_in | exact H3 ]).
Qed.

Lemma existsb_swap : forall (A B : Type) (p : A -> B -> bool) la lb,
    existsb (fun a => existsb (fun b => p a b) lb) la
    = existsb (fun b => existsb (fun a => p a b) la) lb.
Proof.
  intros A B p la lb. apply bool_eq_iff. rewrite !existsb_exists. split.
  - intros [a [Ha H]]. apply existsb_exists in H. destruct H as [b [Hb H]].
    exists b. split; [ exact Hb | ]. apply existsb_exists. now exists a.
  - intros [b [Hb H]]. apply existsb_exists in H. destruct H as [a [Ha H]].
    exists a. split; [ exact Ha | ]. apply existsb_exists. now exists b.
Qed.

Lemma forallb_swap : forall (A B : Type) (p : A -> B -> bool) la lb,
    forallb (fun a => forallb (fun b => p a b) lb) la
    = forallb (fun b => forallb (fun a => p a b) la) lb.
Proof.
  intros A B p la lb. apply bool_eq_iff. rewrite !forallb_forall. split.
  - intros H b Hb. apply forallb_forall. intros a Ha.
    specialize (H a Ha). rewrite forallb_forall in H. now apply H.
  - intros H a Ha. apply forallb_forall. intros b Hb.
    specialize (H b Hb). rewrite forallb_forall in H. now apply H.
Qed.

Lemma forallb_pointwise : forall (A : Type) (p q : A -> bool) l,
    (forall x, p x = q x) -> forallb p l = forallb q l.
Proof.
  intros A p q l H. induction l as [|x l IH]; simpl; [ reflexivity | ].
  now rewrite H, IH.
Qed.

Lemma existsb_pointwise : forall (A : Type) (p q : A -> bool) l,
    (forall x, p x = q x) -> existsb p l = existsb q l.
Proof.
  intros A p q l H. induction l as [|x l IH]; simpl; [ reflexivity | ].
  now rewrite H, IH.
Qed.

Lemma fold_min_gt : forall c l b,
    (c <? fold_left Z.min l b)%Z = (c <? b)%Z && forallb (fun x => (c <? x)%Z) l.
Proof.
  intros c l. induction l as [|x l IH]; intros b; simpl.
  - now rewrite andb_true_r.
  - rewrite IH. rewrite andb_assoc. f_equal.
    destruct (c <? b)%Z eqn:E1, (c <? x)%Z eqn:E2; simpl;
      rewrite ?Z.ltb_lt, ?Z.ltb_ge in *; lia.
Qed.

Lemma min_of_gt : forall c l,
    l <> [] -> (c <? min_of l)%Z = forallb (fun x => (c <? x)%Z) l.
Proof.
  intros c [|a l] H; [ contradiction | ]. simpl. apply fold_min_gt.
Qed.

Lemma forallb_flat_map : forall (A B : Type) (p : B -> bool) (f : A -> list B) l,
    forallb p (flat_map f l) = forallb (fun x => forallb p (f x)) l.
Proof.
  intros A B p f l. induction l as [|x l IH]; simpl; [ reflexivity | ].
  now rewrite forallb_app, IH.
Qed.

Lemma forallb_map : forall (A B : Type) (p : B -> bool) (g : A -> B) l,
    forallb p (map g l) = forallb (fun x => p (g x)) l.
Proof.
  intros A B p g l. induction l as [|x l IH]; simpl; [ reflexivity | now rewrite IH ].
Qed.

Lemma flat_map_nil_inner : forall (A B C : Type) (g : A -> B -> C) (l : list A),
    flat_map (fun a => map (g a) []) l = [].
Proof. intros. induction l; simpl; auto. Qed.

Lemma distances_nonempty : forall (l1s l2s : list Z),
    l1s <> [] -> l2s <> [] ->
    flat_map (fun l1 => map (fun l2 => Z.abs (l1 - l2)) l2s) l1s <> [].
Proof.
  intros [|a l1s] [|b l2s] H1 H2; try contradiction. simpl. discriminate.
Qed.

Lemma distant_sym : forall (l1s l2s : list Z),
    (100 <? min_of (flat_map (fun l1 => map (fun l2 => Z.abs (l1 - l2)) l2s) l1s))%Z
    = (100 <? min_of (flat_map (fun l2 => map (fun l1 => Z.abs (l2 - l1)) l1s) l2s))%Z.
Proof.
  intros l1s l2s.
  destruct l1s as [|a l1s].
  { simpl. now rewrite (flat_map_nil_inner Z Z Z (fun l2 l1 => Z.abs (l2 - l1))). }
  destruct l2s as [|b l2s].
  { simpl flat_map at 2.
    now rewrite (flat_map_nil_inner Z Z Z (fun l1 l2 => Z.abs (l1 - l2))). }
  rewrite !min_of_gt by (apply distances_nonempty; discriminate).
  rewrite !forallb_flat_map.
  transitivity
    (forallb (fun l1 => forallb (fun l2 => (100 <? Z.abs (l1 - l2))%Z) (b :: l2s))
             (a :: l1s)).
  - apply forallb_pointwise. intros l1. apply forallb_map.
  - rewrite forallb_swap. apply forallb_pointwise. intros l2.
    rewrite forallb_map. apply forallb_pointwise. intros l1.
    now rewrite <- Z.abs_opp, Z.opp_sub_distr, Z.add_comm, Z.add_opp_r.
Qed.

Lemma near_sym : forall (l1s l2s : list Z),
    existsb (fun l1 => existsb (fun l2 => (Z.abs (l1 - l2) <=? 5)%Z) l2s) l1s
    = existsb (fun l2 => existsb (fun l1 => (Z.abs (l2 - l1) <=? 5)%Z) l1s) l2s.
Proof.
  intros l1s l2s. rewrite existsb_swap. apply existsb_pointwise. intros l2.
  apply existsb_pointwise. intros l1.
  now rewrite <- Z.abs_opp, Z.opp_sub_distr, Z.add_comm, Z.add_opp_r.
Qed.

Lemma modifiers_as_tests : forall t1 t2 o1 o2 why,
    calculate_confidence_modifiers t1 t2 o1 o2 why
    = modifiers_of
        (is_empty o1 || is_empty o2)
        (existsb (fun s => mem s (map section o2)
                           && negb (String.eqb s "(no section)")
                           && negb (String.eqb s "")) (map section o1))
        (existsb (fun l1 => existsb (fun l2 => (Z.abs (l1 - l2) <=? 5)%Z)
                                    (map line_number o2)) (map line_number o1))
        (negb (is_empty (map line_number o1)) && negb (is_empty (map line_number o2)))
        (100 <? min_of (flat_map (fun l1 => map (fun l2 => Z.abs (l1 - l2))
                                                (map line_number o2))
                                 (map line_number o1)))%Z
        ((0 <? length o1)%nat && (0 <? length o2)%nat)
        (PrimFloat.ltb 10 (float_of_nat (Nat.max (length o1) (length o2))
                           / float_of_nat (Nat.min (length o1) (length o2))))
        (PrimFloat.ltb 5 (float_of_nat (Nat.max (length o1) (length o2))
                          / float_of_nat (Nat.min (length o1) (length o2))))
        (contains "levenshtein" why)
        ((len t1 <? 5)%nat || (len t2 <? 5)%nat)
        (in_code o1 && in_code o2)
        (in_code o1 || in_code o2).
Proof. reflexivity. Qed.

(** X13: the modifiers do not depend on which of the two terms comes
    first: exchanging the terms together with their occurrence lists gives
    the same total and the same names. *)
Theorem modifiers_symmetric :
  forall (t1 t2 : string) (o1 o2 : list TermOccurrence) (why : string),
    calculate_confidence_modifiers t1 t2 o1 o2 why
    = calculate_confidence_modifiers t2 t1 o2 o1 why.
Proof.
  intros t1 t2 o1 o2 why. rewrite !modifiers_as_tests.
  rewrite (orb_comm (is_empty o2)), (andb_comm (negb (is_empty (map line_number o2)))).
  rewrite (andb_comm (0 <? length o2)%nat), (Nat.max_comm (length o2)),
    (Nat.min_comm (length o2)).
  rewrite (orb_comm (len t2 <? 5)%nat), (andb_comm (in_code o2)), (orb_comm (in_code o2)).
  rewrite (near_sym (map line_number o2)), (distant_sym (map line_number o2)).
  f_equal.
  rewrite (existsb_pointwise _ _ (fun s => mem s (map section o2)
                                   && (negb (String.eqb s "(no section)")
                                       && negb (String.eqb s ""))))
    by (intros; now rewrite andb_assoc).
  rewrite (shared_section_sym (fun s => negb (String.eqb s "(no section)")
                                        && negb (String.eqb s ""))).
  apply existsb_pointwise. intros s. now rewrite andb_assoc.
Qed.

(** ** Grouping and sorting by count *)

Lemma fold_left_pointwise :
  forall (S X : Type) (f g : S -> X -> S) (l : list X) (st : S),
    (forall st x, f st x = g st x) -> fold_left f l st = fold_left g l st.
Proof.
  intros S X f g l. induction l as [|x l IH]; intros st H; simpl; [ reflexivity | ].
  now rewrite H, IH.
Qed.

Lemma group_add_keys : forall (V : Type) k (v : V) d,
    map fst (group_add k v d)
    = if dict_mem d k then map fst d else map fst d ++ [k].
Proof.
  intros V k v d. unfold dict_mem. induction d as [|[k' vs] d IH]; simpl; [ reflexivity | ].
  destruct (String.eqb k' k) eqn:E; simpl; [ reflexivity | ].
  rewrite IH. now destruct (existsb _ d).
Qed.

Lemma group_add_nodup : forall (V : Type) k (v : V) d,
    NoDup (map fst d) -> NoDup (map fst (group_add k v d)).
Proof.
  intros V k v d H. rewrite group_add_keys.
  destruct (dict_mem d k) eqn:E; [ exact H | ].
  apply NoDup_app; [ exact H | repeat constructor; intros [] | ].
  intros x Hx [<- | []]. apply dict_mem_in in Hx. congruence.
Qed.

Lemma group_add_get : forall (V : Type) k (v : V) d k',
    dict_get (group_add k v d) k' []
    = if String.eqb k k' then dict_get d k' [] ++ [v] else dict_get d k' [].
Proof.
  intros V k v d k'. induction d as [|[k0 vs] d IH]; simpl.
  - now destruct (String.eqb k k').
  - destruct (String.eqb k0 k) eqn:E0; simpl.
    + apply String.eqb_eq in E0. subst k0.
      now destruct (String.eqb k k').
    + rewrite IH. destruct (String.eqb k0 k') eqn:E1; [ | reflexivity ].
      apply String.eqb_eq in E1. subst k0.
      now rewrite String.eqb_sym, E0.
Qed.

Lemma dict_get_in : forall (V : Type) (d : list (string * V)) k v def,
    NoDup (map fst d) -> In (k, v) d -> dict_get d k def = v.
Proof.
  intros V d k v def. induction d as [|[k0 v0] d IH]; intros Hn Hin; simpl in *.
  - destruct Hin.
  - inversion Hn as [|? ? Hnot Hnd]; subst. destruct Hin as [E | Hin].
    + injection E as -> ->. now rewrite String.eqb_refl.
    + destruct (String.eqb k0 k) eqn:E; [ | now apply IH ].
      apply String.eqb_eq in E. subst k0. exfalso. apply Hnot.
      apply in_map_iff. now exists (k, v).
Qed.

Section Grouping.

Variable sel : string * Z -> option string.

Lemma group_fold_get : forall l d k,
    dict_get (fold_left (group_step sel) l d) k []
    = dict_get d k [] ++ filter (has_key sel k) l.
Proof.
  induction l as [|tc l IH]; intros d k; simpl.
  - now rewrite app_nil_r.
  - rewrite IH. unfold group_step, has_key. destruct (sel tc) as [k0|].
    + rewrite group_add_get. destruct (String.eqb k0 k).
      * now rewrite <- app_assoc.
      * reflexivity.
    + reflexivity.
Qed.

Lemma group_fold_nodup : forall l d,
    NoDup (map fst d) -> NoDup (map fst (fold_left (group_step sel) l d)).
Proof.
  induction l as [|tc l IH]; intros d H; simpl; [ exact H | ].
  apply IH. unfold group_step. destruct (sel tc); [ now apply group_add_nodup | exact H ].
Qed.

(** A group is the list of the entries of the table that have its key, in
    table order. *)
Lemma group_fold_spec : forall table k vs,
    In (k, vs) (fold_left (group_step sel) table []) ->
    vs = filter (has_key sel k) table.
Proof.
  intros table k vs H.
  rewrite <- (dict_get_in _ _ k vs [] (group_fold_nodup table [] (NoDup_nil _)) H).
  now rewrite group_fold_get.
Qed.

End Grouping.

Lemma insert_desc_count_sorted : forall x l,
    StronglySorted count_ge l -> StronglySorted count_ge (insert_desc count_lt x l).
Proof.
  intros x l H. induction H as [|y l Hs IH Hy]; simpl.
  - repeat constructor.
  - unfold count_lt at 1. destruct (snd x <? snd y)%Z eqn:E.
    + constructor; [ exact IH | ].
      apply (Permutation_Forall (Permutation_sym (insert_desc_perm count_lt x l))).
      constructor; [ | exact Hy ]. unfold count_ge. apply Z.ltb_lt in E. lia.
    + apply Z.ltb_ge in E. constructor; [ now constructor | ].
      constructor; [ exact E | ].
      apply (Forall_impl _ (P := count_ge y)); [ | exact Hy ].
      unfold count_ge. intros z Hz. lia.
Qed.

Lemma sort_desc_count_sorted : forall l, StronglySorted count_ge (sort_desc count_lt l).
Proof.
  induction l as [|x l IH]; simpl; [ constructor | now apply insert_desc_count_sorted ].
Qed.

(** The head of the sorted list is a most frequent entry, and the sorted
    list holds the entries of the input. *)
Lemma sort_desc_count_head : forall l mc rest,
    sort_desc count_lt l = mc :: rest ->
    In mc l /\ Forall (fun x => In x l /\ (snd x <= snd mc)%Z) rest
    /\ (NoDup l -> ~ In mc rest).
Proof.
  intros l mc rest E.
  pose proof (sort_desc_perm count_lt l) as P. rewrite E in P.
  pose proof (sort_desc_count_sorted l) as S. rewrite E in S.
  inversion S as [|? ? _ Hall]; subst. split; [ | split ].
  - apply (Permutation_in _ P). now left.
  - rewrite Forall_forall in *. intros x Hx. split; [ | now apply Hall ].
    apply (Permutation_in _ P). now right.
  - intros Hn Hin. apply (Permutation_NoDup (Permutation_sym P)) in Hn.
    inversion Hn. contradiction.
Qed.

Lemma filter_partition_perm : forall (A : Type) (p : A -> bool) l,
    Permutation (filter p l ++ filter (fun x => negb (p x)) l) l.
Proof.
  intros A p l. induction l as [|x l IH]; simpl; [ constructor | ].
  destruct (p x); simpl.
  - now constructor.
  - apply Permutation_sym, Permutation_cons_app, Permutation_sym, IH.
Qed.

(** ** What the grouping generators emit *)

Lemma case_key_inv : forall ign k tc,
    has_key (case_key ign) k tc = true ->
    mem (lower (fst tc)) ign = false /\ lower (fst tc) = k.
Proof.
  intros ign k tc. unfold has_key, case_key.
  destruct (mem (lower (fst tc)) ign); [ discriminate | ].
  intros H. apply String.eqb_eq in H. now split.
Qed.

Lemma stem_key_inv : forall ign k tc,
    has_key (stem_key ign) k tc = true ->
    mem (lower (fst tc)) ign = false
    /\ 3 <= len k /\ simple_stem (lower (fst tc)) = k.
Proof.
  intros ign k tc. unfold has_key, stem_key.
  destruct (mem (lower (fst tc)) ign); [ discriminate | ].
  destruct (3 <=? len (simple_stem (lower (fst tc))))%nat eqn:E; [ | discriminate ].
  intros H. apply String.eqb_eq in H. apply Nat.leb_le in E. subst k. now repeat split.
Qed.

Lemma hyphen_key_inv : forall ign k tc,
    has_key (hyphen_key ign) k tc = true ->
    mem (lower (fst tc)) ign = false
    /\ has_char "-" (fst tc) || (6 <? len (fst tc))%nat = true
    /\ normalize_compound (fst tc) = k.
Proof.
  intros ign k tc. unfold has_key, hyphen_key.
  destruct (mem (lower (fst tc)) ign); [ discriminate | ].
  destruct (has_char "-" (fst tc) || (6 <? len (fst tc))%nat); [ | discriminate ].
  intros H. apply String.eqb_eq in H. now repeat split.
Qed.

Lemma simple_stem_lower : forall w, simple_stem (lower w) = simple_stem w.
Proof. intros w. unfold simple_stem. now rewrite lower_idem. Qed.

Lemma find_case_variations_groups : forall tc occ ign,
    find_case_variations tc occ ign
    = flat_map
        (fun kv =>
           if (1 <? length (snd kv))%nat then
             match sort_desc count_lt (snd kv) with
             | [] => []
             | most_common :: rest =>
                 map (fun tc =>
                        candidate (fst most_common) (snd most_common)
                                  (occurrences_of occ (fst most_common))
                                  (fst tc) (snd tc) (occurrences_of occ (fst tc))
                                  "case_variation" (Some (fst most_common)))
                     rest
             end
           else [])
        (fold_left (group_step (case_key ign)) tc []).
Proof.
  intros. unfold find_case_variations. cbv zeta. f_equal.
  apply fold_left_pointwise. intros st x. unfold group_step, case_key.
  now destruct (mem (lower (fst x)) ign).
Qed.

(** X14: every candidate of [find_case_variations] pairs two entries of
    the table that are equal in lowercase and not ignored; the first is at
    least as frequent as the second and is the suggestion. *)
Theorem case_variations_sound :
  forall (term_counts : Counter) (term_occurrences : OccMap) (ignore_terms : list string),
    Forall (fun c =>
              reason c = "case_variation"
              /\ lower (term1 c) = lower (term2 c)
              /\ In (term1 c, term1_count c) term_counts
              /\ In (term2 c, term2_count c) term_counts
              /\ (term2_count c <= term1_count c)%Z
              /\ suggestion c = Some (term1 c)
              /\ mem (lower (term1 c)) ignore_terms = false
              /\ mem (lower (term2 c)) ignore_terms = false)
           (find_case_variations term_counts term_occurrences ignore_terms).
Proof.
  intros tc occ ign. rewrite find_case_variations_groups.
  apply Forall_flat_map, Forall_forall. intros [k vs] Hin. cbn [snd].
  apply group_fold_spec in Hin.
  destruct (1 <? length vs)%nat; [ | constructor ].
  destruct (sort_desc count_lt vs) as [|mc rest] eqn:Es; [ constructor | ].
  apply sort_desc_count_head in Es. destruct Es as [Hmc [Hrest _]].
  apply Forall_map. rewrite Forall_forall in *. intros x Hx.
  destruct (Hrest x Hx) as [Hxin Hle].
  rewrite Hin in Hmc, Hxin. apply filter_In in Hmc, Hxin.
  destruct Hmc as [Hmc1 Hmc2], Hxin as [Hx1 Hx2].
  apply case_key_inv in Hmc2, Hx2. destruct Hmc2 as [M1 M2], Hx2 as [X1 X2].
  destruct mc as [t1 c1], x as [t2 c2]. unfold candidate.
  cbn [fst snd term1 term2 term1_count term2_count reason suggestion] in *.
  repeat split; try assumption; congruence.
Qed.

Lemma find_stem_variations_groups : forall sl tc occ ign,
    find_stem_variations_with sl tc occ ign
    = flat_map
        (fun kv =>
           if (1 <? length (snd kv))%nat then
             let variants := sort_desc count_lt (snd kv) in
             let lowers := distinct (map (fun v => lower (fst v)) variants) in
             let l := sl lowers in
             if (length lowers =? 2)%nat
                && (String.eqb (nth 0 l "" ++ "s") (nth 1 l "")
                    || String.eqb (nth 1 l "" ++ "s") (nth 0 l ""))
             then []
             else
               match variants with
               | [] => []
               | most_common :: rest =>
                   flat_map
                     (fun tc =>
                        if String.eqb (lower (fst tc)) (lower (fst most_common) ++ "s")
                        then []
                        else if String.eqb (lower (fst most_common)) (lower (fst tc) ++ "s")
                        then []
                        else
                          [candidate (fst most_common) (snd most_common)
                                     (occurrences_of occ (fst most_common))
                                     (fst tc) (snd tc) (occurrences_of occ (fst tc))
                                     "stem_variation" None])
                     rest
               end
           else [])
        (fold_left (group_step (stem_key ign)) tc []).
Proof.
  intros. unfold find_stem_variations_with. cbv zeta. f_equal.
  apply fold_left_pointwise. intros st x. unfold group_step, stem_key.
  destruct (mem (lower (fst x)) ign); [ reflexivity | ].
  now destruct (3 <=? len (simple_stem (lower (fst x))))%nat.
Qed.

(** X15: every candidate of [find_stem_variations], whatever the order in
    which the set of lowercased forms is enumerated, pairs two entries of
    the table that are not ignored and have the same stem, of at least
    three characters; neither lowercased term is the other followed by
    "s"; the first is at least as frequent as the second, and no
    suggestion is made. *)
Theorem stem_variations_sound :
  forall (set_list : list string -> list string)
         (term_counts : Counter) (term_occurrences : OccMap) (ignore_terms : list string),
    Forall (fun c =>
              reason c = "stem_variation"
              /\ simple_stem (term1 c) = simple_stem (term2 c)
              /\ 3 <= len (simple_stem (term1 c))
              /\ lower (term2 c) <> (lower (term1 c) ++ "s")%string
              /\ lower (term1 c) <> (lower (term2 c) ++ "s")%string
              /\ In (term1 c, term1_count c) term_counts
              /\ In (term2 c, term2_count c) term_counts
              /\ (term2_count c <= term1_count c)%Z
              /\ suggestion c = None
              /\ mem (lower (term1 c)) ignore_terms = false
              /\ mem (lower (term2 c)) ignore_terms = false)
           (find_stem_variations_with set_list term_counts term_occurrences ignore_terms).
Proof.
  intros sl tc occ ign. rewrite find_stem_variations_groups.
  apply Forall_flat_map, Forall_forall. intros [k vs] Hin. cbn [snd].
  apply group_fold_spec in Hin.
  destruct (1 <? length vs)%nat; [ | constructor ]. cbv zeta.
  destruct (_ && _); [ constructor | ].
  destruct (sort_desc count_lt vs) as [|mc rest] eqn:Es; [ constructor | ].
  apply sort_desc_count_head in Es. destruct Es as [Hmc [Hrest _]].
  apply Forall_flat_map. rewrite Forall_forall in *. intros x Hx.
  destruct (Hrest x Hx) as [Hxin Hle].
  rewrite Hin in Hmc, Hxin. apply filter_In in Hmc, Hxin.
  destruct Hmc as [Hmc1 Hmc2], Hxin as [Hx1 Hx2].
  apply stem_key_inv in Hmc2, Hx2.
  destruct Hmc2 as [M1 [M2 M3]], Hx2 as [X1 [X2 X3]].
  rewrite simple_stem_lower in M3, X3.
  destruct (String.eqb (lower (fst x)) (lower (fst mc) ++ "s")) eqn:E1; [ constructor | ].
  destruct (String.eqb (lower (fst mc)) (lower (fst x) ++ "s")) eqn:E2; [ constructor | ].
  apply String.eqb_neq in E1, E2.
  constructor; [ | constructor ].
  destruct mc as [t1 c1], x as [t2 c2]. unfold candidate.
  cbn [fst snd term1 term2 term1_count term2_count reason suggestion] in *.
  repeat split; try assumption; congruence.
Qed.

Lemma find_hyphenation_variants_groups : forall tc occ ign,
    find_hyphenation_variants tc occ ign
    = flat_map
        (fun kv =>
           let hyphenated := filter (fun tc => has_char "-" (fst tc)) (snd kv) in
           let non_hyphenated :=
             filter (fun tc => negb (has_char "-" (fst tc))) (snd kv) in
           if negb (is_empty hyphenated) && negb (is_empty non_hyphenated) then
             match sort_desc count_lt (hyphenated ++ non_hyphenated) with
             | [] => []
             | most_common :: rest =>
                 flat_map
                   (fun tc =>
                      if String.eqb (lower (fst tc)) (lower (fst most_common)) then []
                      else
                        [candidate (fst most_common) (snd most_common)
                                   (occurrences_of occ (fst most_common))
                                   (fst tc) (snd tc) (occurrences_of occ (fst tc))
                                   "hyphenation_variant" (Some (fst most_common))])
                   rest
             end
           else [])
        (fold_left (group_step (hyphen_key ign)) tc []).
Proof.
  intros. unfold find_hyphenation_variants. cbv zeta. f_equal.
  apply fold_left_pointwise. intros st x. unfold group_step, hyphen_key.
  destruct (mem (lower (fst x)) ign); [ reflexivity | ].
  now destruct (has_char "-" (fst x) || (6 <? len (fst x))%nat).
Qed.

Lemma has_char_lower_hyphen : forall s, has_char "-" (lower s) = has_char "-" s.
Proof.
  induction s as [|c s IH]; simpl; [ reflexivity | ].
  now rewrite lower_char_eqb_hyphen, IH.
Qed.

Lemma has_char_lower_blank : forall s, has_char " " (lower s) = has_char " " s.
Proof.
  induction s as [|c s IH]; simpl; [ reflexivity | ].
  now rewrite lower_char_eqb_blank, IH.
Qed.

Lemma remove_char_absent : forall c s, has_char c s = false -> remove_char c s = s.
Proof.
  intros c s. induction s as [|d s IH]; simpl; [ reflexivity | ].
  intros H. apply orb_false_iff in H. destruct H as [H1 H2].
  now rewrite H1, IH.
Qed.

Lemma normalize_compound_plain : forall t,
    has_char "-" t = false -> has_char " " t = false ->
    normalize_compound t = lower t.
Proof.
  intros t H1 H2. unfold normalize_compound.
  rewrite (remove_char_absent "-") by now rewrite has_char_lower_hyphen.
  apply remove_char_absent. now rewrite has_char_lower_blank.
Qed.

(** X16: every candidate of [find_hyphenation_variants] pairs two entries
    of the table that are not ignored, have the same normal form and
    differ in lowercase, so that at least one of them holds a hyphen or a
    blank; the first is at least as frequent as the second and is the
    suggestion. *)
Theorem hyphenation_variants_sound :
  forall (term_counts : Counter) (term_occurrences : OccMap) (ignore_terms : list string),
    Forall (fun c =>
              reason c = "hyphenation_variant"
              /\ normalize_compound (term1 c) = normalize_compound (term2 c)
              /\ lower (term1 c) <> lower (term2 c)
              /\ has_char "-" (term1 c) || has_char " " (term1 c)
                 || has_char "-" (term2 c) || has_char " " (term2 c) = true
              /\ In (term1 c, term1_count c) term_counts
              /\ In (term2 c, term2_count c) term_counts
              /\ (term2_count c <= term1_count c)%Z
              /\ suggestion c = Some (term1 c)
              /\ mem (lower (term1 c)) ignore_terms = false
              /\ mem (lower (term2 c)) ignore_terms = false)
           (find_hyphenation_variants term_counts term_occurrences ignore_terms).
Proof.
  intros tc occ ign. rewrite find_hyphenation_variants_groups.
  apply Forall_flat_map, Forall_forall. intros [k vs] Hin. cbn [snd]. cbv zeta.
  apply group_fold_spec in Hin.
  destruct (_ && _); [ | constructor ].
  destruct (sort_desc count_lt _) as [|mc rest] eqn:Es; [ constructor | ].
  apply sort_desc_count_head in Es. destruct Es as [Hmc [Hrest _]].
  assert (Hvs : forall x,
             In x (filter (fun tc => has_char "-" (fst tc)) vs
                   ++ filter (fun tc => negb (has_char "-" (fst tc))) vs) ->
             In x tc /\ has_key (hyphen_key ign) k x = true).
  { intros x Hx.
    apply (Permutation_in _ (filter_partition_perm _ (fun tc => has_char "-" (fst tc)) vs))
      in Hx.
    rewrite Hin in Hx. now apply filter_In in Hx. }
  apply Forall_flat_map. rewrite Forall_forall in *. intros x Hx.
  destruct (Hrest x Hx) as [Hxin Hle].
  destruct (Hvs _ Hmc) as [Hmc1 Hmc2]. destruct (Hvs _ Hxin) as [Hx1 Hx2].
  apply hyphen_key_inv in Hmc2, Hx2.
  destruct Hmc2 as [M1 [_ M3]], Hx2 as [X1 [_ X3]].
  destruct (String.eqb (lower (fst x)) (lower (fst mc))) eqn:E; [ constructor | ].
  apply String.eqb_neq in E.
  constructor; [ | constructor ].
  destruct mc as [t1 c1], x as [t2 c2]. unfold candidate.
  cbn [fst snd term1 term2 term1_count term2_count reason suggestion] in *.
  assert (Hne : lower t1 <> lower t2) by congruence.
  repeat split; try assumption; try congruence.
  destruct (has_char "-" t1) eqn:A1; [ reflexivity | ].
  destruct (has_char " " t1) eqn:A2; [ reflexivity | ].
  destruct (has_char "-" t2) eqn:A3; [ reflexivity | ].
  destruct (has_char " " t2) eqn:A4; [ reflexivity | ].
  exfalso. apply Hne.
  rewrite <- (normalize_compound_plain t1 A1 A2), <- (normalize_compound_plain t2 A3 A4).
  congruence.
Qed.

(** X17: on a table with distinct keys, the two terms of every candidate
    of [find_case_variations] and of [find_stem_variations] are different
    surface forms. *)
Theorem variations_distinct :
  forall (set_list : list string -> list string)
         (term_counts : Counter) (term_occurrences : OccMap) (ignore_terms : list string),
    NoDup (map fst term_counts) ->
    Forall (fun c => term1 c <> term2 c)
           (find_case_variations term_counts term_occurrences ignore_terms)
    /\ Forall (fun c => term1 c <> term2 c)
              (find_stem_variations_with set_list term_counts term_occurrences
                                         ignore_terms).
Proof.
  intros sl tc occ ign Hnd.
  assert (Hentries : NoDup tc) by (eapply NoDup_map_inv; exact Hnd).
  assert (Hdiff : forall sel k mc rest,
             sort_desc count_lt (filter (has_key sel k) tc) = mc :: rest ->
             forall x, In x rest -> fst mc <> fst x).
  { intros sel k mc rest Es x Hx E.
    apply sort_desc_count_head in Es. destruct Es as [Hmc [Hrest Hnot]].
    rewrite Forall_forall in Hrest. destruct (Hrest x Hx) as [Hxin _].
    apply filter_In in Hmc, Hxin. destruct Hmc as [Hmc _], Hxin as [Hxin _].
    apply Hnot; [ now apply NoDup_filter | ].
    replace mc with x; [ exact Hx | ].
    destruct mc as [t1 c1], x as [t2 c2]. cbn in E. subst t2.
    f_equal.
    assert (G : forall (l : list (string * Z)) t a b,
               NoDup (map fst l) -> In (t, a) l -> In (t, b) l -> a = b).
    { clear. induction l as [|[t0 c0] l IH]; intros t a b Hn Ha Hb; [ destruct Ha | ].
      simpl in Hn. inversion Hn as [|? ? Hnot Hn']; subst.
      destruct Ha as [Ha | Ha], Hb as [Hb | Hb].
      - congruence.
      - injection Ha as -> ->. exfalso. apply Hnot. apply in_map_iff. now exists (t, b).
      - injection Hb as -> ->. exfalso. apply Hnot. apply in_map_iff. now exists (t, a).
      - now apply (IH t). }
    now apply (G tc t1). }
  split.
  - rewrite find_case_variations_groups.
    apply Forall_flat_map, Forall_forall. intros [k vs] Hin. cbn [snd].
    apply group_fold_spec in Hin. subst vs.
    destruct (1 <? length _)%nat; [ | constructor ].
    destruct (sort_desc count_lt _) as [|mc rest] eqn:Es; [ constructor | ].
    apply Forall_map, Forall_forall. intros x Hx. cbn.
    now apply (Hdiff _ _ _ _ Es).
  - rewrite find_stem_variations_groups.
    apply Forall_flat_map, Forall_forall. intros [k vs] Hin. cbn [snd].
    apply group_fold_spec in Hin. subst vs.
    destruct (1 <? length _)%nat; [ | constructor ]. cbv zeta.
    destruct (_ && _); [ constructor | ].
    destruct (sort_desc count_lt _) as [|mc rest] eqn:Es; [ constructor | ].
    apply Forall_flat_map, Forall_forall. intros x Hx.
    destruct (String.eqb _ _); [ constructor | ].
    destruct (String.eqb _ _); [ constructor | ].
    constructor; [ | constructor ]. cbn.
    now apply (Hdiff _ _ _ _ Es).
Qed.

Lemma variations_distinct_witness :
  NoDup (map fst [("Python", 3%Z); ("python", 2%Z)])
  /\ Forall (fun c => term1 c <> term2 c)
            (find_case_variations [("Python", 3%Z); ("python", 2%Z)] [] []).
Proof.
  assert (H : NoDup (map fst [("Python", 3%Z); ("python", 2%Z)])).
  { simpl. nodup_literals. }
  split; [ exact H | ].
  exact (proj1 (variations_distinct (fun l => l)
                  [("Python", 3%Z); ("python", 2%Z)] [] [] H)).
Defined.

(** ** Abbreviations *)

Lemma dict_find_set : forall (V : Type) k (v : V) d k',
    dict_find (dict_set k v d) k'
    = if String.eqb k k' then Some v else dict_find d k'.
Proof.
  intros V k v d k'. induction d as [|[k0 v0] r IH]; simpl.
  - reflexivity.
  - destruct (String.eqb k0 k) eqn:E0; simpl.
    + apply String.eqb_eq in E0. subst k0.
      now destruct (String.eqb k k').
    + rewrite IH. destruct (String.eqb k0 k') eqn:E1; [ | reflexivity ].
      apply String.eqb_eq in E1. subst k'.
      rewrite String.eqb_sym in E0. now rewrite E0.
Qed.

Lemma fold_set_find : forall (A V : Type) (f : A -> string) (g : A -> V) l d0 k,
    dict_find (fold_left (fun d x => dict_set (f x) (g x) d) l d0) k
    = match find (fun x => String.eqb (f x) k) (rev l) with
      | Some x => Some (g x)
      | None => dict_find d0 k
      end.
Proof.
  intros A V f g l. induction l as [|a l IH] using rev_ind; intros d0 k.
  - reflexivity.
  - rewrite fold_left_app, rev_app_distr. simpl.
    rewrite dict_find_set. destruct (String.eqb (f a) k); [ reflexivity | apply IH ].
Qed.

Lemma find_rev_last : forall (A : Type) (p : A -> bool) l x,
    find p (rev l) = Some x ->
    exists l1 l2, l = l1 ++ x :: l2 /\ p x = true /\ Forall (fun y => p y = false) l2.
Proof.
  intros A p l. induction l as [|a l IH] using rev_ind; intros x H.
  - discriminate.
  - rewrite rev_app_distr in H. simpl in H.
    destruct (p a) eqn:E.
    + injection H as <-. exists l, []. now repeat split.
    + destruct (IH x H) as [l1 [l2 [E1 [E2 E3]]]].
      exists l1, (l2 ++ [a]). subst l. rewrite <- app_assoc. repeat split; auto.
      apply Forall_app. split; [ assumption | now constructor ].
Qed.

Lemma find_none_rev : forall (A : Type) (p : A -> bool) l,
    find p (rev l) = None -> forall x, In x l -> p x = false.
Proof.
  intros A p l H x Hx. apply in_rev in Hx.
  now apply (find_none _ _ H).
Qed.

Lemma dict_find_as_find : forall (V : Type) (d : list (string * V)) k,
    dict_find d k
    = match find (fun kv => String.eqb (fst kv) k) d with
      | Some kv => Some (snd kv)
      | None => None
      end.
Proof.
  intros V d k. induction d as [|[k0 v0] r IH]; simpl; [ reflexivity | ].
  now destruct (String.eqb k0 k).
Qed.

Lemma dict_find_in : forall (V : Type) (d : list (string * V)) k v,
    dict_find d k = Some v -> In (k, v) d.
Proof.
  intros V d k v. induction d as [|[k0 v0] r IH]; simpl; [ discriminate | ].
  destruct (String.eqb k0 k) eqn:E.
  - apply String.eqb_eq in E. intros H. injection H as ->. subst. now left.
  - intros H. right. now apply IH.
Qed.

Lemma in_dict_find : forall (V : Type) (d : list (string * V)) k v,
    NoDup (map fst d) -> In (k, v) d -> dict_find d k = Some v.
Proof.
  intros V d k v. induction d as [|[k0 v0] r IH]; simpl; intros Hn H; [ destruct H | ].
  inversion Hn as [|? ? Hnot Hn']; subst.
  destruct H as [H | H].
  - injection H as -> ->. now rewrite String.eqb_refl.
  - destruct (String.eqb k0 k) eqn:E; [ | now apply IH ].
    apply String.eqb_eq in E. subst k0. exfalso. apply Hnot.
    apply in_map_iff. now exists (k, v).
Qed.

Lemma dict_set_keys : forall (V : Type) k (v : V) d,
    map fst (dict_set k v d)
    = if dict_mem d k then map fst d else map fst d ++ [k].
Proof.
  intros V k v d. unfold dict_mem. induction d as [|[k0 v0] r IH]; simpl.
  - reflexivity.
  - destruct (String.eqb k0 k) eqn:E; simpl; [ reflexivity | ].
    rewrite IH. now destruct (existsb _ r).
Qed.

Lemma dict_mem_keys : forall (V : Type) (d : list (string * V)) k,
    dict_mem d k = true <-> In k (map fst d).
Proof.
  intros V d k. unfold dict_mem. rewrite existsb_exists, in_map_iff. split.
  - intros [x [H1 H2]]. apply String.eqb_eq in H2. now exists x.
  - intros [x [H1 H2]]. exists x. split; [ assumption | ]. now apply String.eqb_eq.
Qed.

Lemma merge_keys : forall (l d0 : list (string * string)),
    NoDup (map fst d0) ->
    let d := fold_left (fun d kv => dict_set (fst kv) (snd kv) d) l d0 in
    NoDup (map fst d)
    /\ exists extra,
        map fst d = map fst d0 ++ extra
        /\ Forall (fun k => In k (map fst l) /\ ~ In k (map fst d0)) extra.
Proof.
  intros l. induction l as [|a l IH] using rev_ind; intros d0 Hn; cbv zeta.
  - simpl. split; [ assumption | ]. exists []. now rewrite app_nil_r.
  - rewrite fold_left_app. simpl.
    destruct (IH d0 Hn) as [H1 [extra [H2 H3]]]. cbv zeta in *.
    rewrite dict_set_keys.
    destruct (dict_mem _ (fst a)) eqn:E.
    + split; [ assumption | ]. exists extra. split; [ assumption | ].
      eapply Forall_impl; [ | exact H3 ]. intros k [K1 K2]. split; [ | assumption ].
      rewrite map_app, in_app_iff. now left.
    + assert (Hnot : ~ In (fst a) (map fst (fold_left
                 (fun d kv => dict_set (fst kv) (snd kv) d) l d0))).
      { intros H. apply dict_mem_keys in H. congruence. }
      split.
      * apply NoDup_app; [ assumption | repeat constructor; intros [] | ].
        intros x Hx [<- | []]. now apply Hnot.
      * exists (extra ++ [fst a]). rewrite H2, app_assoc. split; [ reflexivity | ].
        apply Forall_app. split.
        -- eapply Forall_impl; [ | exact H3 ]. intros k [K1 K2]. split; [ | assumption ].
           rewrite map_app, in_app_iff. now left.
        -- constructor; [ | constructor ]. split.
           ++ rewrite map_app, in_app_iff. right. now left.
           ++ intros H. apply Hnot. rewrite H2, in_app_iff. now left.
Qed.

Lemma known_abbreviations_keys : NoDup (map fst KNOWN_ABBREVIATIONS).
Proof.
  assert (E : nodup string_dec (map fst KNOWN_ABBREVIATIONS)
               = map fst KNOWN_ABBREVIATIONS) by (vm_compute; reflexivity).
  rewrite <- E. apply NoDup_nodup.
Qed.

(** X18: the abbreviation table that [find_abbreviations] consults binds a
    key to its domain-specific expansion when the configuration gives one
    (the last one given), and to the built-in expansion otherwise; its
    keys are distinct, the built-in keys come first in their own order and
    the keys that follow are new domain-specific ones. *)
Theorem all_abbreviations_merge : forall (config : TerminologyConfig),
    (forall k,
        dict_find (all_abbreviations config) k
        = match dict_find (rev (domain_abbreviations config)) k with
          | Some v => Some v
          | None => dict_find KNOWN_ABBREVIATIONS k
          end)
    /\ NoDup (map fst (all_abbreviations config))
    /\ exists extra,
        map fst (all_abbreviations config) = map fst KNOWN_ABBREVIATIONS ++ extra
        /\ Forall (fun k => In k (map fst (domain_abbreviations config))
                            /\ ~ In k (map fst KNOWN_ABBREVIATIONS)) extra.
Proof.
  intros config. split.
  - intros k. unfold all_abbreviations.
    rewrite (fold_set_find _ _ fst snd), (dict_find_as_find _ (rev _)).
    now destruct (find _ (rev (domain_abbreviations config))).
  - exact (merge_keys (domain_abbreviations config) KNOWN_ABBREVIATIONS
                      known_abbreviations_keys).
Qed.

Lemma terms_lookup : forall (term_counts : Counter) k e,
    dict_find (fold_left (fun d tc => dict_set (lower (fst tc)) tc d) term_counts []) k
    = Some e ->
    lower (fst e) = k /\ last_of_its_case term_counts e.
Proof.
  intros tc k e H.
  rewrite (fold_set_find _ _ (fun tc => lower (fst tc)) (fun tc => tc)) in H.
  destruct (find _ (rev tc)) as [x|] eqn:F; [ | discriminate ].
  injection H as ->.
  apply find_rev_last in F. destruct F as [l1 [l2 [E1 [E2 E3]]]].
  apply String.eqb_eq in E2. split; [ assumption | ].
  exists l1, l2. split; [ assumption | ].
  eapply Forall_impl; [ | exact E3 ]. cbv beta. intros y Hy.
  apply String.eqb_neq in Hy. congruence.
Qed.

Lemma terms_lookup_some : forall (term_counts : Counter) e,
    In e term_counts ->
    exists e',
      dict_find (fold_left (fun d tc => dict_set (lower (fst tc)) tc d) term_counts [])
                (lower (fst e)) = Some e'.
Proof.
  intros tc e He.
  rewrite (fold_set_find _ _ (fun tc => lower (fst tc)) (fun tc => tc)).
  destruct (find _ (rev tc)) as [x|] eqn:F; [ now exists x | ].
  pose proof (find_none_rev _ _ _ F e He) as H. cbv beta in H.
  now rewrite String.eqb_refl in H.
Qed.

(** X19: every candidate of [find_abbreviations] has the reason
    "abbreviation"; its first term matches, in lowercase, the key of an
    entry of the abbreviation table and its second term the expansion of
    that entry; each term, with its count, is the last entry of the term
    table among those equal to it in lowercase; the suggestion is the
    abbreviation when it is strictly more frequent and the expansion
    otherwise. *)
Theorem abbreviations_sound :
  forall (term_counts : Counter) (term_occurrences : OccMap) (config : TerminologyConfig),
    Forall (fun c =>
              reason c = "abbreviation"
              /\ (exists abbrev expansion,
                     In (abbrev, expansion) (all_abbreviations config)
                     /\ lower (term1 c) = lower abbrev
                     /\ lower (term2 c) = lower expansion)
              /\ last_of_its_case term_counts (term1 c, term1_count c)
              /\ last_of_its_case term_counts (term2 c, term2_count c)
              /\ suggestion c
                 = Some (if (term2_count c <? term1_count c)%Z
                         then term1 c else term2 c))
           (find_abbreviations term_counts term_occurrences config).
Proof.
  intros tc occ config. unfold find_abbreviations. cbv zeta.
  apply Forall_flat_map, Forall_forall. intros [a e] Hin. cbn [fst snd].
  destruct (dict_find _ (lower a)) as [[t1 c1]|] eqn:F1; [ | constructor ].
  destruct (dict_find _ (lower e)) as [[t2 c2]|] eqn:F2; [ | constructor ].
  apply terms_lookup in F1, F2. destruct F1 as [A1 A2], F2 as [B1 B2].
  constructor; [ | constructor ]. unfold candidate.
  cbn [fst snd term1 term2 term1_count term2_count reason suggestion] in *.
  repeat split; try assumption.
  now exists a, e.
Qed.

(** X20: when the term table holds a term that matches, in lowercase, the
    key of an entry of the abbreviation table, and a term that matches its
    expansion, [find_abbreviations] reports a candidate for that pair of
    lowercase forms, abbreviation first; the ignore list plays no part. *)
Theorem abbreviations_complete :
  forall (term_counts : Counter) (term_occurrences : OccMap) (config : TerminologyConfig)
         (abbrev expansion : string) (e1 e2 : string * Z),
    In (abbrev, expansion) (all_abbreviations config) ->
    In e1 term_counts -> lower (fst e1) = lower abbrev ->
    In e2 term_counts -> lower (fst e2) = lower expansion ->
    exists c,
      In c (find_abbreviations term_counts term_occurrences config)
      /\ lower (term1 c) = lower abbrev
      /\ lower (term2 c) = lower expansion.
Proof.
  intros tc occ config a e e1 e2 Hin H1 L1 H2 L2.
  destruct (terms_lookup_some tc e1 H1) as [[t1 c1] F1].
  destruct (terms_lookup_some tc e2 H2) as [[t2 c2] F2].
  rewrite L1 in F1. rewrite L2 in F2.
  exists (candidate t1 c1 (occurrences_of occ t1) t2 c2 (occurrences_of occ t2)
                    "abbreviation"
                    (Some (if (c2 <? c1)%Z then t1 else t2))).
  split.
  - unfold find_abbreviations. cbv zeta. apply in_flat_map.
    exists (a, e). split; [ assumption | ]. cbn [fst snd].
    rewrite F1, F2. now left.
  - apply terms_lookup in F1, F2. cbn [fst] in *. unfold candidate.
    cbn [term1 term2]. now split; [ apply F1 | apply F2 ].
Qed.

Lemma abbreviations_complete_witness :
  exists c,
    In c (find_abbreviations [("Config", 2%Z); ("configuration", 5%Z)] [] default_config)
    /\ lower (term1 c) = lower "config"
    /\ lower (term2 c) = lower "configuration".
Proof.
  apply (abbreviations_complete [("Config", 2%Z); ("configuration", 5%Z)] []
           default_config "config" "configuration"
           ("Config", 2%Z) ("configuration", 5%Z)).
  - vm_compute. left. reflexivity.
  - simpl. left. reflexivity.
  - reflexivity.
  - simpl. right. left. reflexivity.
  - reflexivity.
Defined.

(** ** The most common terms *)

Lemma firstn_skipn_sorted : forall (l : list (string * Z)) n,
    StronglySorted count_ge l ->
    StronglySorted count_ge (firstn n l)
    /\ Forall (fun r => Forall (fun t => (snd r <= snd t)%Z) (firstn n l)) (skipn n l).
Proof.
  intros l n H. rewrite <- (firstn_skipn n l) in H.
  revert H. generalize (firstn n l) as a, (skipn n l) as b.
  induction a as [|x a IH]; intros b H; simpl in *.
  - split; [ constructor | ]. apply Forall_forall. intros; constructor.
  - inversion H as [|? ? Hs Hf]; subst. apply Forall_app in Hf. destruct Hf as [Hf1 Hf2].
    destruct (IH b Hs) as [I1 I2]. split.
    + now constructor.
    + rewrite Forall_forall in *. intros r Hr. constructor.
      * exact (Hf2 r Hr).
      * now apply I2.
Qed.

(** X21: the table of most common terms of the result holds fifty
    entries, or all of them when there are fewer; it is in non-increasing
    order of count, no entry left out is more frequent than an entry kept,
    and entries with equal counts keep the order of the term table. *)
Theorem most_common_terms :
  forall (set_list : list string -> list string)
         (term_counts : Counter) (term_occurrences : OccMap)
         (bigram_counts : Counter) (bigram_occurrences : OccMap)
         (config : TerminologyConfig),
    let top :=
      term_counts_top
        (check_tables_with set_list term_counts term_occurrences
                           bigram_counts bigram_occurrences config) in
    length top = Nat.min 50 (length term_counts)
    /\ StronglySorted count_ge top
    /\ (exists rest,
           Permutation term_counts (top ++ rest)
           /\ Forall (fun r => Forall (fun t => (snd r <= snd t)%Z) top) rest)
    /\ (forall x y, before top x y -> snd x = snd y -> before term_counts x y).
Proof.
  intros sl tc occ bc bo config. unfold check_tables_with. cbv zeta.
  cbn [term_counts_top].
  destruct (firstn_skipn_sorted (sort_desc count_lt tc) 50
              (sort_desc_count_sorted tc)) as [H1 H2].
  repeat split.
  - rewrite length_firstn. f_equal.
    apply Permutation_length, sort_desc_perm.
  - exact H1.
  - exists (skipn 50 (sort_desc count_lt tc)). split; [ | exact H2 ].
    rewrite firstn_skipn. apply Permutation_sym, sort_desc_perm.
  - intros x y [l1 [l2 [l3 E]]] Hxy.
    apply (sort_desc_stable count_lt).
    + exists l1, l2, (l3 ++ skipn 50 (sort_desc count_lt tc)).
      rewrite <- (firstn_skipn 50 (sort_desc count_lt tc)) at 1.
      rewrite E, <- !app_assoc. simpl. now rewrite <- app_assoc.
    + unfold count_lt. rewrite Hxy. apply Z.ltb_irrefl.
Qed.

(** ** Terms within a small edit distance *)




Lemma levenshtein_step_inv :
  forall (P : CandidatePair -> Prop) occ ign maxd t1 c1 (st : GenState) tc,
    (mem (lower (fst tc)) ign = false ->
     4 <= len t1 -> 4 <= len (fst tc) ->
     (0 < levenshtein_distance (lower t1) (lower (fst tc)) <= maxd)%Z ->
     P (candidate t1 c1 (occurrences_of occ t1)
                  (fst tc) (snd tc) (occurrences_of occ (fst tc))
                  ("levenshtein_distance_"
                     ++ str_of_Z (levenshtein_distance (lower t1) (lower (fst tc))))
                  None)) ->
    Forall P (fst st) /\ snd st = map pair_key_of (fst st) /\ NoDup (snd st) ->
    Forall P (fst (levenshtein_pair_step occ ign maxd t1 c1 st tc))
    /\ snd (levenshtein_pair_step occ ign maxd t1 c1 st tc)
       = map pair_key_of (fst (levenshtein_pair_step occ ign maxd t1 c1 st tc))
    /\ NoDup (snd (levenshtein_pair_step occ ign maxd t1 c1 st tc)).
Proof.
  intros P occ ign maxd t1 c1 st tc HP [H1 [H2 H3]].
  unfold levenshtein_pair_step. cbv zeta.
  destruct (mem (lower (fst tc)) ign) eqn:E1; [ now repeat split | ].
  destruct (String.eqb (lower t1) (lower (fst tc))); [ now repeat split | ].
  destruct (maxd <? _)%Z; [ now repeat split | ].
  destruct ((len t1 <? 4)%nat || (len (fst tc) <? 4)%nat) eqn:E4; [ now repeat split | ].
  apply orb_false_iff in E4. destruct E4 as [E4 E5].
  apply Nat.ltb_ge in E4, E5.
  destruct ((0 <? _)%Z && (_ <=? maxd)%Z) eqn:E6; [ | now repeat split ].
  apply andb_true_iff in E6. destruct E6 as [E6 E7].
  apply Z.ltb_lt in E6. apply Z.leb_le in E7.
  destruct (pair_mem _ (snd st)) eqn:E8; [ now repeat split | ].
  cbn [fst snd]. repeat split.
  - apply Forall_app. split; [ assumption | ].
    constructor; [ | constructor ]. apply HP; auto.
  - rewrite map_app, H2. reflexivity.
  - apply NoDup_app; [ assumption | repeat constructor; intros [] | ].
    intros k Hk [<- | []]. apply pair_mem_in in Hk. congruence.
Qed.

Lemma levenshtein_scan_inv :
  forall (P : CandidatePair -> Prop) occ ign maxd (table : Counter),
    (forall t1 c1 t2 c2,
        before table (t1, c1) (t2, c2) ->
        mem (lower t1) ign = false -> mem (lower t2) ign = false ->
        4 <= len t1 -> 4 <= len t2 ->
        (0 < levenshtein_distance (lower t1) (lower t2) <= maxd)%Z ->
        P (candidate t1 c1 (occurrences_of occ t1) t2 c2 (occurrences_of occ t2)
                     ("levenshtein_distance_"
                        ++ str_of_Z (levenshtein_distance (lower t1) (lower t2)))
                     None)) ->
    forall terms (st : GenState),
      (forall x y, before terms x y -> before table x y) ->
      Forall P (fst st) /\ snd st = map pair_key_of (fst st) /\ NoDup (snd st) ->
      Forall P (fst (levenshtein_scan occ ign maxd terms st))
      /\ snd (levenshtein_scan occ ign maxd terms st)
         = map pair_key_of (fst (levenshtein_scan occ ign maxd terms st))
      /\ NoDup (snd (levenshtein_scan occ ign maxd terms st)).
Proof.
  intros P occ ign maxd table HP terms.
  induction terms as [|[t1 c1] rest IH]; intros st Hsub Hst; simpl.
  - exact Hst.
  - assert (Hrest : forall x y, before rest x y -> before table x y)
      by (intros x y H; now apply Hsub, before_cons).
    destruct (mem (lower t1) ign) eqn:E1; [ now apply IH | ].
    apply IH; [ exact Hrest | ].
    apply (fold_left_invariant_in _ _
             (fun st : GenState =>
                Forall P (fst st) /\ snd st = map pair_key_of (fst st)
                /\ NoDup (snd st))); [ | exact Hst ].
    intros st' [t2 c2] Hin Hst'. apply levenshtein_step_inv; [ | exact Hst' ].
    cbn [fst snd]. intros. apply HP; auto.
    apply Hsub. now apply before_head.
Qed.

(** X22: every candidate of [find_levenshtein_similar] pairs an entry of
    the term table with a later one; neither term is ignored, both have at
    least four characters, the distance between their lowercase forms is
    positive and at most [max_distance], and the reason names that very
    distance; no suggestion is made.  No two candidates have the same
    unordered pair of lowercase terms. *)
Theorem levenshtein_similar_sound :
  forall (term_counts : Counter) (term_occurrences : OccMap)
         (ignore_terms : list string) (max_distance : Z),
    Forall (fun c =>
              before term_counts (term1 c, term1_count c) (term2 c, term2_count c)
              /\ mem (lower (term1 c)) ignore_terms = false
              /\ mem (lower (term2 c)) ignore_terms = false
              /\ 4 <= len (term1 c) /\ 4 <= len (term2 c)
              /\ (0 < levenshtein_distance (lower (term1 c)) (lower (term2 c))
                  <= max_distance)%Z
              /\ reason c
                 = ("levenshtein_distance_"
                      ++ str_of_Z (levenshtein_distance (lower (term1 c))
                                                        (lower (term2 c))))%string
              /\ suggestion c = None)
           (find_levenshtein_similar term_counts term_occurrences
                                     ignore_terms max_distance)
    /\ NoDup (map pair_key_of
                  (find_levenshtein_similar term_counts term_occurrences
                                            ignore_terms max_distance)).
Proof.
  intros tc occ ign maxd. unfold find_levenshtein_similar.
  match goal with
  | |- Forall ?P _ /\ _ =>
      destruct (levenshtein_scan_inv P occ ign maxd tc) with (terms := tc)
                                                              (st := (@nil CandidatePair, @nil (string * string)))
        as [H1 [H2 H3]]
  end.
  - intros t1 c1 t2 c2 Hb M1 M2 L1 L2 D. unfold candidate.
    cbn [term1 term2 term1_count term2_count reason suggestion].
    now repeat split.
  - auto.
  - simpl. repeat split; constructor.
  - split; [ exact H1 | ]. now rewrite <- H2.
Qed.









(** ** Configured compound equivalents *)

Lemma insert_desc_key_sorted :
  forall (A : Type) (lt : A -> A -> bool) (key : A -> Z),
    (forall x y, lt x y = (key x <? key y)%Z) ->
    forall x l,
      StronglySorted (fun a b => (key b <= key a)%Z) l ->
      StronglySorted (fun a b => (key b <= key a)%Z) (insert_desc lt x l).
Proof.
  intros A lt key Hlt x l H. induction H as [|y l Hs IH Hy]; simpl.
  - repeat constructor.
  - rewrite Hlt. destruct (key x <? key y)%Z eqn:E.
    + constructor; [ exact IH | ].
      apply (Permutation_Forall (Permutation_sym (insert_desc_perm lt x l))).
      constructor; [ | exact Hy ]. apply Z.ltb_lt in E. lia.
    + apply Z.ltb_ge in E. constructor; [ now constructor | ].
      constructor; [ exact E | ].
      eapply Forall_impl; [ | exact Hy ]. cbv beta. intros z Hz. lia.
Qed.

Lemma sort_desc_key_head :
  forall (A : Type) (lt : A -> A -> bool) (key : A -> Z),
    (forall x y, lt x y = (key x <? key y)%Z) ->
    forall l mc rest,
      sort_desc lt l = mc :: rest ->
      In mc l /\ Forall (fun x => In x l /\ (key x <= key mc)%Z) rest.
Proof.
  intros A lt key Hlt l mc rest E.
  pose proof (sort_desc_perm lt l) as P. rewrite E in P.
  assert (S : StronglySorted (fun a b => (key b <= key a)%Z) (sort_desc lt l)).
  { clear E P. induction l as [|x l IH]; simpl; [ constructor | ].
    now apply (insert_desc_key_sorted A lt key Hlt). }
  rewrite E in S. inversion S as [|? ? _ Hall]; subst. split.
  - apply (Permutation_in _ P). now left.
  - rewrite Forall_forall in *. intros x Hx. split; [ | now apply Hall ].
    apply (Permutation_in _ P). now right.
Qed.

Lemma dict_get_listed : forall (V : Type) (d : list (string * V)) k v def,
    In (k, v) d -> In (k, dict_get d k def) d.
Proof.
  intros V d k v def. induction d as [|[k0 v0] r IH]; intros H; [ destruct H | ].
  simpl. destruct (String.eqb k0 k) eqn:E.
  - apply String.eqb_eq in E. subst k0. now left.
  - right. destruct H as [H | H]; [ | now apply IH ].
    injection H as -> ->. rewrite String.eqb_refl in E. discriminate.
Qed.

Lemma resolve_form_found : forall counts form kind f,
    In f (resolve_form counts form kind) ->
    lower (form_name f) = lower form
    /\ In (form_name f, form_count f) counts.
Proof.
  intros counts form kind f. unfold resolve_form.
  destruct (find _ counts) as [[k n]|] eqn:F; [ | intros [] ].
  intros [<- | []]. apply find_some in F. destruct F as [F1 F2].
  cbn [fst snd] in *. apply String.eqb_eq in F2.
  unfold form_name, form_count. cbn [fst snd]. split; [ exact F2 | ].
  now apply dict_get_listed with (v := n).
Qed.

(** X24: every candidate of [find_compound_variants] comes from a
    configured set of equivalent forms: its two terms match, in lowercase,
    two forms of one set; each is listed with its count in the bigram table
    when the form holds a blank and in the term table otherwise; the first
    is at least as frequent as the second and is the suggestion. *)
Theorem compound_variants_sound :
  forall (term_counts : Counter) (term_occurrences : OccMap)
         (bigram_counts : Counter) (bigram_occurrences : OccMap)
         (config : TerminologyConfig),
    Forall (fun c =>
              reason c = "compound_variant"
              /\ suggestion c = Some (term1 c)
              /\ (term2_count c <= term1_count c)%Z
              /\ exists equivalents form1 form2,
                  In equivalents (compound_equivalents config)
                  /\ In form1 equivalents /\ In form2 equivalents
                  /\ lower (term1 c) = lower form1
                  /\ lower (term2 c) = lower form2
                  /\ In (term1 c, term1_count c)
                        (if has_char " " form1 then bigram_counts else term_counts)
                  /\ In (term2 c, term2_count c)
                        (if has_char " " form2 then bigram_counts else term_counts))
           (find_compound_variants term_counts term_occurrences
                                   bigram_counts bigram_occurrences config).
Proof.
  intros tc tocc bc bocc cfg.
  destruct (compound_bigram_loop_idle tc tocc bc bocc cfg) as [E _]. rewrite E.
  match goal with
  | |- Forall ?P _ =>
      apply (fold_left_invariant_in _ _ (fun st : GenState => Forall P (fst st)));
        [ | constructor ]
  end.
  intros st eqs Heqs Hst. unfold compound_equivalents_step. cbv zeta.
  match goal with
  | |- context [sort_desc form_lt ?l] => set (found := l)
  end.
  assert (Hfound : forall f,
             In f found ->
             exists form,
               In form eqs /\ lower (form_name f) = lower form
               /\ In (form_name f, form_count f)
                     (if has_char " " form then bc else tc)).
  { intros f Hf. apply in_flat_map in Hf. destruct Hf as [form [H1 H2]].
    exists form. split; [ exact H1 | ].
    destruct (has_char " " form); now apply resolve_form_found in H2. }
  destruct (2 <=? length found)%nat; [ | exact Hst ].
  destruct (sort_desc form_lt found) as [|mc rest] eqn:Es; [ exact Hst | ].
  apply (sort_desc_key_head _ form_lt form_count (fun x y => eq_refl)) in Es.
  destruct Es as [Hmc Hrest]. rewrite Forall_forall in Hrest.
  match goal with
  | |- Forall ?P _ =>
      apply (fold_left_invariant_in _ _ (fun st : GenState => Forall P (fst st)));
        [ | exact Hst ]
  end.
  intros st' f Hf Hst'. cbv zeta.
  destruct (pair_mem _ (snd st')); [ exact Hst' | ].
  cbn [fst]. apply Forall_app. split; [ exact Hst' | ].
  constructor; [ | constructor ].
  destruct (Hrest f Hf) as [Hfin Hle].
  destruct (Hfound mc Hmc) as [form1 [A1 [A2 A3]]].
  destruct (Hfound f Hfin) as [form2 [B1 [B2 B3]]].
  unfold candidate. cbn [term1 term2 term1_count term2_count reason suggestion].
  repeat split; try assumption.
  exists eqs, form1, form2. now repeat split.
Qed.

(** ** What the extractors record *)

Lemma process_lines_nth : forall lines b i,
    i < length lines ->
    nth i (process_lines b lines) ""
    = if is_fence (nth i lines "") then ""
      else if xorb b (Nat.odd (length (filter is_fence (firstn i lines)))) then ""
           else clean_line (nth i lines "").
Proof.
  induction lines as [|l lines IH]; intros b i Hi; simpl in Hi; [ lia | ].
  destruct i as [|i].
  - simpl. unfold is_fence. destruct (startswith (strip l) "```"); [ reflexivity | ].
    now destruct b.
  - cbn [process_lines firstn filter nth]. unfold is_fence at 2.
    destruct (startswith (strip l) "```"); cbn [nth].
    + rewrite IH by lia. cbn [length]. rewrite Nat.odd_succ, <- Nat.negb_odd.
      destruct (is_fence (nth i lines "")); [ reflexivity | ].
      now destruct b, (Nat.odd _).
    + destruct b; cbn [nth]; now rewrite IH by lia.
Qed.

Lemma combine_seq_nth : forall (A : Type) (d : A) (l : list A) s i x,
    In (i, x) (combine (seq s (length l)) l) ->
    s <= i < s + length l /\ nth (i - s) l d = x.
Proof.
  intros A d l. induction l as [|a l IH]; intros s i x H; simpl in H; [ destruct H | ].
  destruct H as [H | H].
  - injection H as <- <-. rewrite Nat.sub_diag. simpl. split; [ lia | reflexivity ].
  - apply IH in H. destruct H as [H1 H2]. simpl. split; [ lia | ].
    destruct (i - s) as [|k] eqn:E; [ lia | ].
    replace k with (i - S s) by lia. exact H2.
Qed.

Lemma enumerate_nth : forall (A : Type) (d : A) (l : list A) i x,
    In (i, x) (enumerate l) -> i < length l /\ nth i l d = x.
Proof.
  intros A d l i x H. apply (combine_seq_nth A d) in H.
  rewrite Nat.sub_0_r in H. destruct H as [H1 H2]. split; [ lia | exact H2 ].
Qed.

Lemma visible_line : forall lines i line,
    In (i, line) (enumerate (process_lines false lines)) ->
    (len (strip line) =? 0)%nat = false ->
    i < length lines
    /\ outside_fences lines i = true
    /\ line = clean_line (nth i lines "").
Proof.
  intros lines i line Hin Hne.
  apply (enumerate_nth _ "") in Hin. rewrite process_lines_length in Hin.
  destruct Hin as [Hi Hnth]. rewrite process_lines_nth in Hnth by exact Hi.
  unfold outside_fences. split; [ exact Hi | ].
  destruct (is_fence (nth i lines "")).
  { subst line. discriminate. }
  cbn [xorb] in Hnth. rewrite <- Nat.negb_odd.
  destruct (Nat.odd _).
  { subst line. discriminate. }
  now split.
Qed.

Lemma group_add_keyed :
  forall (V : Type) (Q : string -> V -> Prop) k v (d : list (string * list V)),
    Q k v ->
    Forall (fun kv => Forall (Q (fst kv)) (snd kv)) d ->
    Forall (fun kv => Forall (Q (fst kv)) (snd kv)) (group_add k v d).
Proof.
  intros V Q k v d Hv H. induction H as [|[k' vs] d Hx Ht IH]; simpl.
  - repeat constructor. exact Hv.
  - destruct (String.eqb k' k) eqn:E; constructor; try assumption.
    apply String.eqb_eq in E. subst k'. cbn [fst snd] in *.
    apply Forall_app. split; [ exact Hx | now repeat constructor ].
Qed.

(** X25: every occurrence recorded by the extractors lies on a line
    outside every fenced code block, and its key was matched in what is
    left of that line once inline code, URLs and file paths are removed: a
    term is one match of the word pattern there, a bigram is made of two
    matches of the bigram word pattern, neither a stopword nor shorter than
    three characters. *)
Theorem occurrences_outside_fences : forall content : string,
    let lines := split_on newline content in
    Forall (fun ko =>
              Forall (fun o =>
                        exists i,
                          line_number o = (Z.of_nat i + 1)%Z
                          /\ i < length lines
                          /\ outside_fences lines i = true
                          /\ In (fst ko)
                                (re_findall m_term_word (clean_line (nth i lines ""))))
                     (snd ko))
           (snd (extract_terms_with_context content))
    /\ Forall (fun ko =>
                 Forall (fun o =>
                           exists i w1 w2,
                             line_number o = (Z.of_nat i + 1)%Z
                             /\ i < length lines
                             /\ outside_fences lines i = true
                             /\ fst ko = (w1 ++ " " ++ w2)%string
                             /\ In w1 (re_findall m_bigram_word
                                                  (clean_line (nth i lines "")))
                             /\ In w2 (re_findall m_bigram_word
                                                  (clean_line (nth i lines "")))
                             /\ mem (lower w1) STOPWORDS = false /\ 3 <= len w1
                             /\ mem (lower w2) STOPWORDS = false /\ 3 <= len w2)
                        (snd ko))
              (snd (extract_bigrams_with_context content)).
Proof.
  intros content lines. split.
  - unfold extract_terms_with_context. cbv zeta. fold lines.
    match goal with
    | |- Forall ?P _ =>
        apply (fold_left_invariant_in _ _ (fun st : Counter * OccMap => Forall P (snd st)));
          [ | constructor ]
    end.
    intros st [i line] Hin H. cbn [fst snd].
    destruct (len (strip line) =? 0)%nat eqn:Hne; [ exact H | ].
    destruct (visible_line lines i line Hin Hne) as [Hi [Hout Hline]].
    match goal with
    | |- Forall ?P _ =>
        apply (fold_left_invariant_in _ _ (fun st : Counter * OccMap => Forall P (snd st)));
          [ | exact H ]
    end.
    intros st' w Hw H'. destruct (_ && _); [ | exact H' ].
    unfold record_occurrence. cbn [snd].
    apply (group_add_keyed _
             (fun k o =>
                exists i,
                  line_number o = (Z.of_nat i + 1)%Z
                  /\ i < length lines
                  /\ outside_fences lines i = true
                  /\ In k (re_findall m_term_word (clean_line (nth i lines ""))))); 
      [ | exact H' ].
    exists i. cbn [line_number]. rewrite <- Hline. now repeat split.
  - unfold extract_bigrams_with_context. cbv zeta. fold lines.
    match goal with
    | |- Forall ?P _ =>
        apply (fold_left_invariant_in _ _ (fun st : Counter * OccMap => Forall P (snd st)));
          [ | constructor ]
    end.
    intros st [i line] Hin H. cbn [fst snd].
    destruct (len (strip line) =? 0)%nat eqn:Hne; [ exact H | ].
    destruct (visible_line lines i line Hin Hne) as [Hi [Hout Hline]].
    match goal with
    | |- Forall ?P _ =>
        apply (fold_left_invariant_in _ _ (fun st : Counter * OccMap => Forall P (snd st)));
          [ | exact H ]
    end.
    intros st' [w1 w2] Hw H'.
    unfold record_occurrence. cbn [fst snd].
    apply (group_add_keyed _
             (fun k o =>
                exists i w1 w2,
                  line_number o = (Z.of_nat i + 1)%Z
                  /\ i < length lines
                  /\ outside_fences lines i = true
                  /\ k = (w1 ++ " " ++ w2)%string
                  /\ In w1 (re_findall m_bigram_word (clean_line (nth i lines "")))
                  /\ In w2 (re_findall m_bigram_word (clean_line (nth i lines "")))
                  /\ mem (lower w1) STOPWORDS = false /\ 3 <= len w1
                  /\ mem (lower w2) STOPWORDS = false /\ 3 <= len w2));
      [ | exact H' ].
    assert (Hword : forall w,
               In w (filter (fun w => negb (mem (lower w) STOPWORDS) && (2 <? len w)%nat)
                            (re_findall m_bigram_word line)) ->
               In w (re_findall m_bigram_word (clean_line (nth i lines "")))
               /\ mem (lower w) STOPWORDS = false /\ 3 <= len w).
    { intros w Hf. apply filter_In in Hf. destruct Hf as [F1 F2].
      apply andb_true_iff in F2. destruct F2 as [F2 F3].
      apply negb_true_iff in F2. apply Nat.ltb_lt in F3.
      rewrite <- Hline. repeat split; [ exact F1 | exact F2 | lia ]. }
    pose proof (in_combine_l _ _ _ _ Hw) as Hw1.
    pose proof (in_combine_r _ _ _ _ Hw) as Hw2.
    assert (Hw2' : In w2 (filter (fun w => negb (mem (lower w) STOPWORDS)
                                           && (2 <? len w)%nat)
                                 (re_findall m_bigram_word line))).
    { destruct (filter _ (re_findall m_bigram_word line)); [ destruct Hw2 | ].
      now right. }
    destruct (Hword _ Hw1) as [A1 [A2 A3]]. destruct (Hword _ Hw2') as [B1 [B2 B3]].
    exists i, w1, w2. cbn [line_number]. now repeat split.
Qed.

(** ** Sections and sentence contexts *)

Lemma drop_zero : forall s, drop 0 s = s.
Proof. intros s. unfold drop, len. rewrite Nat.sub_0_r. apply substring_all. Qed.

Lemma drop_succ : forall n c s, drop (S n) (String c s) = drop n s.
Proof. intros. unfold drop, len. reflexivity. Qed.

Lemma run_split : forall p s,
    exists pre,
      s = (pre ++ drop (run p s) s)%string
      /\ all_chars p pre = true
      /\ len pre = run p s
      /\ run p (drop (run p s) s) = 0.
Proof.
  intros p s. induction s as [|c s IH]; simpl.
  - exists "". now repeat split.
  - destruct (p c) eqn:E.
    + destruct IH as [pre [H1 [H2 [H3 H4]]]]. exists (String c pre).
      rewrite drop_succ. simpl. rewrite E, H2. unfold len in *. simpl.
      repeat split; [ now rewrite <- H1 | congruence | exact H4 ].
    + exists "". rewrite drop_zero. simpl. rewrite E. now repeat split.
Qed.

Lemma strip_heading_split : forall line,
    startswith line "#" = true ->
    exists hashes blanks,
      line = (hashes ++ blanks ++ strip_heading line)%string
      /\ 1 <= len hashes
      /\ all_chars (fun d => Ascii.eqb d "#") hashes = true
      /\ all_chars is_space blanks = true
      /\ run is_space (strip_heading line) = 0.
Proof.
  intros line Hs. unfold strip_heading. cbv zeta.
  destruct (run_split (fun d => Ascii.eqb d "#") line) as [hashes [H1 [H2 [H3 _]]]].
  assert (Hpos : 1 <= run (fun d => Ascii.eqb d "#") line).
  { destruct line as [|c r]; [ discriminate | ].
    unfold startswith in Hs. cbn [prefix] in Hs.
    destruct (ascii_dec "#" c) as [<- | ]; [ simpl; lia | discriminate ]. }
  replace (0 <? run (fun d => Ascii.eqb d "#") line)%nat with true
    by (symmetry; apply Nat.ltb_lt; lia).
  destruct (run_split is_space (drop (run (fun d => Ascii.eqb d "#") line) line))
    as [blanks [B1 [B2 [_ B4]]]].
  exists hashes, blanks. repeat split; try assumption; try lia.
  now rewrite <- B1.
Qed.

(** X26: for a line index within the text, [get_current_section] answers
    "(no section)" when no line before the index is a heading; otherwise
    it answers for the nearest heading line before the index, whether or
    not that line is inside a fenced block, and the answer is what follows
    the leading "#" characters and the blanks after them on the stripped
    heading line. *)
Theorem current_section_nearest_heading :
  forall (lines : list string) (line_idx : nat),
    line_idx <= length lines ->
    (get_current_section lines line_idx = "(no section)"
     /\ Forall (fun l => startswith (strip l) "#" = false) (firstn line_idx lines))
    \/ exists above heading below hashes blanks,
        firstn line_idx lines = above ++ heading :: below
        /\ startswith (strip heading) "#" = true
        /\ Forall (fun l => startswith (strip l) "#" = false) below
        /\ strip heading
           = (hashes ++ blanks ++ get_current_section lines line_idx)%string
        /\ 1 <= len hashes
        /\ all_chars (fun d => Ascii.eqb d "#") hashes = true
        /\ all_chars is_space blanks = true
        /\ run is_space (get_current_section lines line_idx) = 0.
Proof.
  intros lines i _. unfold get_current_section.
  destruct (find _ (rev (firstn i lines))) as [h|] eqn:F.
  - right. apply find_rev_last in F. destruct F as [l1 [l2 [E1 [E2 E3]]]].
    destruct (strip_heading_split (strip h) E2) as [hashes [blanks [S1 [S2 [S3 [S4 S5]]]]]].
    exists l1, h, l2, hashes, blanks. now repeat split.
  - left. split; [ reflexivity | ].
    apply Forall_forall. intros l Hl.
    exact (find_none_rev _ _ _ F l Hl).
Qed.

Lemma current_section_nearest_heading_witness :
  1 <= length ["## Setup  "; "Install the tool."]
  /\ ((get_current_section ["## Setup  "; "Install the tool."] 1 = "(no section)"
       /\ Forall (fun l => startswith (strip l) "#" = false)
                 (firstn 1 ["## Setup  "; "Install the tool."]))
      \/ exists above heading below hashes blanks,
          firstn 1 ["## Setup  "; "Install the tool."] = above ++ heading :: below
          /\ startswith (strip heading) "#" = true
          /\ Forall (fun l => startswith (strip l) "#" = false) below
          /\ strip heading
             = (hashes ++ blanks
                  ++ get_current_section ["## Setup  "; "Install the tool."] 1)%string
          /\ 1 <= len hashes
          /\ all_chars (fun d => Ascii.eqb d "#") hashes = true
          /\ all_chars is_space blanks = true
          /\ run is_space (get_current_section ["## Setup  "; "Install the tool."] 1) = 0).
Proof.
  assert (H : 1 <= length ["## Setup  "; "Install the tool."]) by (simpl; lia).
  split; [ exact H | ].
  exact (current_section_nearest_heading ["## Setup  "; "Install the tool."] 1 H).
Defined.

Lemma len_substring : forall s n m, len (substring n m s) <= m.
Proof.
  unfold len. induction s as [|c s IH]; intros n m; simpl.
  - destruct n, m; simpl; lia.
  - destruct n as [|n].
    + destruct m as [|m]; simpl; [ lia | ]. specialize (IH 0 m). lia.
    + apply IH.
Qed.

Lemma len_lstrip : forall s, len (lstrip s) <= len s.
Proof.
  unfold len. induction s as [|c s IH]; simpl; [ lia | ].
  destruct (is_space c); simpl; lia.
Qed.

Lemma len_rstrip : forall s, len (rstrip s) <= len s.
Proof.
  unfold len. induction s as [|c s IH]; simpl; [ lia | ].
  destruct (rstrip s) as [|d r].
  - destruct (is_space c); simpl; lia.
  - simpl in *. lia.
Qed.

Lemma len_strip : forall s, len (strip s) <= len s.
Proof.
  intros s. unfold strip.
  pose proof (len_rstrip (lstrip s)). pose proof (len_lstrip s). lia.
Qed.

(** X27: the context that [get_sentence_context] returns is never longer
    than [max_chars] characters when the term does not occur in the line,
    and never longer than the term with thirty characters and an ellipsis
    on either side when it does. *)
Theorem sentence_context_length : forall (line term : string) (max_chars : nat),
    match find_from (lower term) (lower line) 0 with
    | None => len (get_sentence_context line term max_chars) <= max_chars
    | Some _ => len (get_sentence_context line term max_chars) <= len term + 66
    end.
Proof.
  intros line term n. unfold get_sentence_context.
  destruct (find_from (lower term) (lower line) 0) as [start|].
  - cbv zeta.
    match goal with
    | |- context [strip ?s] =>
        pose proof (len_strip s) as H1;
        pose proof (len_substring line (start - 30)
                      (Nat.min (len line) (start + len term + 30) - (start - 30)))
          as H2
    end.
    destruct (0 <? start - 30)%nat, (_ <? len line)%nat;
      rewrite ?len_app; change (len "...") with 3; lia.
  - pose proof (len_strip (take n line)). pose proof (len_take n line). lia.
Qed.

(** ** Reasons and suggestions of the final candidates *)

Ltac classify :=
  unfold classified, candidate; cbn [reason suggestion term1 term2 In];
  first
    [ left; split; [ tauto | reflexivity ]
    | right; left; split; [ reflexivity | tauto ]
    | right; right; split; [ tauto | reflexivity ] ].

Ltac classified_step :=
  match goal with
  | |- Forall classified [] => constructor
  | |- Forall classified (_ :: _) => constructor
  | |- Forall classified (_ ++ _) => apply Forall_app; split
  | |- Forall classified (flat_map _ _) =>
      apply Forall_flat_map, Forall_forall; intros ? _
  | |- Forall classified (map _ _) => apply Forall_map, Forall_forall; intros ? _
  | |- Forall classified (fst (fold_left _ _ _)) =>
      apply (fold_left_invariant _ _ (fun st => Forall classified (fst st)));
      [ intros ? ? ? | ]
  | |- Forall classified (fst (if ?b then _ else _)) => destruct b
  | |- Forall classified (if ?b then _ else _) => destruct b
  | |- Forall classified (fst (match ?x with _ => _ end)) => destruct x
  | |- Forall classified (match ?x with _ => _ end) => destruct x
  | |- Forall classified (fst (_, _)) => cbn [fst]
  | |- classified (candidate _ _ _ _ _ _ _ (Some (if ?b then _ else _))) => destruct b
  | |- classified (candidate _ _ _ _ _ _ _ _) => classify
  | H : ?P |- ?P => exact H
  end.

Ltac classified_tac := cbv zeta; repeat classified_step.

Lemma find_case_variations_classified : forall tc occ ign,
    Forall classified (find_case_variations tc occ ign).
Proof. intros. unfold find_case_variations. classified_tac. Qed.

Lemma find_abbreviations_classified : forall tc occ cfg,
    Forall classified (find_abbreviations tc occ cfg).
Proof. intros. unfold find_abbreviations. classified_tac. Qed.

Lemma find_stem_variations_classified : forall sl tc occ ign,
    Forall classified (find_stem_variations_with sl tc occ ign).
Proof. intros. unfold find_stem_variations_with. classified_tac. Qed.

Lemma find_hyphenation_variants_classified : forall tc occ ign,
    Forall classified (find_hyphenation_variants tc occ ign).
Proof. intros. unfold find_hyphenation_variants. classified_tac. Qed.

Lemma find_compound_variants_classified : forall tc occ bc bocc cfg,
    Forall classified (find_compound_variants tc occ bc bocc cfg).
Proof.
  intros. destruct (compound_bigram_loop_idle tc occ bc bocc cfg) as [E _]. rewrite E.
  apply (fold_left_invariant _ _ (fun st => Forall classified (fst st)));
    [ | constructor ].
  intros st x H. unfold compound_equivalents_step. cbv zeta.
  match goal with |- context [if ?b then _ else _] => destruct b end; [ | exact H ].
  match goal with |- context [match ?x with _ => _ end] => destruct x end;
    [ exact H | ].
  apply (fold_left_invariant _ _ (fun st => Forall classified (fst st))); [ | exact H ].
  clear. intros st y H. classified_tac.
Qed.

Lemma find_levenshtein_similar_classified : forall tc occ ign,
    Forall classified (find_levenshtein_similar tc occ ign 2).
Proof.
  intros tc occ ign.
  destruct (levenshtein_scan_inv classified occ ign 2 tc) with
    (terms := tc) (st := (@nil CandidatePair, @nil (string * string)))
    as [H _]; auto.
  - intros t1 c1 t2 c2 _ _ _ _ _ D.
    assert (Hd : levenshtein_distance (lower t1) (lower t2) = 1%Z
                 \/ levenshtein_distance (lower t1) (lower t2) = 2%Z) by lia.
    destruct Hd as [-> | ->]; classify.
  - simpl. repeat split; constructor.
Qed.

Lemma all_candidates_classified : forall sl tc occ bc bocc cfg,
    Forall classified (all_candidates_with sl tc occ bc bocc cfg).
Proof.
  intros. unfold all_candidates_with.
  repeat (apply Forall_app; split);
    auto using find_case_variations_classified, find_abbreviations_classified,
      find_stem_variations_classified, find_hyphenation_variants_classified,
      find_compound_variants_classified, find_levenshtein_similar_classified.
Qed.

(** X28: every candidate of the final result has one of the seven reasons
    of the confidence table, and its base confidence is the entry of the
    table for that reason, never the fallback value; it suggests its first
    term when it is a case, hyphenation or compound variant, one of its
    two terms when it is an abbreviation, and nothing when it is a stem
    variation or a pair of similar spellings. *)
Theorem final_candidates_classified :
  forall (set_list : list string -> list string)
         (term_counts : Counter) (term_occurrences : OccMap)
         (bigram_counts : Counter) (bigram_occurrences : OccMap)
         (config : TerminologyConfig),
    Forall (fun c =>
              dict_find CONFIDENCE_SCORES (reason c) = Some (base_confidence c)
              /\ classified c)
           (candidates_for_review
              (check_tables_with set_list term_counts term_occurrences
                                 bigram_counts bigram_occurrences config)).
Proof.
  intros sl tc occ bc bocc cfg. apply Forall_forall. intros c H.
  unfold check_tables_with in H. cbn [candidates_for_review] in H.
  apply (Permutation_in _ (sort_desc_perm rank_lt _)) in H.
  apply in_map_iff in H. destruct H as [c0 [<- H]].
  apply deduplicate_incl in H.
  pose proof (all_candidates_classified sl tc occ bc bocc cfg) as Hc.
  rewrite Forall_forall in Hc. specialize (Hc c0 H).
  split; [ | exact Hc ].
  cbn [score reason base_confidence].
  destruct Hc as [[Hr _] | [[Hr _] | [Hr _]]].
  - cbn [In] in Hr. destruct Hr as [<- | [<- | [<- | []]]]; vm_compute; reflexivity.
  - rewrite Hr. vm_compute. reflexivity.
  - cbn [In] in Hr. destruct Hr as [<- | [<- | [<- | []]]]; vm_compute; reflexivity.
Qed.

(** ** The order of the final candidates *)

Lemma SFcompare_swap : forall x y,
    SFcompare y x
    = match SFcompare x y with Some c => Some (CompOpp c) | None => None end.
Proof.
  intros [s1 | s1 | | s1 m1 e1] [s2 | s2 | | s2 m2 e2]; simpl;
    try destruct s1; try destruct s2; try reflexivity;
    rewrite (Z.compare_antisym e1 e2); destruct (e1 ?= e2)%Z; simpl;
    try reflexivity;
    change (Pos.compare_cont Eq m2 m1) with (m2 ?= m1)%positive;
    change (Pos.compare_cont Eq m1 m2) with (m1 ?= m2)%positive;
    rewrite (Pos.compare_antisym m1 m2); now destruct (m1 ?= m2)%positive.
Qed.

Lemma SFcompare_numbers : forall z x y,
    SFleb z x = true -> SFleb z y = true -> SFcompare x y <> None.
Proof.
  intros z x y Hx Hy. unfold SFleb in *.
  destruct x, y; simpl; try discriminate;
    destruct z; simpl in *; discriminate.
Qed.

Lemma key_lt_asym : forall k1 k2, key_lt k1 k2 = true -> key_lt k2 k1 = false.
Proof.
  intros [f1 z1] [f2 z2]. unfold key_lt. cbn [fst snd].
  rewrite !eqb_spec, !ltb_spec. unfold SFeqb, SFltb.
  rewrite (SFcompare_swap (Prim2SF f1) (Prim2SF f2)).
  destruct (SFcompare (Prim2SF f1) (Prim2SF f2)) as [[] | ]; simpl;
    intros H; try discriminate; try reflexivity.
  apply Z.ltb_lt in H. apply Z.ltb_ge. lia.
Qed.

Lemma key_not_lt : forall f1 z1 f2 z2,
    in_unit_interval f1 = true -> in_unit_interval f2 = true ->
    key_lt (f1, z1) (f2, z2) = false ->
    PrimFloat.leb f2 f1 = true
    /\ (PrimFloat.eqb f1 f2 = true -> (z2 <= z1)%Z).
Proof.
  intros f1 z1 f2 z2 H1 H2. unfold key_lt, in_unit_interval in *. cbn [fst snd].
  apply andb_true_iff in H1, H2. destruct H1 as [H1 _], H2 as [H2 _].
  rewrite leb_spec in H1, H2.
  pose proof (SFcompare_numbers _ _ _ H1 H2) as Hn.
  rewrite !eqb_spec, ltb_spec, leb_spec. unfold SFeqb, SFltb, SFleb.
  rewrite (SFcompare_swap (Prim2SF f1) (Prim2SF f2)).
  destruct (SFcompare (Prim2SF f1) (Prim2SF f2)) as [[] | ]; simpl;
    intros H; try discriminate; try (now split); try congruence.
  apply Z.ltb_ge in H. now split.
Qed.

Lemma insert_desc_sorted : forall (A : Type) (lt : A -> A -> bool),
    (forall x y, lt x y = true -> lt y x = false) ->
    forall x l,
      Sorted (fun a b => lt a b = false) l ->
      Sorted (fun a b => lt a b = false) (insert_desc lt x l).
Proof.
  intros A lt Hasym x l H. induction H as [|y l Hs IH Hd]; simpl.
  - repeat constructor.
  - destruct (lt x y) eqn:E.
    + constructor; [ exact IH | ].
      destruct l as [|z l]; simpl.
      * constructor. now apply Hasym.
      * destruct (lt x z); constructor.
        -- now inversion Hd.
        -- now apply Hasym.
    + constructor; [ now constructor | now constructor ].
Qed.

Lemma sort_desc_sorted : forall (A : Type) (lt : A -> A -> bool),
    (forall x y, lt x y = true -> lt y x = false) ->
    forall l, Sorted (fun a b => lt a b = false) (sort_desc lt l).
Proof.
  intros A lt Hasym l. induction l as [|x l IH]; simpl; [ constructor | ].
  now apply insert_desc_sorted.
Qed.

Lemma Sorted_among : forall (A : Type) (R1 R2 : A -> A -> Prop) (P : A -> Prop) l,
    (forall a b, P a -> P b -> R1 a b -> R2 a b) ->
    Forall P l -> Sorted R1 l -> Sorted R2 l.
Proof.
  intros A R1 R2 P l Himp HP H. induction H as [|a l Hs IH Hd]; [ constructor | ].
  inversion HP as [|? ? Pa Pl]; subst. constructor; [ now apply IH | ].
  destruct Hd as [|b l Hab]; constructor.
  inversion Pl; subst. now apply Himp.
Qed.

(** X29: in the final list every candidate has an adjusted confidence at
    least that of the candidate after it, and when the two confidences are
    equal its total count is at least that of the candidate after it. *)
Theorem final_candidates_ranked :
  forall (set_list : list string -> list string)
         (term_counts : Counter) (term_occurrences : OccMap)
         (bigram_counts : Counter) (bigram_occurrences : OccMap)
         (config : TerminologyConfig),
    Sorted (fun a b =>
              PrimFloat.leb (adjusted_confidence b) (adjusted_confidence a) = true
              /\ (PrimFloat.eqb (adjusted_confidence a) (adjusted_confidence b) = true ->
                  (term1_count b + term2_count b
                   <= term1_count a + term2_count a)%Z))
           (candidates_for_review
              (check_tables_with set_list term_counts term_occurrences
                                 bigram_counts bigram_occurrences config)).
Proof.
  intros sl tc occ bc bocc cfg.
  unfold check_tables_with. cbn [candidates_for_review]. unfold rank.
  apply (Sorted_among _ (fun a b => rank_lt a b = false) _
           (fun c => in_unit_interval (adjusted_confidence c) = true)).
  - intros a b Ha Hb H. unfold rank_lt, rank_key in H.
    now apply key_not_lt.
  - apply Forall_forall. intros c Hc.
    apply (Permutation_in _ (sort_desc_perm rank_lt _)) in Hc.
    apply in_map_iff in Hc. destruct Hc as [c0 [<- _]].
    apply score_bounded.
  - apply sort_desc_sorted. intros x y. apply key_lt_asym.
Qed.

(** ** Every case variant is reported *)

Lemma group_fold_key : forall (sel : string * Z -> option string) l d k,
    In k (map fst d) \/ (exists e, In e l /\ sel e = Some k) ->
    In k (map fst (fold_left (group_step sel) l d)).
Proof.
  intros sel l. induction l as [|tc l IH]; intros d k H; simpl.
  - destruct H as [H | [e [[] _]]]. exact H.
  - apply IH. unfold group_step.
    destruct H as [H | [e [[<- | He] Hs]]].
    + left. destruct (sel tc); [ | exact H ].
      rewrite group_add_keys. destruct (dict_mem d s); [ exact H | ].
      apply in_or_app. now left.
    + left. rewrite Hs, group_add_keys.
      destruct (dict_mem d k) eqn:E.
      * now apply dict_mem_keys.
      * apply in_or_app. right. now left.
    + right. now exists e.
Qed.

Lemma two_distinct_length : forall (A : Type) (l : list A) a b,
    In a l -> In b l -> a <> b -> 2 <= length l.
Proof.
  intros A l a b Ha Hb Hne. destruct l as [|x [|y l]]; simpl in *.
  - destruct Ha.
  - destruct Ha as [<- | []], Hb as [<- | []]. congruence.
  - lia.
Qed.

(** X30: when two different entries of the term table are equal in
    lowercase and not ignored, each of them appears, with its count, as
    the first or the second term of a candidate of
    [find_case_variations]. *)
Theorem case_variations_complete :
  forall (term_counts : Counter) (term_occurrences : OccMap) (ignore_terms : list string)
         (e1 e2 : string * Z),
    In e1 term_counts -> In e2 term_counts -> e1 <> e2 ->
    lower (fst e1) = lower (fst e2) ->
    mem (lower (fst e1)) ignore_terms = false ->
    exists c,
      In c (find_case_variations term_counts term_occurrences ignore_terms)
      /\ ((term1 c, term1_count c) = e1 \/ (term2 c, term2_count c) = e1).
Proof.
  intros tc occ ign e1 e2 H1 H2 Hne Hlow Hign.
  rewrite find_case_variations_groups.
  assert (Hsel : forall e, lower (fst e) = lower (fst e1) ->
                           case_key ign e = Some (lower (fst e1))).
  { intros e He. unfold case_key. now rewrite He, Hign. }
  assert (Hk : In (lower (fst e1))
                  (map fst (fold_left (group_step (case_key ign)) tc []))).
  { apply group_fold_key. right. exists e1. split; [ exact H1 | now apply Hsel ]. }
  apply in_map_iff in Hk. destruct Hk as [[k vs] [Ek Hin]]. cbn [fst] in Ek. subst k.
  pose proof (group_fold_spec _ _ _ _ Hin) as Hvs.
  assert (Hmem : forall e, In e tc -> lower (fst e) = lower (fst e1) -> In e vs).
  { intros e He Hl. rewrite Hvs. apply filter_In. split; [ exact He | ].
    unfold has_key. rewrite (Hsel e Hl). apply String.eqb_refl. }
  assert (V1 : In e1 vs) by now apply Hmem.
  assert (V2 : In e2 vs) by (apply Hmem; [ exact H2 | now symmetry ]).
  pose proof (two_distinct_length _ _ _ _ V1 V2 Hne) as Hlen.
  pose proof (sort_desc_perm count_lt vs) as P.
  pose proof (Permutation_length P) as PL.
  apply (Permutation_in _ (Permutation_sym P)) in V1.
  destruct (sort_desc count_lt vs) as [|mc [|r0 rest]] eqn:Es;
    [ destruct V1 | simpl in PL; lia | ].
  assert (Hbody : forall x,
             In x (r0 :: rest) ->
             In (candidate (fst mc) (snd mc) (occurrences_of occ (fst mc))
                           (fst x) (snd x) (occurrences_of occ (fst x))
                           "case_variation" (Some (fst mc)))
                (find_case_variations tc occ ign)).
  { intros x Hx. rewrite find_case_variations_groups. apply in_flat_map.
    exists (lower (fst e1), vs). split; [ exact Hin | ]. cbn [snd].
    replace (1 <? length vs)%nat with true by (symmetry; apply Nat.ltb_lt; lia).
    rewrite Es. apply in_map_iff. exists x. split; [ reflexivity | exact Hx ]. }
  rewrite <- find_case_variations_groups.
  destruct V1 as [<- | V1].
  - eexists. split; [ apply (Hbody r0); now left | ].
    left. unfold candidate. cbn [term1 term1_count]. now destruct mc.
  - eexists. split; [ apply (Hbody e1); exact V1 | ].
    right. unfold candidate. cbn [term2 term2_count]. now destruct e1.
Qed.

Lemma case_variations_complete_witness :
  exists c,
    In c (find_case_variations [("Python", 3%Z); ("python", 2%Z)] [] ["the"])
    /\ ((term1 c, term1_count c) = ("python", 2%Z)
        \/ (term2 c, term2_count c) = ("python", 2%Z)).
Proof.
  apply (case_variations_complete [("Python", 3%Z); ("python", 2%Z)] [] ["the"]
           ("python", 2%Z) ("Python", 3%Z)).
  - simpl. right. left. reflexivity.
  - simpl. left. reflexivity.
  - discriminate.
  - reflexivity.
  - reflexivity.
Defined.

